(** * PTL thread pool: a shallow embedding of [source/ThreadPool.cc]

    The development follows the source file top to bottom: the process-wide
    thread registry ([f_thread_ids]), the master-side operations of
    [ThreadPool] (constructor, destructor, [is_initialized],
    [initialize_threadpool], [destroy_threadpool], [stop_thread]) and the
    worker ([start_thread] and the run loop [execute_thread]).

    Build configuration: [PTL_USE_TBB] and [PTL_USE_GPERF] are not defined, so
    the preprocessor removes the TBB and gperftools blocks. *)

From Stdlib Require Import ZArith Lia.
From stdpp Require Import base option list gmap.

(** ** Machine integers *)

(** [uintmax_t] and [intmax_t] are 64 bits wide; conversions wrap. *)
Definition to_uintmax (z : Z) : Z := (z mod 2 ^ 64)%Z.
Definition to_intmax (z : Z) : Z := ((z + 2 ^ 63) mod 2 ^ 64 - 2 ^ 63)%Z.

(** ** Thread identities and the registry *)

(** [std::thread::id] values: an opaque, totally ordered, countable type. *)
Definition ThreadId := nat.

(** [ThreadPool::thread_id_map_t]: thread identity to [uintmax_t] index. *)
Abbreviation thread_id_map_t := (gmap ThreadId Z).

(** [f_thread_ids[_tid]] read through [operator[]] once the key is known to be
    present (a missing key would read the value-initialised 0). *)
Definition ids_at (ids : thread_id_map_t) (tid : ThreadId) : Z :=
  default 0%Z (ids !! tid).

(** [ThreadPool::GetThisThreadID], run by thread [_tid]: the returned index
    and the registry afterwards. *)
Definition GetThisThreadID (_tid : ThreadId) (ids : thread_id_map_t)
  : Z * thread_id_map_t :=
  let ids' :=
    match ids !! _tid with
    | None => let _idx := Z.of_nat (size ids) in <[_tid := _idx]> ids
    | Some _ => ids
    end in
  (ids_at ids' _tid, ids').

(** The locked block of [ThreadPool::start_thread], run by the new worker
    [tid] with the index hint [_idx] (an [intmax_t]). *)
Definition start_thread_register (tid : ThreadId) (_idx : Z)
    (ids : thread_id_map_t) : thread_id_map_t :=
  let _idx := if (_idx <? 0)%Z then to_intmax (Z.of_nat (size ids)) else _idx in
  <[tid := to_uintmax _idx]> ids.

(** ** Pool states *)

(** The constants of namespace [thread_pool::state]. [ThreadPool.cc] only
    names them; their numeric values are declared in [PTL/ThreadPool.hh]. The
    embedding is parametric in them, and each result states which relations
    between them it relies on. *)
Class StateCodes := {
  STARTED : Z;
  PARTIAL : Z;
  STOPPED : Z;
  NONINIT : Z
}.

(** Modelled from the spec: the numeric values of the four pool states, which
    [PTL/ThreadPool.hh] declares. The data model orders them
    [NONINIT < STARTED < PARTIAL < STOPPED] with [NONINIT] the numeric zero. *)
Definition spec_codes : StateCodes :=
  {| NONINIT := 0; STARTED := 1; PARTIAL := 2; STOPPED := 3 |}.

(** ** Tasks and the queue interface *)

(** A task as the pool sees it: something to invoke, and its [group()]
    pointer (here the group's handle, [None] for a null pointer). *)
Record Task := { task_id : nat; group : option nat }.

#[global] Instance Task_eq_dec : EqDecision Task.
Proof. solve_decision. Defined.

Module VUserTaskQueue.

(** Modelled from the spec: the signatures of the three virtual members of
    the abstract class [VUserTaskQueue] that the pool calls, which
    [PTL/VUserTaskQueue.hh] declares. The queue contract gives them as
    [get_task() -> optional<Task>] (a non-blocking pop), [empty() -> bool] and
    [true_size() -> usize] (an unsigned size). [Q] is the type of queue
    contents. *)
Class ops (Q : Type) := {
  empty : Q -> bool;
  true_size : Q -> nat;
  GetTask : Q -> option Task * Q
}.

End VUserTaskQueue.

(** ** Observable actions *)

(** The three places where [execute_thread] evaluates [leave_pool()]. *)
Inductive site :=
| InWaitLoop      (* line 562: top of the [while(_task_queue->empty())] body *)
| AfterWait       (* line 580: right after [m_task_cond.wait] returns *)
| BeforeDrain.    (* line 601: before the task-execution loop *)

#[global] Instance site_eq_dec : EqDecision site.
Proof. solve_decision. Defined.

Inductive event :=
| EvNotifyOne                               (* m_task_cond.notify_one() *)
| EvNotifyAll                               (* m_task_cond.notify_all() *)
| EvSpawn (tid : ThreadId) (idx : Z)        (* new Thread(start_thread, this, idx) *)
| EvSpawnFailed (i : nat)                   (* caught runtime_error / bad_alloc *)
| EvJoin (tid : ThreadId)                   (* itr->join() *)
| EvInit (tid : ThreadId)                   (* m_init_func() *)
| EvGetTask (tid : ThreadId) (t : option Task)   (* _task_queue->GetTask() *)
| EvInvoke (tid : ThreadId) (t : Task)      (* the call of the task object *)
| EvDelete (tid : ThreadId) (t : Task)      (* delete _task *)
| EvLeaveCheck (tid : ThreadId) (s : site) (st : Z)  (* leave_pool() loads the state *)
| EvBlock (tid : ThreadId)                  (* the wait predicate was false *)
| EvReturn (tid : ThreadId).                (* execute_thread returns *)

#[global] Instance event_eq_dec : EqDecision event.
Proof. solve_decision. Defined.

(** ** The pool object *)

Record ThreadPool := mkPool {
  m_alive_flag : bool;                (* atomic *)
  m_pool_size : nat;
  m_pool_state : Z;                   (* atomic, holds a state code *)
  m_thread_awake : Z;                 (* atomic counter, behind a pointer *)
  m_is_joined : list bool;
  m_is_stopped : list bool;           (* stop-request tokens *)
  m_main_threads : list ThreadId;
  m_stop_threads : list ThreadId;     (* acknowledged stops *)
  m_unique_threads : list ThreadId    (* owned thread handles *)
}.

#[global] Instance ThreadPool_eq_dec : EqDecision ThreadPool.
Proof. solve_decision. Defined.

Definition set_alive_flag (b : bool) (p : ThreadPool) : ThreadPool :=
  mkPool b (m_pool_size p) (m_pool_state p) (m_thread_awake p) (m_is_joined p)
         (m_is_stopped p) (m_main_threads p) (m_stop_threads p)
         (m_unique_threads p).

Definition set_pool_size (n : nat) (p : ThreadPool) : ThreadPool :=
  mkPool (m_alive_flag p) n (m_pool_state p) (m_thread_awake p) (m_is_joined p)
         (m_is_stopped p) (m_main_threads p) (m_stop_threads p)
         (m_unique_threads p).

Definition set_pool_state (s : Z) (p : ThreadPool) : ThreadPool :=
  mkPool (m_alive_flag p) (m_pool_size p) s (m_thread_awake p) (m_is_joined p)
         (m_is_stopped p) (m_main_threads p) (m_stop_threads p)
         (m_unique_threads p).

Definition set_thread_awake (a : Z) (p : ThreadPool) : ThreadPool :=
  mkPool (m_alive_flag p) (m_pool_size p) (m_pool_state p) a (m_is_joined p)
         (m_is_stopped p) (m_main_threads p) (m_stop_threads p)
         (m_unique_threads p).

Definition set_is_joined (l : list bool) (p : ThreadPool) : ThreadPool :=
  mkPool (m_alive_flag p) (m_pool_size p) (m_pool_state p) (m_thread_awake p) l
         (m_is_stopped p) (m_main_threads p) (m_stop_threads p)
         (m_unique_threads p).

Definition set_is_stopped (l : list bool) (p : ThreadPool) : ThreadPool :=
  mkPool (m_alive_flag p) (m_pool_size p) (m_pool_state p) (m_thread_awake p)
         (m_is_joined p) l (m_main_threads p) (m_stop_threads p)
         (m_unique_threads p).

Definition set_main_threads (l : list ThreadId) (p : ThreadPool) : ThreadPool :=
  mkPool (m_alive_flag p) (m_pool_size p) (m_pool_state p) (m_thread_awake p)
         (m_is_joined p) (m_is_stopped p) l (m_stop_threads p)
         (m_unique_threads p).

Definition set_stop_threads (l : list ThreadId) (p : ThreadPool) : ThreadPool :=
  mkPool (m_alive_flag p) (m_pool_size p) (m_pool_state p) (m_thread_awake p)
         (m_is_joined p) (m_is_stopped p) (m_main_threads p) l
         (m_unique_threads p).

Definition set_unique_threads (l : list ThreadId) (p : ThreadPool) : ThreadPool :=
  mkPool (m_alive_flag p) (m_pool_size p) (m_pool_state p) (m_thread_awake p)
         (m_is_joined p) (m_is_stopped p) (m_main_threads p) (m_stop_threads p) l.

(** The master-side view of the process: the static registry, the pool
    object, and the actions performed so far (most recent last). *)
Record Process := mkProcess {
  f_thread_ids : thread_id_map_t;
  tp : ThreadPool;
  trace : list event
}.

Definition with_ids (ids : thread_id_map_t) (w : Process) : Process :=
  mkProcess ids (tp w) (trace w).
Definition with_tp (p : ThreadPool) (w : Process) : Process :=
  mkProcess (f_thread_ids w) p (trace w).
Definition on_tp (f : ThreadPool -> ThreadPool) (w : Process) : Process :=
  with_tp (f (tp w)) w.
Definition emit (es : list event) (w : Process) : Process :=
  mkProcess (f_thread_ids w) (tp w) (trace w ++ es).

(** ** Outcomes of the master-side operations *)

Inductive func_name := In_initialize_threadpool | In_destroy_threadpool.

(** The [std::runtime_error] thrown when the two vectors disagree; the
    message text carries the function name and the two sizes. *)
Record runtime_error := SizeMismatch {
  thrown_by : func_name;
  is_joined_size : nat;
  threads_size : nat
}.

Inductive result (A : Type) :=
| Return (v : A) (w : Process)
| Throw (e : runtime_error) (w : Process)
| Undefined                        (* undefined behaviour in the C++ source *)
| OutOfFuel.                       (* the loop did not finish within the fuel *)
Arguments Return {A} v w.
Arguments Throw {A} e w.
Arguments Undefined {A}.
Arguments OutOfFuel {A}.

Definition raises {A} (r : result A) : Prop :=
  match r with Throw _ _ => True | _ => False end.

(** ** Container primitives *)

(** [std::vector::pop_back]; on an empty vector the call is undefined. *)
Definition pop_back {A} (l : list A) : option (list A) :=
  match l with
  | [] => None
  | _ :: _ => Some (removelast l)
  end.

(** [m_main_threads.erase(itr)] at the first [itr] with [*itr == tid]
    (lines 459-466); nothing is erased when no element matches. *)
Fixpoint erase_first (tid : ThreadId) (l : list ThreadId) : list ThreadId :=
  match l with
  | [] => []
  | x :: l' => if decide (x = tid) then l' else x :: erase_first tid l'
  end.

(** ** [ThreadPool::stop_thread] (lines 436-473) *)

Section Master.
Context `{StateCodes}.

(** Lines 444-447: under [m_task_lock], post one token and notify one waiter. *)
Definition stop_thread_post (w : Process) : Process :=
  emit [EvNotifyOne]
       (on_tp (fun p => set_is_stopped (m_is_stopped p ++ [true]) p) w).

(** Lines 453-469: the [while(!m_stop_threads.empty())] loop, by recursion on
    the acknowledgements still to process (front first). *)
Fixpoint drain_stop_threads (acks : list ThreadId) (main : list ThreadId)
    (joined : list bool) : option (list ThreadId * list bool) :=
  match acks with
  | [] => Some (main, joined)
  | tid :: acks' =>
      match pop_back joined with
      | None => None
      | Some joined' => drain_stop_threads acks' (erase_first tid main) joined'
      end
  end.

(** Lines 451-472: under [m_task_lock], drain and resize. *)
Definition stop_thread_drain (w : Process) : result nat :=
  let p := tp w in
  match drain_stop_threads (m_stop_threads p) (m_main_threads p) (m_is_joined p) with
  | None => Undefined
  | Some (main, joined) =>
      let p' := set_pool_size (length main)
                  (set_is_joined joined
                     (set_main_threads main (set_stop_threads [] p))) in
      Return (length main) (with_tp p' w)
  end.

Definition stop_thread (w : Process) : result nat :=
  if negb (m_alive_flag (tp w)) || (m_pool_size (tp w) =? 0) then Return 0 w
  else stop_thread_drain (stop_thread_post w).

(** ** [ThreadPool::initialize_threadpool] (lines 194-354) *)

(** Lines 273-280: [while(stop_thread() > proposed_size) ;] and the return of
    [m_pool_size] that follows it. *)
Fixpoint shrink (fuel : nat) (proposed_size : nat) (w : Process) : result nat :=
  match fuel with
  | O => OutOfFuel
  | S fuel' =>
      match stop_thread w with
      | Return n w' =>
          if proposed_size <? n then shrink fuel' proposed_size w'
          else Return (m_pool_size (tp w')) w'
      | r => r
      end
  end.

(** One successful iteration of the spawn loop (lines 310-319), after
    [new Thread] produced the thread [tid]. *)
Definition spawned (tid : ThreadId) (p : ThreadPool) : ThreadPool :=
  set_unique_threads (m_unique_threads p ++ [tid])
    (set_is_joined (m_is_joined p ++ [false])
       (set_main_threads (m_main_threads p ++ [tid])
          (set_pool_size (S (m_pool_size p)) p))).

(** Lines 301-331: [n] iterations starting at index [i]. [spawn i] is what
    [new Thread] does in iteration [i]: the identity of the created thread, or
    [None] when it throws [std::runtime_error] or [std::bad_alloc]. *)
Fixpoint spawn_loop (spawn : nat -> option ThreadId) (this_tid : Z)
    (n i : nat) (w : Process) : Process :=
  match n with
  | O => w
  | S n' =>
      let w' :=
        match spawn i with
        | Some tid =>
            let _idx := to_intmax (to_uintmax (this_tid + Z.of_nat i + 1)) in
            on_tp (spawned tid) (emit [EvSpawn tid _idx] w)
        | None => emit [EvSpawnFailed i] w
        end in
      spawn_loop spawn this_tid n' (S i) w'
  end.

(** Lines 334-353: the size check under [m_task_lock] and the return. *)
Definition initialize_check (w : Process) : result nat :=
  let p := tp w in
  if bool_decide (length (m_is_joined p) ≠ length (m_main_threads p)) then
    Throw (SizeMismatch In_initialize_threadpool
             (length (m_is_joined p)) (length (m_main_threads p))) w
  else Return (length (m_main_threads p)) w.

(** Lines 199-265: the early return and the two atomic stores. [None] is the
    early return. *)
Definition initialize_enter (proposed_size : nat) (w : Process) : option Process :=
  if proposed_size <? 1 then None
  else
    let w1 := if negb (m_alive_flag (tp w))
              then on_tp (set_pool_state STARTED) w else w in
    Some (on_tp (set_alive_flag true) w1).

(** Lines 300-331: the registry lookup and the spawn loop. *)
Definition initialize_spawn (me : ThreadId) (spawn : nat -> option ThreadId)
    (proposed_size : nat) (w : Process) : Process :=
  let '(this_tid, ids) := GetThisThreadID me (f_thread_ids w) in
  spawn_loop spawn this_tid (proposed_size - m_pool_size (tp w))
             (m_pool_size (tp w)) (with_ids ids w).

(** The whole function, called by thread [me]. *)
Definition initialize_threadpool (me : ThreadId) (spawn : nat -> option ThreadId)
    (fuel : nat) (proposed_size : nat) (w : Process) : result nat :=
  match initialize_enter proposed_size w with
  | None => Return 0 w
  | Some w2 =>
      let p := tp w2 in
      if (m_pool_state p =? STARTED)%Z && (proposed_size <? m_pool_size p) then
        shrink fuel proposed_size w2
      else if (m_pool_state p =? STARTED)%Z && (m_pool_size p =? proposed_size) then
        Return (m_pool_size p) w2
      else
        initialize_check (initialize_spawn me spawn proposed_size w2)
  end.

(** ** The constructor (lines 123-151) *)

Definition fresh_pool : ThreadPool :=
  mkPool false 0 NONINIT 0 [] [] [] [] [].

Definition ThreadPool_ctor (me : ThreadId) (spawn : nat -> option ThreadId)
    (fuel : nat) (pool_size : nat) (ids : thread_id_map_t) : result nat :=
  let '(master_id, ids') := GetThisThreadID me ids in
  initialize_threadpool me spawn fuel pool_size (mkProcess ids' fresh_pool []).

(** ** [ThreadPool::destroy_threadpool] (lines 358-432) *)

(** Lines 361-368: the registry lookup and the store of [STOPPED]. *)
Definition destroy_store (me : ThreadId) (w : Process) : Process :=
  let '(nid, ids) := GetThisThreadID me (f_thread_ids w) in
  on_tp (set_pool_state STOPPED) (with_ids ids w).

(** Lines 372-374: [notify_all] under [m_task_lock]. *)
Definition destroy_notify (w : Process) : Process := emit [EvNotifyAll] w.

(** Lines 410-414: erase every pool thread that the registry knows. *)
Definition erase_ids (tids : list ThreadId) (ids : thread_id_map_t)
  : thread_id_map_t :=
  foldl (fun m _tid => delete _tid m) ids tids.

(** Lines 395-431. *)
Definition destroy_finish (w : Process) : result nat :=
  let p := tp w in
  if negb (m_alive_flag p) then Return 0 w
  else if bool_decide (length (m_is_joined p) ≠ length (m_main_threads p)) then
    Throw (SizeMismatch In_destroy_threadpool
             (length (m_is_joined p)) (length (m_main_threads p))) w
  else
    let w1 := with_ids (erase_ids (m_main_threads p) (f_thread_ids w)) w in
    let w2 := emit (EvNotifyAll :: (EvJoin <$> m_unique_threads p)) w1 in
    let cleared p := set_unique_threads [] (set_is_joined [] (set_main_threads [] p)) in
    Return 0 (on_tp (set_alive_flag false) (on_tp cleared w2)).

Definition destroy_threadpool (me : ThreadId) (w : Process) : result nat :=
  destroy_finish (destroy_notify (destroy_store me w)).

End Master.

(** ** The worker: [ThreadPool::start_thread] and [ThreadPool::execute_thread] *)

(** Which of the two task-running blocks a worker is in. *)
Inductive block :=
| DummyRun        (* lines 501-511 *)
| DrainLoop.      (* lines 610-619 *)

(** Program points of a worker. Each one is a statement (or loop test) of
    the source; a step executes it and moves to the next one. *)
Inductive label :=
| at_start (_idx : Z)            (* 78-85   registry block of start_thread *)
| at_awake                       (* 487     ++( *m_thread_awake) *)
| at_init                        (* 490     m_init_func() *)
| at_dummy_get                   (* 502-503 within_task = true; GetTask() *)
| at_call (b : block) (t : Task)     (* 506 / 615   the task is invoked; what
                                        its body does to the queue is a
                                        [QueueOp] of the schedule *)
| at_dispose (b : block) (t : Task)  (* 507-508 / 616-617   group test, delete *)
| at_dummy_done                  (* 510     within_task = false *)
| at_loop                        (* 518     AutoLock with std::defer_lock *)
| at_wait_test                   (* 555     while(_task_queue->empty()) *)
| at_leave (s : site)            (* 522-532 leave_pool(): load and branch *)
| at_leave_partial (s : site)    (* 534-543 leave_pool(): the PARTIAL branch *)
| at_true_size                   (* 565     if(_task_queue->true_size() == 0) *)
| at_awake_dec                   (* 567-568 *)
| at_lock                        (* 571-572 *)
| at_wait                        (* 577     m_task_cond.wait: test of _wake *)
| blocked                        (* 577     inside wait, mutex released *)
| at_unlock                      (* 584-585 *)
| at_awake_inc                   (* 588-589 *)
| at_release                     (* 596-597 *)
| at_guard_on                    (* 606     within_task = true *)
| at_drain_test                  (* 610     while(!_task_queue->empty()) *)
| at_drain_get                   (* 612     GetTask() *)
| at_guard_off                   (* 623-625 within_task = false; ~AutoLock *)
| returned.                      (* execute_thread has returned *)

#[global] Instance block_eq_dec : EqDecision block.
Proof. solve_decision. Defined.
#[global] Instance label_eq_dec : EqDecision label.
Proof. solve_decision. Defined.

(** What a worker keeps to itself: where it is, whether its [_task_lock]
    owns the mutex, and the [within_task] flag of its [ThreadData]. *)
Record Worker := mkWorker {
  pc : label;
  owns_lock : bool;
  within_task : bool
}.

#[global] Instance Worker_eq_dec : EqDecision Worker.
Proof. solve_decision. Defined.

(** What the threads share: the process state of the master side, the owner
    of [m_task_lock], and the task queue. *)
Record Shared (Q : Type) := mkShared {
  proc : Process;
  m_task_lock : option ThreadId;
  queue : Q
}.
Arguments mkShared {Q} _ _ _.
Arguments proc {Q} _.
Arguments m_task_lock {Q} _.
Arguments queue {Q} _.

Section Worker.
Context `{StateCodes} {Q : Type} `{VUserTaskQueue.ops Q}.
Implicit Types s : Shared Q.

Definition with_proc (w : Process) (s : Shared Q) : Shared Q :=
  mkShared w (m_task_lock s) (queue s).
Definition with_lock (o : option ThreadId) (s : Shared Q) : Shared Q :=
  mkShared (proc s) o (queue s).
Definition with_queue (q : Q) (s : Shared Q) : Shared Q :=
  mkShared (proc s) (m_task_lock s) q.
Definition on_pool (f : ThreadPool -> ThreadPool) (s : Shared Q) : Shared Q :=
  with_proc (on_tp f (proc s)) s.
Definition the_pool (s : Shared Q) : ThreadPool := tp (proc s).

(** [if(!_task_lock.owns_lock()) _task_lock.lock();] -- [None] while another
    thread holds the mutex. *)
Definition lock_if_not_owned (tid : ThreadId) (owns : bool) (s : Shared Q)
  : option (Shared Q) :=
  if owns then Some s
  else match m_task_lock s with
       | None => Some (with_lock (Some tid) s)
       | Some _ => None
       end.

(** [if(_task_lock.owns_lock()) _task_lock.unlock();] *)
Definition unlock_if_owned (owns : bool) (s : Shared Q) : Shared Q :=
  if owns then with_lock None s else s.

(** *** The [leave_pool] lambda (lines 521-547) *)

(** Lines 536-541, with the mutex held: accept a stop token. *)
Definition acknowledge (tid : ThreadId) (p : ThreadPool) : ThreadPool :=
  set_is_stopped (removelast (m_is_stopped p))
    (set_stop_threads (m_stop_threads p ++ [tid]) p).

(** Line 536: [!m_is_stopped.empty() && m_is_stopped.back()]. *)
Definition token_available (p : ThreadPool) : bool :=
  match last (m_is_stopped p) with
  | Some b => b
  | None => false
  end.

(** The three ways the first half of [leave_pool] (lines 522-532) ends. *)
Inductive verdict := Leave | TryPartial | Stay.

Definition leave_verdict (_pool_state : Z) : verdict :=
  if (0 <? _pool_state)%Z then
    if (_pool_state =? STOPPED)%Z then Leave
    else if (_pool_state =? PARTIAL)%Z then TryPartial
    else Stay
  else Stay.

(** The whole lambda run without interruption by a thread that can take the
    mutex: the returned flag, whether [_task_lock] owns the mutex afterwards,
    and the pool. *)
Definition leave_pool (tid : ThreadId) (owns : bool) (p : ThreadPool)
  : bool * bool * ThreadPool :=
  match leave_verdict (m_pool_state p) with
  | Leave => (true, owns, p)
  | TryPartial =>
      if token_available p then (true, true, acknowledge tid p)
      else (false, false, p)
  | Stay => (false, owns, p)
  end.

(** *** The wait predicate (lines 557-560) *)

Definition _wake (q : Q) (p : ThreadPool) : bool :=
  negb (VUserTaskQueue.empty q)
  || (0 <? VUserTaskQueue.true_size q)
  || (0 <? m_pool_state p)%Z.

(** *** One step of a worker *)

Definition goto (l : label) (w : Worker) : Worker :=
  mkWorker l (owns_lock w) (within_task w).

(** Where [execute_thread] continues when [leave_pool()] returned false. *)
Definition after_leave (s : site) : label :=
  match s with
  | InWaitLoop => at_true_size
  | AfterWait => at_unlock
  | BeforeDrain => at_guard_on
  end.

(** Where a worker continues after a task was run and disposed of. *)
Definition after_task (b : block) : label :=
  match b with
  | DummyRun => at_dummy_done
  | DrainLoop => at_drain_test
  end.

(** [return] from inside the loop: the destructor of [_task_lock] releases
    the mutex when it owns it. *)
Definition do_return (tid : ThreadId) (s : Shared Q) (w : Worker)
  : Shared Q * Worker * list event :=
  (unlock_if_owned (owns_lock w) s, mkWorker returned false (within_task w),
   [EvReturn tid]).

(** The step of worker [tid] in local state [w] on the shared state [s]: the
    new shared and local states and the actions performed. [None] when the
    worker cannot move: it waits for the mutex, or it has returned. *)
Definition execute_thread_step (tid : ThreadId) (s : Shared Q) (w : Worker)
  : option (Shared Q * Worker * list event) :=
  let p := the_pool s in
  match pc w with
  | at_start _idx =>
      let ids := start_thread_register tid _idx (f_thread_ids (proc s)) in
      Some (with_proc (with_ids ids (proc s)) s, mkWorker at_awake false false, [])
  | at_awake =>
      Some (on_pool (set_thread_awake (m_thread_awake p + 1)) s, goto at_init w, [])
  | at_init => Some (s, goto at_dummy_get w, [EvInit tid])
  | at_dummy_get =>
      let '(_task, q) := VUserTaskQueue.GetTask (queue s) in
      let l := match _task with Some t => at_call DummyRun t | None => at_dummy_done end in
      Some (with_queue q s, mkWorker l (owns_lock w) true, [EvGetTask tid _task])
  | at_call b t => Some (s, goto (at_dispose b t) w, [EvInvoke tid t])
  | at_dispose b t =>
      Some (s, goto (after_task b) w,
            match group t with None => [EvDelete tid t] | Some _ => [] end)
  | at_dummy_done => Some (s, mkWorker at_loop (owns_lock w) false, [])
  | at_loop => Some (s, mkWorker at_wait_test false (within_task w), [])
  | at_wait_test =>
      if VUserTaskQueue.empty (queue s)
      then Some (s, goto (at_leave InWaitLoop) w, [])
      else Some (s, goto at_release w, [])
  | at_leave site =>
      let _pool_state := m_pool_state p in
      let ev := EvLeaveCheck tid site _pool_state in
      match leave_verdict _pool_state with
      | Leave =>
          let '(s', w', evs) := do_return tid s w in Some (s', w', ev :: evs)
      | TryPartial => Some (s, goto (at_leave_partial site) w, [ev])
      | Stay => Some (s, goto (after_leave site) w, [ev])
      end
  | at_leave_partial site =>
      match lock_if_not_owned tid (owns_lock w) s with
      | None => None
      | Some s1 =>
          let w1 := mkWorker (pc w) true (within_task w) in
          if token_available p
          then Some (do_return tid (on_pool (acknowledge tid) s1) w1)
          else Some (unlock_if_owned true s1,
                     mkWorker (after_leave site) false (within_task w), [])
      end
  | at_true_size =>
      if VUserTaskQueue.true_size (queue s) =? 0
      then Some (s, goto at_awake_dec w, [])
      else Some (s, goto at_release w, [])
  | at_awake_dec =>
      let s' := if (0 <? m_thread_awake p)%Z
                then on_pool (set_thread_awake (m_thread_awake p - 1)) s else s in
      Some (s', goto at_lock w, [])
  | at_lock =>
      match lock_if_not_owned tid (owns_lock w) s with
      | None => None
      | Some s1 => Some (s1, mkWorker at_wait true (within_task w), [])
      end
  | at_wait =>
      if _wake (queue s) p
      then Some (s, goto (at_leave AfterWait) w, [])
      else Some (with_lock None s, mkWorker blocked false (within_task w),
                 [EvBlock tid])
  | blocked =>
      match lock_if_not_owned tid false s with
      | None => None
      | Some s1 => Some (s1, mkWorker at_wait true (within_task w), [])
      end
  | at_unlock =>
      Some (unlock_if_owned (owns_lock w) s,
            mkWorker at_awake_inc false (within_task w), [])
  | at_awake_inc =>
      let s' := if (m_thread_awake p <? Z.of_nat (m_pool_size p))%Z
                then on_pool (set_thread_awake (m_thread_awake p + 1)) s else s in
      Some (s', goto at_wait_test w, [])
  | at_release =>
      Some (unlock_if_owned (owns_lock w) s,
            mkWorker (at_leave BeforeDrain) false (within_task w), [])
  | at_guard_on => Some (s, mkWorker at_drain_test (owns_lock w) true, [])
  | at_drain_test =>
      if VUserTaskQueue.empty (queue s)
      then Some (s, goto at_guard_off w, [])
      else Some (s, goto at_drain_get w, [])
  | at_drain_get =>
      let '(_task, q) := VUserTaskQueue.GetTask (queue s) in
      let l := match _task with Some t => at_call DrainLoop t | None => at_drain_test end in
      Some (with_queue q s, goto l w, [EvGetTask tid _task])
  | at_guard_off =>
      Some (unlock_if_owned (owns_lock w) s, mkWorker at_loop false false, [])
  | returned => None
  end.

End Worker.

(** ** Threads running together *)

(** The shared state and the local state of every worker thread. *)
Record System (Q : Type) := mkSystem {
  shared : Shared Q;
  threads : gmap ThreadId Worker
}.
Arguments mkSystem {Q} _ _.
Arguments shared {Q} _.
Arguments threads {Q} _.

(** What can happen next. The master-side operations are cut where they
    release or take [m_task_lock], so that workers can run in between. *)
Inductive action (Q : Type) :=
| Run (tid : ThreadId)          (* worker [tid] executes its next statement *)
| QueueOp (f : Q -> Q)          (* a thread inserts into, or takes from, the queue *)
| StopPost                      (* stop_thread, lines 439-447 *)
| StopDrain                     (* stop_thread, lines 451-472 *)
| DestroyStore (me : ThreadId)  (* destroy_threadpool, lines 361-368 *)
| DestroyNotify                 (* destroy_threadpool, lines 372-374 *)
| DestroyFinish.                (* destroy_threadpool, lines 395-431 *)
Arguments Run {Q} tid.
Arguments QueueOp {Q} f.
Arguments StopPost {Q}.
Arguments StopDrain {Q}.
Arguments DestroyStore {Q} me.
Arguments DestroyNotify {Q}.
Arguments DestroyFinish {Q}.

Section System.
Context `{StateCodes} {Q : Type} `{VUserTaskQueue.ops Q}.

Definition mutex_free (s : Shared Q) : bool :=
  match m_task_lock s with None => true | Some _ => false end.

(** [itr->join()] returns only once the thread has finished. *)
Definition all_returned (sys : System Q) : bool :=
  forallb (fun tid => match threads sys !! tid with
                      | Some w => bool_decide (pc w = returned)
                      | None => true
                      end)
          (m_unique_threads (the_pool (shared sys))).

Definition append_trace (evs : list event) (s : Shared Q) : Shared Q :=
  with_proc (emit evs (proc s)) s.

(** One action. An action that cannot run now (the thread waits for the
    mutex or for a join, or has returned) leaves the system as it is; [None]
    is undefined behaviour of the source. *)
Definition sys_step (a : action Q) (sys : System Q) : option (System Q) :=
  let s := shared sys in
  match a with
  | Run tid =>
      match threads sys !! tid with
      | Some w =>
          match execute_thread_step tid s w with
          | Some (s', w', evs) =>
              Some (mkSystem (append_trace evs s') (<[tid := w']> (threads sys)))
          | None => Some sys
          end
      | None => Some sys
      end
  | QueueOp f => Some (mkSystem (with_queue (f (queue s)) s) (threads sys))
  | StopPost =>
      if negb (m_alive_flag (the_pool s)) || (m_pool_size (the_pool s) =? 0)
      then Some sys
      else if mutex_free s
      then Some (mkSystem (with_proc (stop_thread_post (proc s)) s) (threads sys))
      else Some sys
  | StopDrain =>
      if mutex_free s then
        match stop_thread_drain (proc s) with
        | Return _ w => Some (mkSystem (with_proc w s) (threads sys))
        | _ => None
        end
      else Some sys
  | DestroyStore me =>
      Some (mkSystem (with_proc (destroy_store me (proc s)) s) (threads sys))
  | DestroyNotify =>
      if mutex_free s
      then Some (mkSystem (with_proc (destroy_notify (proc s)) s) (threads sys))
      else Some sys
  | DestroyFinish =>
      if all_returned sys then
        match destroy_finish (proc s) with
        | Return _ w | Throw _ w => Some (mkSystem (with_proc w s) (threads sys))
        | _ => None
        end
      else Some sys
  end.

(** A schedule: the actions in the order in which they happen. *)
Fixpoint run (sched : list (action Q)) (sys : System Q) : option (System Q) :=
  match sched with
  | [] => Some sys
  | a :: sched' =>
      match sys_step a sys with
      | Some sys' => run sched' sys'
      | None => None
      end
  end.

Definition sys_trace (sys : System Q) : list event := trace (proc (shared sys)).
Definition sys_pool (sys : System Q) : ThreadPool := the_pool (shared sys).

(** The thread that performs a worker action. *)
Definition thread_of (e : event) : option ThreadId :=
  match e with
  | EvInit tid | EvGetTask tid _ | EvInvoke tid _ | EvDelete tid _
  | EvLeaveCheck tid _ _ | EvBlock tid | EvReturn tid => Some tid
  | EvNotifyOne | EvNotifyAll | EvSpawn _ _ | EvSpawnFailed _ | EvJoin _ => None
  end.

(** The actions of worker [tid] in a trace, in order. *)
Definition actions_of (tid : ThreadId) (tr : list event) : list event :=
  filter (fun e => thread_of e = Some tid) tr.

End System.

(** ** A concrete queue for examples: one FIFO bin *)

#[global] Instance fifo_queue : VUserTaskQueue.ops (list Task) := {|
  VUserTaskQueue.empty q := match q with [] => true | _ :: _ => false end;
  VUserTaskQueue.true_size q := length q;
  VUserTaskQueue.GetTask q :=
    match q with
    | [] => (None, [])
    | t :: q' => (Some t, q')
    end
|}.

(** ** Vocabulary of the results *)

Definition sizes_differ (w : Process) : Prop :=
  length (m_is_joined (tp w)) ≠ length (m_main_threads (tp w)).

(** The identities left after erasing the acknowledged ones, front first. *)
Definition erase_all (acks main : list ThreadId) : list ThreadId :=
  foldl (fun m tid => erase_first tid m) main acks.

(** The process an operation leaves behind, if its behaviour is defined. *)
Definition final {A} (r : result A) : option Process :=
  match r with
  | Return _ w | Throw _ w => Some w
  | Undefined | OutOfFuel => None
  end.

Section Vocabulary.
Context `{StateCodes} {Q : Type} `{VUserTaskQueue.ops Q}.
Implicit Types (s : Shared Q) (wk : Worker) (sys : System Q)
  (sched : list (action Q)).

(** The call gets past the early returns of lines 199-291 and runs the spawn
    loop and the check that follows it. *)
Definition reaches_spawn_loop (proposed_size : nat) (w : Process) : bool :=
  match initialize_enter proposed_size w with
  | None => false
  | Some w2 =>
      negb ((m_pool_state (tp w2) =? STARTED)%Z
            && (proposed_size <=? m_pool_size (tp w2)))
  end.

(** The process as the check of line 338 sees it. *)
Definition at_initialize_check (me : ThreadId) (spawn : nat -> option ThreadId)
    (proposed_size : nat) (w : Process) : Process :=
  match initialize_enter proposed_size w with
  | None => w
  | Some w2 => initialize_spawn me spawn proposed_size w2
  end.

(** The pool after a drain that found [acks] acknowledged. *)
Definition drained (p : ThreadPool) : ThreadPool :=
  let main := erase_all (m_stop_threads p) (m_main_threads p) in
  set_pool_size (length main)
    (set_is_joined
       (take (length (m_is_joined p) - length (m_stop_threads p)) (m_is_joined p))
       (set_main_threads main (set_stop_threads [] p))).

(** [k] calls in a row by the master, no worker taking the mutex in between:
    the process after the last call ([None] once a call is undefined). *)
Fixpoint stop_thread_times (k : nat) (w : Process) : option Process :=
  match k with
  | O => Some w
  | S k' =>
      match stop_thread w with
      | Return _ w' => stop_thread_times k' w'
      | _ => None
      end
  end.

(** A whole [leave_pool()] call of worker [tid]: the check and, when it read
    [PARTIAL], the locked branch right after it, no other thread running in
    between. *)
Definition leave_pool_call (tid : ThreadId) s wk
  : option (Shared Q * Worker * list event) :=
  match execute_thread_step tid s wk with
  | Some (s1, wk1, evs1) =>
      match pc wk1 with
      | at_leave_partial _ =>
          match execute_thread_step tid s1 wk1 with
          | Some (s2, wk2, evs2) => Some (s2, wk2, evs1 ++ evs2)
          | None => None
          end
      | _ => Some (s1, wk1, evs1)
      end
  | None => None
  end.

(** The worker's local state, when [tid] is a worker that has returned. *)
Definition has_returned (tid : ThreadId) sys : Prop :=
  exists wk, threads sys !! tid = Some wk /\ pc wk = returned.

Definition is_check (e : event) : bool :=
  match e with EvLeaveCheck _ _ _ => true | _ => false end.

(** Every [leave_pool()] check in the trace read [STOPPED], and the thread
    that made it did nothing afterwards but return. *)
Fixpoint leaves_at_once (tr : list event) : Prop :=
  match tr with
  | [] => True
  | e :: post =>
      match e with
      | EvLeaveCheck tid _ st =>
          st = STOPPED /\ actions_of tid post = [EvReturn tid]
      | _ => True
      end
      /\ leaves_at_once post
  end.

(** The task a worker still has to delete: it has invoked a task without a
    group and has not yet run the statement that follows the call. *)
Definition owes (l : label) : option Task :=
  match l with
  | at_dispose _ t => match group t with None => Some t | Some _ => None end
  | _ => None
  end.

Definition pending_of (tid : ThreadId) sys : option Task :=
  match threads sys !! tid with
  | Some wk => owes (pc wk)
  | None => None
  end.

(** Reads the actions of worker [tid] in order, keeping the task whose
    deletion is due. With a deletion due, the next action must be that
    deletion; with none due, no deletion may occur. [None]: the rule was
    broken. *)
Fixpoint track (tid : ThreadId) (due : option Task) (acts : list event)
  : option (option Task) :=
  match acts with
  | [] => Some due
  | e :: rest =>
      match due with
      | Some t => if decide (e = EvDelete tid t) then track tid None rest else None
      | None =>
          match e with
          | EvInvoke _ t =>
              track tid (match group t with None => Some t | Some _ => None end) rest
          | EvDelete _ _ => None
          | _ => track tid None rest
          end
      end
  end.

Definition is_destroy (a : action Q) : bool :=
  match a with
  | DestroyStore _ | DestroyNotify | DestroyFinish => true
  | _ => false
  end.

(** The pool is neither shrinking nor stopping: its state is neither
    [PARTIAL] nor [STOPPED], no acknowledgement is waiting, and no worker has
    read [PARTIAL] and is about to look for a token. *)
Definition steady sys : Prop :=
  m_pool_state (sys_pool sys) ≠ PARTIAL
  /\ m_pool_state (sys_pool sys) ≠ STOPPED
  /\ m_stop_threads (sys_pool sys) = []
  /\ forall tid wk site,
       threads sys !! tid = Some wk -> pc wk ≠ at_leave_partial site.

End Vocabulary.

(** ** States and schedules used as examples *)

(** Another assignment of the state codes, with [STARTED] as the numeric
    zero: under it the wait predicate does not hold by the state alone while
    the pool is started, and an idle worker blocks. *)
Definition started_is_zero : StateCodes :=
  {| STARTED := 0; PARTIAL := 1; STOPPED := 2; NONINIT := 3 |}.

(** The process right after [ThreadPool(0, ...)] was constructed by thread 0
    in a process with an empty registry, under the state codes of the spec. *)
Definition never_started : Process :=
  mkProcess {[ 0 := 0%Z ]} (@fresh_pool spec_codes) [].

(** The process after a pool of three workers was destroyed by thread 0. *)
Definition destroyed_once : Process :=
  mkProcess {[ 0 := 0%Z ]} (mkPool false 3 3 0 [] [] [] [] [])
    [EvNotifyAll; EvNotifyAll; EvJoin 1; EvJoin 2; EvJoin 3].

(** A process whose two vectors disagree: one worker identity, no join flag. *)
Definition mismatched : Process :=
  mkProcess {[ 0 := 0%Z ]} (mkPool true 1 1 1 [] [] [5] [] [5]) [].

(** A pool of three workers in state [PARTIAL] (code 2 of the spec) in which
    worker 2 has acknowledged a stop request. *)
Definition one_acknowledged : Process :=
  mkProcess {[ 0 := 0%Z ]}
    (mkPool true 3 2 0 [false; false; false] [] [1; 2; 3] [2] [1; 2; 3]) [].

(** The process right after [ThreadPool(3, ...)] was constructed by thread 0
    and the three threads 1, 2, 3 were created. *)
Definition three_started : Process :=
  mkProcess {[ 0 := 0%Z ]}
    (mkPool true 3 1 0 [false; false; false] [] [1; 2; 3] [] [1; 2; 3])
    [EvSpawn 1 1; EvSpawn 2 2; EvSpawn 3 3].

(** Worker 2 of a three-worker pool in state [PARTIAL], about to evaluate
    [leave_pool()] at the top of its wait loop; the queue is empty and the
    mutex is free. *)
Definition worker_about_to_check : System (list Task) :=
  mkSystem
    (mkShared
       (mkProcess {[ 0 := 0%Z ]}
          (mkPool true 3 2 3 [false; false; false] [] [1; 2; 3] [] [1; 2; 3]) [])
       None [])
    {[ 2 := mkWorker (at_leave InWaitLoop) false false ]}.

Definition token_posted : Shared (list Task) :=
  mkShared
    (mkProcess {[ 0 := 0%Z ]}
       (mkPool true 3 2 3 [false; false; false] [true] [1; 2; 3] [] [1; 2; 3])
       [EvNotifyOne])
    None [].

(** A started pool (state code 0) with an empty queue; worker 2 holds the
    mutex. *)
Definition idle_pool : Shared (list Task) :=
  mkShared
    (mkProcess {[ 0 := 0%Z ]}
       (mkPool true 3 0 2 [false; false; false] [] [1; 2; 3] [] [1; 2; 3]) [])
    (Some 2) [].

(** Two tasks, the first without a group, the second in group 7. *)
Definition plain_task : Task := {| task_id := 1; group := None |}.
Definition grouped_task : Task := {| task_id := 2; group := Some 7 |}.

(** A started pool of two workers with both tasks queued: worker 1 is in
    its task loop, worker 2 sleeps on the condition variable. *)
Definition busy_pool : System (list Task) :=
  mkSystem
    (mkShared
       (mkProcess {[ 0 := 0%Z; 1 := 1%Z; 2 := 2%Z ]}
          (mkPool true 2 1 1 [false; false] [] [1; 2] [] [1; 2]) [])
       None [plain_task; grouped_task])
    {[ 1 := mkWorker at_drain_get false true;
       2 := mkWorker blocked false false ]}.

(** The rest of a shutdown: the broadcast, worker 2 waking up and leaving,
    worker 1 emptying the queue and leaving, and the joins. *)
Definition shutdown : list (action (list Task)) :=
  [DestroyNotify; Run 2; Run 2; Run 2]
  ++ replicate 12 (Run 1) ++ [DestroyFinish].

Definition after_shutdown : System (list Task) :=
  mkSystem
    (mkShared
       (mkProcess {[ 0 := 0%Z ]}
          (mkPool false 2 3 1 [] [] [] [] [])
          [EvNotifyAll; EvLeaveCheck 2 AfterWait 3; EvReturn 2;
           EvGetTask 1 (Some plain_task); EvInvoke 1 plain_task;
           EvDelete 1 plain_task;
           EvGetTask 1 (Some grouped_task); EvInvoke 1 grouped_task;
           EvLeaveCheck 1 InWaitLoop 3; EvReturn 1;
           EvNotifyAll; EvJoin 1; EvJoin 2])
       None [])
    {[ 1 := mkWorker returned false false;
       2 := mkWorker returned false false ]}.

(** The freshly constructed pool of three workers; worker 2 is about to
    evaluate [leave_pool()] at the top of its wait loop. *)
Definition started_system : System (list Task) :=
  mkSystem (mkShared three_started None [])
           {[ 2 := mkWorker (at_leave InWaitLoop) false false ]}.

(** ** Further members of [ThreadPool] *)

Section Members.
Context `{StateCodes}.

(** [ThreadPool::is_initialized] (lines 163-167). *)
Definition is_initialized (p : ThreadPool) : bool :=
  negb (m_pool_state p =? NONINIT)%Z.

(** How a call of the destructor ends. [ThreadPool::~ThreadPool] is defined
    (line 155) without an exception specification, and a destructor that
    does not say otherwise is [noexcept]: an exception that leaves its body
    does not reach the caller, the process ends in [std::terminate]. *)
Inductive dtor_result :=
| Returns (w : Process)                         (* the destructor returns *)
| Terminates (e : runtime_error) (w : Process)  (* std::terminate, reached in [w] *)
| Unfinished.                 (* [destroy_threadpool] has no defined result *)

(** [ThreadPool::~ThreadPool] (lines 155-159), run by thread [me]: the pool
    is destroyed only when it is alive, and what [destroy_threadpool] throws
    ends the process. *)
Definition ThreadPool_dtor (me : ThreadId) (w : Process) : dtor_result :=
  if m_alive_flag (tp w) then
    match destroy_threadpool me w with
    | Return _ w' => Returns w'
    | Throw e w' => Terminates e w'
    | Undefined | OutOfFuel => Unfinished
    end
  else Returns w.

End Members.

(** ** A worker that runs alone *)

Section Alone.
Context `{StateCodes} {Q : Type} `{VUserTaskQueue.ops Q}.

(** [n] statements of worker [tid] in a row, no other thread running in
    between; the worker stays where it is once it cannot move. *)
Fixpoint execute_thread_steps (n : nat) (tid : ThreadId) (s : Shared Q)
    (w : Worker) : Shared Q * Worker :=
  match n with
  | O => (s, w)
  | S n' =>
      match execute_thread_step tid s w with
      | Some (s', w', evs) => execute_thread_steps n' tid (append_trace evs s') w'
      | None => (s, w)
      end
  end.

End Alone.

(** ** Vocabulary of the further results *)

(** The registry after the threads [tids] have called [GetThisThreadID], one
    after the other, in a process that starts with an empty registry. *)
Definition queried (tids : list ThreadId) : thread_id_map_t :=
  foldl (fun ids tid => (GetThisThreadID tid ids).2) ∅ tids.

(** Every index is at least 0 and below the size of the registry. *)
Definition dense (ids : thread_id_map_t) : Prop :=
  forall tid i, ids !! tid = Some i -> (0 <= i < Z.of_nat (size ids))%Z.

(** No two threads have the same index. *)
Definition distinct_indices (ids : thread_id_map_t) : Prop :=
  forall t1 t2 i, ids !! t1 = Some i -> ids !! t2 = Some i -> t1 = t2.

(** The threads that [n] iterations of the spawn loop create, starting at
    index [i], in the order of their creation. *)
Definition created (spawn : nat -> option ThreadId) (i n : nat) : list ThreadId :=
  omap spawn (seq i n).

(** What the spawn loop does in its [n] iterations from index [i], one
    action per iteration: the creation of a thread with its index argument
    [this_tid + i + 1], or the failure that the loop catches. *)
Definition spawn_events (spawn : nat -> option ThreadId) (this_tid : Z)
    (i n : nat) : list event :=
  (fun k => match spawn k with
            | Some tid =>
                EvSpawn tid (to_intmax (to_uintmax (this_tid + Z.of_nat k + 1)))
            | None => EvSpawnFailed k
            end) <$> seq i n.

(** The thread and the index argument of every [new Thread] of a trace. *)
Definition spawn_requests (tr : list event) : list (ThreadId * Z) :=
  omap (fun e => match e with
                 | EvSpawn tid idx => Some (tid, idx)
                 | _ => None
                 end) tr.

(** The registry after the threads of [l] have run the registry block of
    [start_thread] (lines 78-85), each with its index argument, one after
    the other in the order of [l]. *)
Definition started (l : list (ThreadId * Z)) (ids : thread_id_map_t)
  : thread_id_map_t :=
  foldl (fun ids x => start_thread_register x.1 x.2 ids) ids l.

(** The program points at which [_task_lock] may own the mutex when the
    statement of the point begins: from the start of [m_task_cond.wait]
    (line 577) to the unlock of lines 584-585. *)
Definition may_hold (l : label) : bool :=
  match l with
  | at_wait | at_leave AfterWait | at_leave_partial AfterWait | at_unlock => true
  | _ => false
  end.

(** The program points between a store of [true] and the next store of
    [false] to [within_task] (lines 502-510 and 606-623). *)
Definition in_task (l : label) : bool :=
  match l with
  | at_call _ _ | at_dispose _ _ | at_dummy_done
  | at_drain_test | at_drain_get | at_guard_off => true
  | _ => false
  end.

(** The worker has not run the first statement of [start_thread] yet. *)
Definition is_start (l : label) : bool :=
  match l with at_start _ => true | _ => false end.

(** How many times a worker returned from [execute_thread] in a trace. *)
Fixpoint returns (tr : list event) : nat :=
  match tr with
  | [] => 0
  | EvReturn _ :: tr' => S (returns tr')
  | _ :: tr' => returns tr'
  end.

Section Discipline.
Context {Q : Type}.

(** The owner of [m_task_lock] and the [owns_lock()] of the workers'
    [_task_lock] objects agree: a worker whose lock object owns the mutex
    is the owner and is at a point of [may_hold], a worker that starts
    [m_task_cond.wait] owns it, and the owner is a worker whose lock object
    says so. *)
Definition well_locked (sys : System Q) : Prop :=
  (forall tid wk, threads sys !! tid = Some wk ->
     (owns_lock wk = true ->
      m_task_lock (shared sys) = Some tid /\ may_hold (pc wk) = true)
     /\ (pc wk = at_wait -> owns_lock wk = true))
  /\ (forall tid, m_task_lock (shared sys) = Some tid ->
        exists wk, threads sys !! tid = Some wk /\ owns_lock wk = true).

(** Every worker that has constructed its [ThreadData] has [within_task]
    set exactly at the points of [in_task]. *)
Definition well_guarded (sys : System Q) : Prop :=
  forall tid wk, threads sys !! tid = Some wk ->
    is_start (pc wk) = false -> within_task wk = in_task (pc wk).

(** The action is the token post of a [stop_thread] call (lines 444-447). *)
Definition is_post (a : action Q) : bool :=
  match a with StopPost => true | _ => false end.

(** The action is the [STOPPED] store of [destroy_threadpool] (line 368). *)
Definition is_store (a : action Q) : bool :=
  match a with DestroyStore _ => true | _ => false end.

End Discipline.

(** ** Further states and queues used as examples *)

(** The pool of [one_acknowledged] after its three workers have entered
    themselves in the registry. *)
Definition all_registered : Process :=
  with_ids {[ 0 := 0%Z; 1 := 1%Z; 2 := 2%Z; 3 := 3%Z ]} one_acknowledged.

(** The pool of [three_started] with an acknowledgement of thread 9, which
    is not one of its workers. *)
Definition stale_acknowledgement : Process :=
  on_tp (set_stop_threads [9]) three_started.

(** A queue of two bins, the bin of the calling thread and the bin of the
    others, for examples: [empty()] and [GetTask()] look at the caller's bin,
    [true_size()] counts the tasks of both. *)
Definition binned_queue : VUserTaskQueue.ops (list Task * list Task) := {|
  VUserTaskQueue.empty q := match q.1 with [] => true | _ :: _ => false end;
  VUserTaskQueue.true_size q := length q.1 + length q.2;
  VUserTaskQueue.GetTask q :=
    match q.1 with
    | [] => (None, q)
    | t :: q' => (Some t, (q', q.2))
    end
|}.

(** A started pool of one worker, at the test of its wait loop, whose own
    bin is empty while the other bin holds a task. *)
Definition other_bin_busy : System (list Task * list Task) :=
  mkSystem
    (mkShared
       (mkProcess {[ 0 := 0%Z; 1 := 1%Z ]}
          (mkPool true 1 1 1 [false] [] [1] [] [1]) [])
       None ([], [plain_task]))
    {[ 1 := mkWorker at_wait_test false false ]}.

(** A stopped pool whose queue still holds two tasks, and a worker that
    has not run its first statement yet. *)
Definition late_worker : System (list Task) :=
  mkSystem
    (mkShared
       (mkProcess {[ 0 := 0%Z ]}
          (mkPool true 1 3 0 [false] [] [1] [] [1]) [EvSpawn 1 1; EvNotifyAll])
       None [plain_task; grouped_task])
    {[ 1 := mkWorker (at_start 1) false false ]}.

(** The process right after [ThreadPool(3, ...)] was constructed by thread 0
    (the process of [three_started]): the three workers exist and none of
    them has run a statement yet; the queue is empty. *)
Definition just_constructed : System (list Task) :=
  mkSystem (mkShared three_started None [])
           {[ 1 := mkWorker (at_start 1) false false;
              2 := mkWorker (at_start 2) false false;
              3 := mkWorker (at_start 3) false false ]}.

(** ** Case analysis of a worker step *)

(** Splits a hypothesis [execute_thread_step tid s wk = Some _] into one case per program
    point and branch taken, with the branch conditions as hypotheses. *)
Ltac step_inv Hstep :=
  unfold execute_thread_step, do_return in Hstep;
  repeat match type of Hstep with
         | context [match ?x with _ => _ end] => destruct x eqn:?
         end;
  simplify_eq.

(** Closes goals about the program points before and after a step. *)
Ltac pc_crush :=
  repeat split; intros; cbn in *; simplify_eq;
  repeat match goal with
         | b : block |- _ => destruct b
         | st : site |- _ => destruct st
         end;
  cbn in *; simplify_eq; auto.

(** Closes a goal about the elements of a list that is written out. *)
Ltac list_facts :=
  cbn;
  rewrite ?NoDup_cons, ?not_elem_of_cons, ?elem_of_cons;
  repeat split; auto using NoDup_nil_2, not_elem_of_nil; try discriminate.

(** * Results *)

(** ** The thread registry *)

Lemma GetThisThreadID_absent (tid : ThreadId) (ids : thread_id_map_t) :
  ids !! tid = None ->
  GetThisThreadID tid ids
  = (Z.of_nat (size ids), <[tid := Z.of_nat (size ids)]> ids).
Proof.
  intros Habs. unfold GetThisThreadID, ids_at. rewrite Habs. cbn zeta.
  by rewrite lookup_insert_eq.
Qed.

Lemma GetThisThreadID_present (tid : ThreadId) (ids : thread_id_map_t) (i : Z) :
  ids !! tid = Some i -> GetThisThreadID tid ids = (i, ids).
Proof.
  intros Hin. unfold GetThisThreadID, ids_at. by rewrite Hin; cbn; rewrite Hin.
Qed.

Lemma intmax_roundtrip (z : Z) :
  (0 <= z < 2 ^ 63)%Z -> to_uintmax (to_intmax z) = z.
Proof.
  intros Hz. unfold to_uintmax, to_intmax.
  rewrite (Z.mod_small (z + 2 ^ 63)) by lia.
  rewrite Z.mod_small; lia.
Qed.

(** C9. A thread that queries the registry while absent gets the current size
    of the map as its index and is inserted with it; the very first query (on
    the empty registry) therefore yields index 0; and a worker that enters
    [start_thread] with a negative index hint is registered under the current
    size of the map as well. *)
Theorem registry_assigns_current_size
    (tid : ThreadId) (ids : thread_id_map_t)
    (worker : ThreadId) (_idx : Z) (ids' : thread_id_map_t)
    (Habsent : ids !! tid = None)
    (Hhint : (_idx < 0)%Z)
    (Hsize : (Z.of_nat (size ids') < 2 ^ 63)%Z) :
  GetThisThreadID tid ids
    = (Z.of_nat (size ids), <[tid := Z.of_nat (size ids)]> ids)
  /\ GetThisThreadID tid ∅ = (0%Z, {[tid := 0%Z]})
  /\ start_thread_register worker _idx ids'
    = <[worker := Z.of_nat (size ids')]> ids'.
Proof.
  split; [by apply GetThisThreadID_absent|]. split.
  - rewrite GetThisThreadID_absent by apply lookup_empty.
    by rewrite map_size_empty, insert_empty.
  - unfold start_thread_register.
    destruct (Z.ltb_spec _idx 0) as [_|]; [|lia].
    rewrite intmax_roundtrip by lia. done.
Qed.

Lemma registry_assigns_current_size_witness :
  let ids : thread_id_map_t := {[ 7 := 0%Z ]} in
  GetThisThreadID 9 ids = (1%Z, <[9 := 1%Z]> ids)
  /\ GetThisThreadID 9 ∅ = (0%Z, {[9 := 0%Z]})
  /\ start_thread_register 11 (-1) ids = <[11 := 1%Z]> ids.
Proof.
  intros ids.
  apply (registry_assigns_current_size 9 ids 11 (-1) ids).
  - reflexivity.
  - reflexivity.
  - reflexivity.
Defined.

(** ** [destroy_threadpool] on a pool that is not alive *)

Section MasterResults.
Context `{StateCodes}.

Lemma set_pool_state_same (p : ThreadPool) :
  set_pool_state (m_pool_state p) p = p.
Proof. by destruct p. Qed.

Lemma destroy_when_dead (me : ThreadId) (w : Process) :
  m_alive_flag (tp w) = false ->
  destroy_threadpool me w
  = Return 0 (mkProcess (GetThisThreadID me (f_thread_ids w)).2
                        (set_pool_state STOPPED (tp w))
                        (trace w ++ [EvNotifyAll])).
Proof.
  intros Hdead.
  unfold destroy_threadpool, destroy_store, destroy_notify, destroy_finish.
  destruct (GetThisThreadID me (f_thread_ids w)) as [nid ids]. cbn.
  by rewrite Hdead.
Qed.

(** C8, as the code has it. On a pool that is not alive [destroy_threadpool]
    returns 0 and joins or clears nothing: every member of the pool keeps its
    value except [m_pool_state], which is set to [STOPPED] before the alive
    flag is looked at; the condition variable is broadcast once, and the
    caller is entered in the registry if it was absent. When the state was
    already [STOPPED] the pool object is left exactly as it was. *)
Theorem destroy_not_alive (me : ThreadId) (w : Process)
    (Hdead : m_alive_flag (tp w) = false) :
  destroy_threadpool me w
    = Return 0 (mkProcess (GetThisThreadID me (f_thread_ids w)).2
                          (set_pool_state STOPPED (tp w))
                          (trace w ++ [EvNotifyAll]))
  /\ (m_pool_state (tp w) = STOPPED -> set_pool_state STOPPED (tp w) = tp w).
Proof.
  split.
  - by apply destroy_when_dead.
  - intros <-. apply set_pool_state_same.
Qed.

End MasterResults.

Lemma destroy_not_alive_witness :
  @destroy_threadpool spec_codes 0 destroyed_once
    = Return 0 (mkProcess {[ 0 := 0%Z ]} (tp destroyed_once)
                          (trace destroyed_once ++ [EvNotifyAll]))
  /\ @destroy_threadpool spec_codes 0 never_started
    = Return 0 (mkProcess {[ 0 := 0%Z ]}
                          (set_pool_state 3 (@fresh_pool spec_codes))
                          [EvNotifyAll]).
Proof.
  destruct (@destroy_not_alive spec_codes 0 destroyed_once eq_refl)
    as [Hagain Hsame].
  split.
  - rewrite Hagain, (Hsame eq_refl). reflexivity.
  - exact (proj1 (@destroy_not_alive spec_codes 0 never_started eq_refl)).
Defined.

(** C8 as stated fails: a pool constructed with size 0 is not alive and in
    state [NONINIT]; [destroy_threadpool] returns 0 but leaves it in state
    [STOPPED]. *)
Lemma fresh_pool_is_stopped_by_destroy :
  @ThreadPool_ctor spec_codes 0 (fun _ => None) 0 0 ∅ = Return 0 never_started
  /\ m_alive_flag (tp never_started) = false
  /\ m_pool_state (tp never_started) = @NONINIT spec_codes
  /\ ~ (exists w', @destroy_threadpool spec_codes 0 never_started = Return 0 w'
                   /\ tp w' = tp never_started).
Proof.
  split; [reflexivity|]. split; [reflexivity|]. split; [reflexivity|].
  intros (w' & Hret & Htp).
  assert (Hst : m_pool_state (tp w') = 3%Z).
  { vm_compute in Hret. by inversion Hret. }
  rewrite Htp in Hst. discriminate Hst.
Qed.

(** ** The size check of [initialize_threadpool] and [destroy_threadpool] *)

Section SizeCheck.
Context `{StateCodes}.

Lemma stop_thread_no_throw (w : Process) : ~ raises (stop_thread w).
Proof.
  unfold stop_thread, stop_thread_drain.
  repeat case_match; cbn; tauto.
Qed.

Lemma shrink_no_throw (fuel n : nat) (w : Process) : ~ raises (shrink fuel n w).
Proof.
  revert w. induction fuel as [|fuel IH]; intros w; cbn; [tauto|].
  pose proof (stop_thread_no_throw w) as Hs.
  destruct (stop_thread w) as [k w'| | |]; cbn in *; try tauto.
  case_match; [apply IH | cbn; tauto].
Qed.

Lemma spawn_loop_sizes (spawn : nat -> option ThreadId) (this_tid : Z)
    (n i : nat) (w : Process) :
  exists k,
    length (m_is_joined (tp (spawn_loop spawn this_tid n i w)))
      = length (m_is_joined (tp w)) + k
    /\ length (m_main_threads (tp (spawn_loop spawn this_tid n i w)))
      = length (m_main_threads (tp w)) + k.
Proof.
  revert i w. induction n as [|n IH]; intros i w; cbn.
  - exists 0. lia.
  - destruct (spawn i) as [tid|].
    + destruct (IH (S i) (on_tp (spawned tid) (emit [EvSpawn tid
               (to_intmax (to_uintmax (this_tid + Z.of_nat i + 1)))] w)))
        as (k & Hj & Hm).
      exists (S k). rewrite Hj, Hm. cbn. rewrite !length_app. cbn. lia.
    + destruct (IH (S i) (emit [EvSpawnFailed i] w)) as (k & Hj & Hm).
      exists k. by rewrite Hj, Hm.
Qed.

Lemma initialize_enter_sizes (n : nat) (w w2 : Process) :
  initialize_enter n w = Some w2 -> sizes_differ w2 <-> sizes_differ w.
Proof.
  unfold initialize_enter, sizes_differ. intros Hent.
  repeat case_match; simplify_eq; cbn; reflexivity.
Qed.

Lemma initialize_spawn_sizes (me : ThreadId) (spawn : nat -> option ThreadId)
    (n : nat) (w : Process) :
  sizes_differ (initialize_spawn me spawn n w) <-> sizes_differ w.
Proof.
  unfold initialize_spawn, sizes_differ.
  destruct (GetThisThreadID me (f_thread_ids w)) as [this_tid ids].
  destruct (spawn_loop_sizes spawn this_tid (n - m_pool_size (tp w))
              (m_pool_size (tp w)) (with_ids ids w)) as (k & -> & ->).
  cbn. lia.
Qed.

Lemma initialize_check_raises (w : Process) :
  (sizes_differ w ->
   initialize_check w
   = Throw (SizeMismatch In_initialize_threadpool
              (length (m_is_joined (tp w))) (length (m_main_threads (tp w)))) w)
  /\ (~ sizes_differ w ->
      initialize_check w = Return (length (m_main_threads (tp w))) w).
Proof.
  unfold initialize_check, sizes_differ.
  split; intros Hd; case_bool_decide; done.
Qed.

Lemma initialize_reaching (me : ThreadId) (spawn : nat -> option ThreadId)
    (fuel n : nat) (w : Process) :
  reaches_spawn_loop n w = true ->
  initialize_threadpool me spawn fuel n w
  = initialize_check (at_initialize_check me spawn n w).
Proof.
  unfold reaches_spawn_loop, at_initialize_check, initialize_threadpool.
  destruct (initialize_enter n w) as [w2|]; [|done].
  intros Hr. apply negb_true_iff in Hr. cbv zeta.
  destruct (m_pool_state (tp w2) =? STARTED)%Z;
    rewrite ?andb_true_l, ?andb_false_l in *; [|reflexivity].
  apply Nat.leb_gt in Hr.
  destruct (Nat.ltb_spec n (m_pool_size (tp w2))); [lia|].
  destruct (Nat.eqb_spec (m_pool_size (tp w2)) n); [lia|]. reflexivity.
Qed.

Lemma initialize_not_reaching (me : ThreadId) (spawn : nat -> option ThreadId)
    (fuel n : nat) (w : Process) :
  reaches_spawn_loop n w = false ->
  ~ raises (initialize_threadpool me spawn fuel n w).
Proof.
  unfold reaches_spawn_loop, initialize_threadpool.
  destruct (initialize_enter n w) as [w2|]; [|cbn; tauto].
  intros Hr. apply negb_false_iff, andb_true_iff in Hr as [-> Hle].
  apply Nat.leb_le in Hle. cbv zeta. rewrite !andb_true_l.
  destruct (Nat.ltb_spec n (m_pool_size (tp w2))); [apply shrink_no_throw|].
  destruct (Nat.eqb_spec (m_pool_size (tp w2)) n); [cbn; tauto|lia].
Qed.

Lemma destroy_alive (me : ThreadId) (w : Process) :
  m_alive_flag (tp w) = true ->
  let w1 := destroy_notify (destroy_store me w) in
  (sizes_differ w <-> sizes_differ w1)
  /\ (sizes_differ w ->
      destroy_threadpool me w
      = Throw (SizeMismatch In_destroy_threadpool
                 (length (m_is_joined (tp w))) (length (m_main_threads (tp w)))) w1)
  /\ (~ sizes_differ w -> exists w', destroy_threadpool me w = Return 0 w').
Proof.
  intros Halive. unfold destroy_threadpool, destroy_finish, destroy_notify,
    destroy_store, sizes_differ.
  destruct (GetThisThreadID me (f_thread_ids w)) as [nid ids]. cbn.
  rewrite Halive. cbn.
  split; [done|]. split; intros Hd; case_bool_decide; try done. eauto.
Qed.

(** C7. A call of [initialize_threadpool] that runs its spawn loop throws
    exactly when [m_is_joined] and [m_main_threads] have different sizes at
    the check that follows the loop, and a call of [destroy_threadpool] on an
    alive pool throws exactly when they differ at its validation step. Both
    throw a [std::runtime_error] that reports the two sizes. When the sizes
    agree, neither operation throws, on any path. *)
Theorem size_mismatch_is_fatal
    (me : ThreadId) (spawn : nat -> option ThreadId) (fuel n : nat)
    (w wd : Process)
    (Hreach : reaches_spawn_loop n w = true)
    (Halive : m_alive_flag (tp wd) = true) :
  let wi := at_initialize_check me spawn n w in
  let wv := destroy_notify (destroy_store me wd) in
  (raises (initialize_threadpool me spawn fuel n w) <-> sizes_differ wi)
  /\ (sizes_differ wi ->
      initialize_threadpool me spawn fuel n w
      = Throw (SizeMismatch In_initialize_threadpool
                 (length (m_is_joined (tp wi))) (length (m_main_threads (tp wi)))) wi)
  /\ (raises (destroy_threadpool me wd) <-> sizes_differ wv)
  /\ (sizes_differ wv ->
      destroy_threadpool me wd
      = Throw (SizeMismatch In_destroy_threadpool
                 (length (m_is_joined (tp wv))) (length (m_main_threads (tp wv)))) wv)
  /\ (forall fuel' n' w0, ~ sizes_differ w0 ->
        ~ raises (initialize_threadpool me spawn fuel' n' w0))
  /\ (forall w0, ~ sizes_differ w0 -> ~ raises (destroy_threadpool me w0)).
Proof.
  intros wi wv.
  pose proof (initialize_reaching me spawn fuel n w Hreach) as Hinit.
  fold wi in Hinit.
  destruct (initialize_check_raises wi) as [Hthrow Hret].
  destruct (destroy_alive me wd Halive) as (Hsame & Hdthrow & Hdret).
  fold wv in Hsame, Hdthrow.
  assert (Hdec : forall w0, Decision (sizes_differ w0)).
  { intros w0. unfold sizes_differ. apply _. }
  split; [|split; [|split; [|split; [|split]]]].
  - rewrite Hinit. split.
    + intros Hr. destruct (Hdec wi) as [|Hn]; [done|].
      rewrite (Hret Hn) in Hr. destruct Hr.
    + intros Hd. by rewrite (Hthrow Hd).
  - intros Hd. by rewrite Hinit, (Hthrow Hd).
  - rewrite <- Hsame. split.
    + intros Hr. destruct (Hdec wd) as [|Hn]; [done|].
      destruct (Hdret Hn) as [w' Hw']. rewrite Hw' in Hr. destruct Hr.
    + intros Hd. by rewrite (Hdthrow Hd).
  - intros Hd. apply Hsame in Hd. by rewrite (Hdthrow Hd).
  - intros fuel' n' w0 Hsame0.
    destruct (reaches_spawn_loop n' w0) eqn:Hr0;
      [|by apply initialize_not_reaching].
    rewrite (initialize_reaching me spawn fuel' n' w0 Hr0).
    destruct (initialize_check_raises (at_initialize_check me spawn n' w0))
      as [_ Hret0].
    rewrite Hret0; [cbn; tauto|].
    unfold at_initialize_check. unfold reaches_spawn_loop in Hr0.
    destruct (initialize_enter n' w0) as [w2|] eqn:Hent; [|done].
    rewrite initialize_spawn_sizes. by rewrite (initialize_enter_sizes n' w0 w2).
  - intros w0 Hsame0. destruct (m_alive_flag (tp w0)) eqn:Hal.
    + destruct (destroy_alive me w0 Hal) as (_ & _ & Hr).
      destruct (Hr Hsame0) as [w' ->]. cbn. tauto.
    + rewrite (destroy_when_dead me w0 Hal). cbn. tauto.
Qed.

End SizeCheck.

Lemma size_mismatch_is_fatal_witness :
  @initialize_threadpool spec_codes 0 (fun i => Some (10 + i)) 0 2 never_started
    = Return 2
        (mkProcess {[ 0 := 0%Z ]}
           (mkPool true 2 1 0 [false; false] [] [10; 11] [] [10; 11])
           [EvSpawn 10 1; EvSpawn 11 2])
  /\ @destroy_threadpool spec_codes 0 mismatched
    = Throw (SizeMismatch In_destroy_threadpool 0 1)
        (mkProcess {[ 0 := 0%Z ]} (mkPool true 1 3 1 [] [] [5] [] [5])
                   [EvNotifyAll]).
Proof.
  destruct (@size_mismatch_is_fatal spec_codes 0 (fun i => Some (10 + i)) 0 2
              never_started mismatched eq_refl eq_refl)
    as (_ & _ & _ & Hd & _ & _).
  split; [reflexivity|].
  apply Hd. unfold sizes_differ. cbn. lia.
Defined.

(** ** [stop_thread]: the drain *)

Lemma removelast_take {A} (l : list A) : removelast l = take (length l - 1) l.
Proof.
  induction l as [|x l IH]; [done|].
  destruct l as [|y l]; [done|].
  change (removelast (x :: y :: l)) with (x :: removelast (y :: l)).
  rewrite IH. cbn. by rewrite Nat.sub_0_r.
Qed.

Lemma drain_stop_threads_spec (acks main : list ThreadId) (joined : list bool) :
  drain_stop_threads acks main joined
  = if decide (length acks <= length joined)
    then Some (erase_all acks main, take (length joined - length acks) joined)
    else None.
Proof.
  revert main joined. induction acks as [|tid acks IH]; intros main joined; cbn.
  - rewrite decide_True by lia. by rewrite Nat.sub_0_r, take_ge.
  - destruct joined as [|b joined]; cbn [pop_back].
    + rewrite decide_False by (cbn; lia). done.
    + rewrite IH, removelast_take, length_take. cbn [length].
      case_decide; case_decide; try lia; [|done].
      unfold erase_all. cbn [foldl]. do 2 f_equal.
      rewrite take_take. f_equal. lia.
Qed.

Lemma erase_first_length_in (tid : ThreadId) (l : list ThreadId) :
  tid ∈ l -> S (length (erase_first tid l)) = length l.
Proof.
  induction l as [|x l IH]; intros Hin; [by apply elem_of_nil in Hin|].
  cbn. case_decide; [done|]. cbn. f_equal. apply IH.
  apply elem_of_cons in Hin as [->|]; done.
Qed.

Lemma erase_first_length_notin (tid : ThreadId) (l : list ThreadId) :
  tid ∉ l -> erase_first tid l = l.
Proof.
  induction l as [|x l IH]; intros Hnin; [done|].
  apply not_elem_of_cons in Hnin as [Hne Hnin].
  cbn. rewrite decide_False by done. by rewrite IH.
Qed.

Lemma erase_first_length_le (tid : ThreadId) (l : list ThreadId) :
  length (erase_first tid l) <= length l
  /\ length l <= S (length (erase_first tid l)).
Proof.
  destruct (decide (tid ∈ l)) as [Hin|Hnin].
  - pose proof (erase_first_length_in tid l Hin). lia.
  - rewrite erase_first_length_notin by done. lia.
Qed.

Lemma erase_first_other (tid x : ThreadId) (l : list ThreadId) :
  x ≠ tid -> x ∈ l -> x ∈ erase_first tid l.
Proof.
  intros Hne. induction l as [|y l IH]; intros Hin; [done|].
  cbn. apply elem_of_cons in Hin as [->|Hin].
  - rewrite decide_False by done. apply elem_of_cons. by left.
  - case_decide; [done|]. apply elem_of_cons. right. by apply IH.
Qed.

Lemma erase_all_length_bounds (acks main : list ThreadId) :
  length (erase_all acks main) <= length main
  /\ length main <= length (erase_all acks main) + length acks.
Proof.
  revert main. induction acks as [|tid acks IH]; intros main; cbn; [lia|].
  pose proof (erase_first_length_le tid main).
  destruct (IH (erase_first tid main)). unfold erase_all in *. lia.
Qed.

Lemma erase_all_length_exact (acks main : list ThreadId) :
  NoDup acks -> acks ⊆ main ->
  length (erase_all acks main) + length acks = length main.
Proof.
  revert main. induction acks as [|tid acks IH]; intros main Hnd Hsub; cbn; [lia|].
  apply NoDup_cons in Hnd as [Hnin Hnd].
  assert (Hin : tid ∈ main) by (apply Hsub, elem_of_cons; by left).
  pose proof (erase_first_length_in tid main Hin).
  assert (Hrest : acks ⊆ erase_first tid main).
  { intros x Hx. apply erase_first_other.
    - intros ->. done.
    - apply Hsub, elem_of_cons. by right. }
  pose proof (IH (erase_first tid main) Hnd Hrest).
  unfold erase_all in *. lia.
Qed.

Section StopThread.
Context `{StateCodes}.

Lemma stop_thread_drain_spec (w : Process) :
  stop_thread_drain w
  = if decide (length (m_stop_threads (tp w)) <= length (m_is_joined (tp w)))
    then Return (length (erase_all (m_stop_threads (tp w)) (m_main_threads (tp w))))
                (with_tp (drained (tp w)) w)
    else Undefined.
Proof.
  unfold stop_thread_drain. rewrite drain_stop_threads_spec.
  by case_decide.
Qed.

Lemma stop_thread_idle (w : Process) :
  m_alive_flag (tp w) = false \/ m_pool_size (tp w) = 0 ->
  stop_thread w = Return 0 w.
Proof.
  unfold stop_thread. intros [->| ->]; [done|].
  by rewrite orb_true_r.
Qed.

Lemma stop_thread_active (w : Process) :
  m_alive_flag (tp w) = true -> m_pool_size (tp w) ≠ 0 ->
  stop_thread w = stop_thread_drain (stop_thread_post w).
Proof.
  unfold stop_thread. intros -> Hn.
  by destruct (Nat.eqb_spec (m_pool_size (tp w)) 0).
Qed.

Lemma stop_thread_pool_state (w : Process) (n : nat) (w' : Process) :
  stop_thread w = Return n w' -> m_pool_state (tp w') = m_pool_state (tp w).
Proof.
  unfold stop_thread. case_match.
  - by intros [= _ <-].
  - rewrite stop_thread_drain_spec. case_decide; [|done].
    by intros [= _ <-].
Qed.

End StopThread.

(** ** [stop_thread] called [k] times *)

Section StopThreadTimes.
Context `{StateCodes}.

Lemma stop_thread_times_no_acks (k : nat) (w : Process) :
  m_stop_threads (tp w) = [] ->
  m_pool_size (tp w) = length (m_main_threads (tp w)) ->
  exists w', stop_thread_times k w = Some w'
             /\ m_pool_size (tp w') = m_pool_size (tp w)
             /\ m_main_threads (tp w') = m_main_threads (tp w)
             /\ m_is_joined (tp w') = m_is_joined (tp w)
             /\ m_stop_threads (tp w') = [].
Proof.
  revert w. induction k as [|k IH]; intros w Hacks Hsize; cbn.
  { by exists w. }
  unfold stop_thread.
  destruct (negb (m_alive_flag (tp w)) || (m_pool_size (tp w) =? 0)).
  - destruct (IH w Hacks Hsize) as (w' & ? & ? & ? & ? & ?). by exists w'.
  - rewrite stop_thread_drain_spec. cbn. rewrite Hacks. cbn.
    rewrite decide_True by lia.
    edestruct (IH (with_tp (drained (tp (stop_thread_post w)))
                           (stop_thread_post w)))
      as (w' & Hrun & Hps & Hmain & Hj & Hno).
    + cbn. done.
    + cbn. by rewrite Hacks.
    + exists w'. split; [exact Hrun|].
      rewrite Hps, Hmain, Hj. cbn. rewrite Hacks. cbn.
      by rewrite Nat.sub_0_r, take_ge.
Qed.

(** The drain alone: [k >= 1] calls of [stop_thread] in a row on an alive
    pool, no worker running in between, decrease [m_pool_size] by exactly the
    number of acknowledgements that were waiting in [m_stop_threads] at the
    first call (distinct identities of current workers), whatever [k] is;
    afterwards [m_pool_size] is the size of [m_main_threads]. *)
Theorem stop_thread_times_decrease (k : nat) (w : Process)
    (Hk : 1 <= k)
    (Halive : m_alive_flag (tp w) = true)
    (Hsize : m_pool_size (tp w) = length (m_main_threads (tp w)))
    (Hpos : m_pool_size (tp w) ≠ 0)
    (Hnd : NoDup (m_stop_threads (tp w)))
    (Hsub : m_stop_threads (tp w) ⊆ m_main_threads (tp w))
    (Hjoined : length (m_stop_threads (tp w)) <= length (m_is_joined (tp w))) :
  exists w', stop_thread_times k w = Some w'
    /\ m_pool_size (tp w') + length (m_stop_threads (tp w)) = m_pool_size (tp w)
    /\ m_pool_size (tp w') = length (m_main_threads (tp w'))
    /\ m_stop_threads (tp w') = [].
Proof.
  destruct k as [|k]; [lia|]. cbn [stop_thread_times].
  rewrite (stop_thread_active w Halive Hpos), stop_thread_drain_spec.
  cbn. rewrite decide_True by done.
  set (w1 := with_tp (drained (tp (stop_thread_post w))) (stop_thread_post w)).
  destruct (stop_thread_times_no_acks k w1) as (w' & Hrun & Hps & Hmain & _ & Hno);
    [done|done|].
  exists w'. split; [exact Hrun|]. rewrite Hps, Hmain. cbn.
  pose proof (erase_all_length_exact _ _ Hnd Hsub) as Hlen.
  unfold erase_all in Hlen. split; [lia|]. by split.
Qed.

End StopThreadTimes.

Lemma stop_thread_times_decrease_witness :
  exists w', stop_thread_times 4 one_acknowledged = Some w'
    /\ m_pool_size (tp w') + 1 = 3
    /\ m_pool_size (tp w') = length (m_main_threads (tp w'))
    /\ m_stop_threads (tp w') = [].
Proof.
  apply (stop_thread_times_decrease 4 one_acknowledged).
  - lia.
  - reflexivity.
  - reflexivity.
  - cbn. lia.
  - cbn. apply NoDup_singleton.
  - cbn. intros x Hx. apply list_elem_of_singleton in Hx as ->.
    apply elem_of_cons. right. apply elem_of_cons. by left.
  - cbn. lia.
Defined.

(** ** What [stop_thread] and [destroy_threadpool] do with acknowledgements *)

Section Acknowledgements.
Context `{StateCodes}.



End Acknowledgements.



(** ** The worker's [leave_pool] check *)

Section LeavePool.
Context `{StateCodes} {Q : Type} `{VUserTaskQueue.ops Q}.
Implicit Types (s : Shared Q) (wk : Worker) (p : ThreadPool).

Lemma leave_verdict_stopped : (0 < STOPPED)%Z -> leave_verdict STOPPED = Leave.
Proof.
  intros Hpos. unfold leave_verdict.
  destruct (Z.ltb_spec 0 STOPPED); [|lia]. by rewrite Z.eqb_refl.
Qed.


Lemma leave_verdict_Leave (st : Z) : leave_verdict st = Leave -> st = STOPPED.
Proof.
  unfold leave_verdict. repeat case_match; try done. intros _. lia.
Qed.

Lemma leave_verdict_TryPartial (st : Z) :
  leave_verdict st = TryPartial -> st = PARTIAL.
Proof.
  unfold leave_verdict. repeat case_match; try done. intros _. lia.
Qed.

Lemma token_available_spec p :
  token_available p = true <-> exists l, m_is_stopped p = l ++ [true].
Proof.
  unfold token_available. split.
  - destruct (last (m_is_stopped p)) as [b|] eqn:Hlast; [|done].
    intros ->. apply last_Some in Hlast as [l ->]. by exists l.
  - intros [l ->]. by rewrite last_snoc.
Qed.

Lemma acknowledge_spec (tid : ThreadId) p (l : list bool) :
  m_is_stopped p = l ++ [true] ->
  acknowledge tid p
  = mkPool (m_alive_flag p) (m_pool_size p) (m_pool_state p) (m_thread_awake p)
           (m_is_joined p) l (m_main_threads p) (m_stop_threads p ++ [tid])
           (m_unique_threads p).
Proof.
  intros Hl. unfold acknowledge, set_is_stopped, set_stop_threads. cbn.
  by rewrite Hl, removelast_last.
Qed.


End LeavePool.


(** ** The wait discipline *)

Section WaitDiscipline.
Context `{StateCodes} {Q : Type} `{VUserTaskQueue.ops Q}.
Implicit Types (s : Shared Q) (wk : Worker) (p : ThreadPool).

Lemma _wake_spec (q : Q) p :
  _wake q p = true
  <-> VUserTaskQueue.empty q = false
      \/ 0 < VUserTaskQueue.true_size q
      \/ (0 < m_pool_state p)%Z.
Proof.
  unfold _wake. rewrite !orb_true_iff, negb_true_iff, Nat.ltb_lt, Z.ltb_lt.
  tauto.
Qed.

Lemma _wake_false (q : Q) p :
  _wake q p = false
  <-> VUserTaskQueue.empty q = true
      /\ VUserTaskQueue.true_size q = 0
      /\ (m_pool_state p <= 0)%Z.
Proof.
  unfold _wake. rewrite !orb_false_iff, negb_false_iff, Nat.ltb_ge, Z.ltb_ge.
  split; intros ?; destruct_and?; repeat split; try done; lia.
Qed.

Lemma step_at_wait (tid : ThreadId) s wk :
  pc wk = at_wait ->
  execute_thread_step tid s wk
  = Some (if _wake (queue s) (the_pool s)
          then (s, goto (at_leave AfterWait) wk, [])
          else (with_lock None s, mkWorker blocked false (within_task wk),
                [EvBlock tid])).
Proof.
  intros Hpc. unfold execute_thread_step. rewrite Hpc.
  by destruct (_wake (queue s) (the_pool s)).
Qed.

Lemma step_into_blocked (tid : ThreadId) s wk s' wk' (evs : list event) :
  execute_thread_step tid s wk = Some (s', wk', evs) -> pc wk' = blocked ->
  pc wk = at_wait /\ _wake (queue s) (the_pool s) = false.
Proof.
  intros Hstep. step_inv Hstep; pc_crush.
Qed.

(** C4. The wait predicate [_wake] accepts exactly when the queue is not
    empty, or its true size is positive, or the numeric pool state is
    positive. At [m_task_cond.wait] the worker blocks exactly when the
    predicate is false. The wait is entered only through the branch
    [true_size() == 0] of an iteration that began with [empty()] true (any
    other value of [true_size()] breaks out of the loop), and whenever the
    worker blocks the queue reports empty and a true size of 0. *)
Theorem wait_discipline (tid : ThreadId) s wk s' wk' (evs : list event)
    (Hstep : execute_thread_step tid s wk = Some (s', wk', evs)) :
  (forall (q : Q) p,
      _wake q p = true
      <-> VUserTaskQueue.empty q = false
          \/ 0 < VUserTaskQueue.true_size q
          \/ (0 < m_pool_state p)%Z)
  /\ (pc wk = at_wait ->
      (s', wk', evs)
      = if _wake (queue s) (the_pool s)
        then (s, goto (at_leave AfterWait) wk, [])
        else (with_lock None s, mkWorker blocked false (within_task wk),
              [EvBlock tid]))
  /\ (pc wk' = blocked ->
      pc wk = at_wait
      /\ VUserTaskQueue.empty (queue s) = true
      /\ VUserTaskQueue.true_size (queue s) = 0
      /\ (m_pool_state (the_pool s) <= 0)%Z)
  /\ (pc wk' = at_wait -> pc wk = at_lock \/ pc wk = blocked)
  /\ (pc wk' = at_lock -> pc wk = at_awake_dec)
  /\ (pc wk' = at_awake_dec ->
      pc wk = at_true_size /\ VUserTaskQueue.true_size (queue s) = 0)
  /\ (pc wk = at_true_size -> VUserTaskQueue.true_size (queue s) ≠ 0 ->
      pc wk' = at_release)
  /\ (pc wk' = at_true_size ->
      pc wk = at_leave InWaitLoop \/ pc wk = at_leave_partial InWaitLoop)
  /\ (pc wk' = at_leave InWaitLoop ->
      pc wk = at_wait_test /\ VUserTaskQueue.empty (queue s) = true).
Proof.
  split; [apply _wake_spec|]. split.
  { intros Hpc. rewrite (step_at_wait tid s wk Hpc) in Hstep. congruence. }
  split.
  { intros Hb. destruct (step_into_blocked _ _ _ _ _ _ Hstep Hb) as [Hpc Hw].
    split; [done|]. by apply _wake_false. }
  step_inv Hstep; pc_crush;
    repeat match goal with
           | Hz : (_ =? 0) = true |- _ => apply Nat.eqb_eq in Hz
           end; done.
Qed.

End WaitDiscipline.

Lemma wait_discipline_witness :
  @execute_thread_step started_is_zero _ _ 2 idle_pool (mkWorker at_wait true false)
  = Some (with_lock None idle_pool, mkWorker blocked false false, [EvBlock 2])
  /\ VUserTaskQueue.empty (queue idle_pool) = true
  /\ VUserTaskQueue.true_size (queue idle_pool) = 0.
Proof.
  assert (Hstep : @execute_thread_step started_is_zero _ _ 2 idle_pool (mkWorker at_wait true false)
                  = Some (with_lock None idle_pool, mkWorker blocked false false,
                          [EvBlock 2])) by reflexivity.
  destruct (@wait_discipline started_is_zero _ _ 2 idle_pool
              (mkWorker at_wait true false) _ _ _ Hstep)
    as (_ & _ & Hblocked & _).
  split; [exact Hstep|].
  destruct (Hblocked eq_refl) as (_ & Hempty & Hsize & _).
  split; [exact Hempty|exact Hsize].
Defined.

(** ** What a worker step can change *)

Section StepFacts.
Context `{StateCodes} {Q : Type} `{VUserTaskQueue.ops Q}.
Implicit Types (s : Shared Q) (wk : Worker) (p : ThreadPool).

Lemma step_events_by (tid : ThreadId) s wk s' wk' (evs : list event) :
  execute_thread_step tid s wk = Some (s', wk', evs) ->
  Forall (fun e => thread_of e = Some tid) evs.
Proof.
  intros Hstep. step_inv Hstep; repeat constructor.
Qed.

Lemma step_trace (tid : ThreadId) s wk s' wk' (evs : list event) :
  execute_thread_step tid s wk = Some (s', wk', evs) -> trace (proc s') = trace (proc s).
Proof.
  intros Hstep. unfold lock_if_not_owned in *.
  step_inv Hstep; unfold unlock_if_owned, lock_if_not_owned in *;
    repeat case_match; simplify_eq; done.
Qed.

Lemma step_pool_state (tid : ThreadId) s wk s' wk' (evs : list event) :
  execute_thread_step tid s wk = Some (s', wk', evs) ->
  m_pool_state (the_pool s') = m_pool_state (the_pool s).
Proof.
  intros Hstep.
  step_inv Hstep; unfold unlock_if_owned, lock_if_not_owned in *;
    repeat case_match; simplify_eq; done.
Qed.

(** Only the locked branch of [leave_pool] touches the tokens and the
    acknowledgements, and it is entered only after [PARTIAL] was read. *)
Lemma step_tokens (tid : ThreadId) s wk s' wk' (evs : list event) :
  execute_thread_step tid s wk = Some (s', wk', evs) ->
  (m_is_stopped (the_pool s') = m_is_stopped (the_pool s)
   /\ m_stop_threads (the_pool s') = m_stop_threads (the_pool s))
  \/ (exists site, pc wk = at_leave_partial site
        /\ token_available (the_pool s) = true
        /\ the_pool s' = acknowledge tid (the_pool s)
        /\ pc wk' = returned).
Proof.
  intros Hstep.
  step_inv Hstep; unfold unlock_if_owned, lock_if_not_owned in *;
    repeat case_match; simplify_eq; try (left; done).
  all: right; eexists; repeat split; done.
Qed.

Lemma step_into_leave_partial (tid : ThreadId) s wk s' wk' (evs : list event)
    (site : site) :
  execute_thread_step tid s wk = Some (s', wk', evs) -> pc wk' = at_leave_partial site ->
  pc wk = at_leave site /\ m_pool_state (the_pool s) = PARTIAL.
Proof.
  intros Hstep. step_inv Hstep; pc_crush; by apply leave_verdict_TryPartial.
Qed.

Lemma leave_pool_tokens (tid : ThreadId) (owns : bool) p :
  m_is_stopped (leave_pool tid owns p).2 ≠ m_is_stopped p ->
  m_pool_state p = PARTIAL.
Proof.
  unfold leave_pool.
  destruct (leave_verdict (m_pool_state p)) eqn:Hv; cbn; try done.
  intros _. by apply leave_verdict_TryPartial.
Qed.

(** C10. [stop_thread] never writes [m_pool_state]: neither the call as a
    whole nor its token-posting part changes it, so it never stores
    [PARTIAL]. A worker changes [m_is_stopped] only in the locked branch of
    [leave_pool], which it enters only after it read [PARTIAL] from
    [m_pool_state]. And called on a pool that is not alive, or whose
    [m_pool_size] is 0, [stop_thread] returns 0 and changes nothing. *)
Theorem stop_thread_never_stores_state
    (w : Process) (n : nat) (w' : Process)
    (tid : ThreadId) s wk s' wk' (evs : list event)
    (w0 : Process)
    (Hret : stop_thread w = Return n w')
    (Hstep : execute_thread_step tid s wk = Some (s', wk', evs))
    (Hidle : m_alive_flag (tp w0) = false \/ m_pool_size (tp w0) = 0) :
  m_pool_state (tp w') = m_pool_state (tp w)
  /\ m_pool_state (tp (stop_thread_post w)) = m_pool_state (tp w)
  /\ (forall owns p,
        m_is_stopped (leave_pool tid owns p).2 ≠ m_is_stopped p ->
        m_pool_state p = PARTIAL)
  /\ (m_is_stopped (the_pool s') ≠ m_is_stopped (the_pool s) ->
      exists site, pc wk = at_leave_partial site)
  /\ (forall site, pc wk' = at_leave_partial site ->
        pc wk = at_leave site /\ m_pool_state (the_pool s) = PARTIAL)
  /\ stop_thread w0 = Return 0 w0.
Proof.
  split; [by eapply stop_thread_pool_state|]. split; [done|].
  split; [apply leave_pool_tokens|]. split; [|split].
  - intros Hchg. destruct (step_tokens _ _ _ _ _ _ Hstep) as [[Hsame _]|Hack].
    + by rewrite Hsame in Hchg.
    + destruct Hack as (site & Hpc & _). by exists site.
  - intros site. by eapply step_into_leave_partial.
  - by apply stop_thread_idle.
Qed.

End StepFacts.

Lemma stop_thread_never_stores_state_witness :
  m_pool_state (tp three_started) = 1%Z
  /\ stop_thread three_started
     = Return 3 (mkProcess {[ 0 := 0%Z ]}
                   (mkPool true 3 1 0 [false; false; false] [true] [1; 2; 3] []
                           [1; 2; 3])
                   [EvSpawn 1 1; EvSpawn 2 2; EvSpawn 3 3; EvNotifyOne])
  /\ m_pool_state (the_pool token_posted) = @PARTIAL spec_codes
  /\ stop_thread never_started = Return 0 never_started.
Proof.
  assert (Hret : stop_thread three_started
     = Return 3 (mkProcess {[ 0 := 0%Z ]}
                   (mkPool true 3 1 0 [false; false; false] [true] [1; 2; 3] []
                           [1; 2; 3])
                   [EvSpawn 1 1; EvSpawn 2 2; EvSpawn 3 3; EvNotifyOne]))
    by reflexivity.
  assert (Hstep : @execute_thread_step spec_codes _ _ 2 token_posted
                    (mkWorker (at_leave InWaitLoop) false false)
                  = Some (token_posted,
                          mkWorker (at_leave_partial InWaitLoop) false false,
                          [EvLeaveCheck 2 InWaitLoop 2])) by reflexivity.
  destruct (@stop_thread_never_stores_state spec_codes _ _ _ _ _ _ _ _ _ _ _
              never_started Hret Hstep (or_introl eq_refl))
    as (Hstate & _ & _ & _ & Hinto & Hidle).
  split; [by rewrite <- Hstate|]. split; [exact Hret|].
  split; [exact (proj2 (Hinto InWaitLoop eq_refl))|exact Hidle].
Defined.

(** ** Runs of the whole system *)

Section Runs.
Context `{StateCodes} {Q : Type} `{VUserTaskQueue.ops Q}.
Implicit Types (s : Shared Q) (wk : Worker) (sys : System Q)
  (sched : list (action Q)).

(** The effect of one action on the trace and on the local states. *)
Lemma sys_step_inv (a : action Q) sys sys' :
  sys_step a sys = Some sys' ->
  exists evs, sys_trace sys' = sys_trace sys ++ evs
    /\ match a with
       | Run tid =>
           (sys' = sys /\ evs = [])
           \/ (exists wk s1 wk',
                 threads sys !! tid = Some wk
                 /\ execute_thread_step tid (shared sys) wk = Some (s1, wk', evs)
                 /\ sys' = mkSystem (append_trace evs s1) (<[tid := wk']> (threads sys)))
       | _ => threads sys' = threads sys
              /\ Forall (fun e => thread_of e = None) evs
       end.
Proof.
  unfold sys_step, sys_trace. destruct a as [tid|f| | |me| |]; intros Hstep.
  - destruct (threads sys !! tid) as [wk|] eqn:Hwk.
    + destruct (execute_thread_step tid (shared sys) wk) as [[[s1 wk'] evs]|] eqn:Hw.
      * simplify_eq. exists evs. split.
        -- cbn. by rewrite (step_trace _ _ _ _ _ _ Hw).
        -- right. by exists wk, s1, wk'.
      * simplify_eq. exists []. split; [by rewrite app_nil_r|by left].
    + simplify_eq. exists []. split; [by rewrite app_nil_r|by left].
  - simplify_eq. exists []. cbn. by rewrite app_nil_r.
  - repeat case_match; simplify_eq.
    + exists []. cbn. by rewrite app_nil_r.
    + exists [EvNotifyOne]. cbn. repeat split. by repeat constructor.
    + exists []. cbn. by rewrite app_nil_r.
  - destruct (mutex_free (shared sys)).
    + rewrite stop_thread_drain_spec in Hstep. case_decide; simplify_eq.
      exists []. cbn. by rewrite app_nil_r.
    + simplify_eq. exists []. cbn. by rewrite app_nil_r.
  - simplify_eq. exists []. cbn. unfold destroy_store.
    destruct (GetThisThreadID me (f_thread_ids (proc (shared sys)))).
    cbn. by rewrite app_nil_r.
  - case_match; simplify_eq.
    + exists [EvNotifyAll]. cbn. repeat split. by repeat constructor.
    + exists []. cbn. by rewrite app_nil_r.
  - destruct (all_returned sys); [|simplify_eq; exists []; cbn; by rewrite app_nil_r].
    unfold destroy_finish in Hstep.
    destruct (m_alive_flag (tp (proc (shared sys)))); cbn in Hstep.
    + case_bool_decide; simplify_eq.
      * exists []. cbn. by rewrite app_nil_r.
      * eexists. cbn. split; [reflexivity|]. split; [done|].
        constructor; [done|]. apply Forall_fmap. by apply Forall_true.
    + simplify_eq. exists []. cbn. by rewrite app_nil_r.
Qed.

(** Once [STOPPED] is stored, no action of a schedule changes the state. *)
Lemma sys_step_stopped (a : action Q) sys sys' :
  sys_step a sys = Some sys' ->
  m_pool_state (sys_pool sys) = STOPPED ->
  m_pool_state (sys_pool sys') = STOPPED.
Proof.
  unfold sys_step, sys_pool. destruct a as [tid|f| | |me| |]; intros Hstep Hst.
  - repeat case_match; simplify_eq; try done.
    cbn. unfold the_pool in *. cbn.
    match goal with Hw : execute_thread_step _ _ _ = Some _ |- _ =>
      apply step_pool_state in Hw; unfold the_pool in Hw; by rewrite Hw end.
  - by simplify_eq.
  - repeat case_match; by simplify_eq.
  - destruct (mutex_free (shared sys)); [|by simplify_eq].
    rewrite stop_thread_drain_spec in Hstep. case_decide; by simplify_eq.
  - simplify_eq. unfold the_pool, destroy_store. cbn.
    by destruct (GetThisThreadID me (f_thread_ids (proc (shared sys)))).
  - case_match; by simplify_eq.
  - destruct (all_returned sys); [|by simplify_eq].
    unfold destroy_finish in Hstep.
    destruct (m_alive_flag (tp (proc (shared sys)))); cbn in Hstep;
      [case_bool_decide|]; by simplify_eq.
Qed.

Lemma run_stopped sched sys sys' :
  run sched sys = Some sys' ->
  m_pool_state (sys_pool sys) = STOPPED ->
  m_pool_state (sys_pool sys') = STOPPED.
Proof.
  revert sys. induction sched as [|a sched IH]; intros sys Hrun Hst; cbn in Hrun.
  - by simplify_eq.
  - destruct (sys_step a sys) as [sys1|] eqn:Hstep; [|done].
    eapply IH; [done|]. by eapply sys_step_stopped.
Qed.

Lemma actions_of_app (tid : ThreadId) (l1 l2 : list event) :
  actions_of tid (l1 ++ l2) = actions_of tid l1 ++ actions_of tid l2.
Proof. apply filter_app. Qed.

Lemma actions_of_own (tid : ThreadId) (evs : list event) :
  Forall (fun e => thread_of e = Some tid) evs -> actions_of tid evs = evs.
Proof.
  unfold actions_of. induction 1 as [|e evs He _ IH]; [done|].
  by rewrite filter_cons_True, IH.
Qed.

Lemma actions_of_other (tid : ThreadId) (o : option ThreadId) (evs : list event) :
  o ≠ Some tid ->
  Forall (fun e => thread_of e = o) evs -> actions_of tid evs = [].
Proof.
  intros Hne. unfold actions_of. induction 1 as [|e evs He _ IH]; [done|].
  rewrite filter_cons_False; [done|]. by rewrite He.
Qed.

(** What one action adds to the actions of worker [tid]. *)
Lemma sys_step_actions_of (a : action Q) (tid : ThreadId) sys sys' :
  sys_step a sys = Some sys' ->
  exists evs, sys_trace sys' = sys_trace sys ++ evs
    /\ ((a ≠ Run tid \/ sys' = sys)
        /\ actions_of tid evs = [] /\ threads sys' !! tid = threads sys !! tid
        \/ a = Run tid
           /\ exists wk s1 wk',
                threads sys !! tid = Some wk
                /\ execute_thread_step tid (shared sys) wk = Some (s1, wk', evs)
                /\ threads sys' !! tid = Some wk'
                /\ shared sys' = append_trace evs s1).
Proof.
  intros Hstep. destruct (sys_step_inv a sys sys' Hstep) as (evs & Htr & Hcase).
  exists evs. split; [done|].
  destruct a as [tid'|f| | |me| |];
    try (left; destruct Hcase as [Hthreads Hnone]; split; [by left|];
         split; [by apply (actions_of_other tid None)|by rewrite Hthreads]).
  destruct Hcase as [[-> ->]|(wk & s1 & wk' & Hwk & Hw & ->)].
  - left. split; [by right|]. done.
  - destruct (decide (tid' = tid)) as [->|Hne].
    + right. split; [done|]. exists wk, s1, wk'. cbn.
      by rewrite lookup_insert_eq.
    + left. split; [left; congruence|]. split.
      * eapply actions_of_other; [|by eapply step_events_by]. congruence.
      * cbn. by rewrite lookup_insert_ne.
Qed.

(** A worker that has returned performs no further action. *)
Lemma returned_is_silent (tid : ThreadId) sched sys sys' :
  run sched sys = Some sys' -> has_returned tid sys ->
  has_returned tid sys'
  /\ exists new, sys_trace sys' = sys_trace sys ++ new /\ actions_of tid new = [].
Proof.
  revert sys. induction sched as [|a sched IH]; intros sys Hrun Hret; cbn in Hrun.
  - simplify_eq. split; [done|]. exists []. by rewrite app_nil_r.
  - destruct (sys_step a sys) as [sys1|] eqn:Hstep; [|done].
    destruct (sys_step_actions_of a tid sys sys1 Hstep) as (evs & Htr & Hcase).
    assert (Hquiet : actions_of tid evs = [] /\ has_returned tid sys1).
    { destruct Hcase as [(_ & Hnil & Hsame)|(-> & wk & s1 & wk' & Hwk & Hw & _)].
      - split; [done|]. destruct Hret as (wk & Hwk & Hpc).
        exists wk. by rewrite Hsame.
      - destruct Hret as (wk0 & Hwk0 & Hpc). simplify_eq.
        unfold execute_thread_step in Hw. by rewrite Hpc in Hw. }
    destruct Hquiet as [Hnil Hret1].
    destruct (IH sys1 Hrun Hret1) as (Hret' & new & Htr' & Hnew).
    split; [done|]. exists (evs ++ new). split.
    + by rewrite Htr', Htr, app_assoc.
    + by rewrite actions_of_app, Hnil, Hnew.
Qed.

End Runs.

(** ** After [destroy_threadpool] has stored [STOPPED] *)

Section Stopped.
Context `{StateCodes} {Q : Type} `{VUserTaskQueue.ops Q}.
Implicit Types (s : Shared Q) (wk : Worker) (sys : System Q)
  (sched : list (action Q)).

Lemma leaves_at_once_split (tr : list event) :
  leaves_at_once tr ->
  forall pre tid site st post,
    tr = pre ++ EvLeaveCheck tid site st :: post ->
    st = STOPPED /\ actions_of tid post = [EvReturn tid].
Proof.
  induction tr as [|e tr IH]; intros Hok pre tid site st post Heq.
  - by destruct pre.
  - destruct Hok as [He Hok]. destruct pre as [|e' pre]; cbn in Heq; simplify_eq.
    + done.
    + by eapply IH.
Qed.

Lemma leaves_at_once_app (evs tr : list event) :
  Forall (fun e => is_check e = false) evs ->
  leaves_at_once tr -> leaves_at_once (evs ++ tr).
Proof.
  induction 1 as [|e evs He _ IH]; intros Hok; [done|].
  cbn. split; [|by apply IH]. by destruct e.
Qed.

Lemma no_thread_no_check (evs : list event) :
  Forall (fun e => thread_of e = None) evs ->
  Forall (fun e => is_check e = false) evs.
Proof. intros Hall. eapply Forall_impl; [exact Hall|]. by intros []. Qed.

Lemma step_leave_stopped (tid : ThreadId) s wk (site : site) :
  (0 < STOPPED)%Z ->
  m_pool_state (the_pool s) = STOPPED ->
  pc wk = at_leave site ->
  execute_thread_step tid s wk
  = Some (unlock_if_owned (owns_lock wk) s,
          mkWorker returned false (within_task wk),
          [EvLeaveCheck tid site STOPPED; EvReturn tid]).
Proof.
  intros Hpos Hst Hpc. unfold execute_thread_step. rewrite Hpc. cbn zeta.
  by rewrite Hst, leave_verdict_stopped.
Qed.

Lemma step_returned (tid : ThreadId) s wk :
  pc wk = returned -> execute_thread_step tid s wk = None.
Proof. intros Hpc. unfold execute_thread_step. by rewrite Hpc. Qed.

(** In state [STOPPED] a step either makes no check, or it is the check
    itself, and then the worker returns in the same step. *)
Lemma step_check_when_stopped (tid : ThreadId) s wk s' wk' (evs : list event) :
  (0 < STOPPED)%Z ->
  m_pool_state (the_pool s) = STOPPED ->
  execute_thread_step tid s wk = Some (s', wk', evs) ->
  Forall (fun e => is_check e = false) evs
  \/ (exists site, evs = [EvLeaveCheck tid site STOPPED; EvReturn tid])
     /\ pc wk' = returned.
Proof.
  intros Hpos Hst Hstep.
  destruct (pc wk) as [| | | | | | | | |site|site| | | | | | | | | | | | |] eqn:Hpc.
  10: { rewrite (step_leave_stopped tid s wk site Hpos Hst Hpc) in Hstep.
        simplify_eq. right. split; [by exists site|done]. }
  all: left; unfold execute_thread_step in Hstep; rewrite Hpc in Hstep; unfold do_return in Hstep;
    repeat case_match; simplify_eq; by repeat constructor.
Qed.

Lemma run_after_stopped sched sys sys' :
  (0 < STOPPED)%Z ->
  m_pool_state (sys_pool sys) = STOPPED ->
  run sched sys = Some sys' ->
  exists new, sys_trace sys' = sys_trace sys ++ new
    /\ leaves_at_once new
    /\ (forall e, e ∈ new -> is_check e = true ->
          forall tid, thread_of e = Some tid -> has_returned tid sys').
Proof.
  intros Hpos. revert sys.
  induction sched as [|a sched IH]; intros sys Hst Hrun; cbn in Hrun.
  { simplify_eq. exists []. rewrite app_nil_r. split; [done|]. split; [done|].
    intros e He. by apply elem_of_nil in He. }
  destruct (sys_step a sys) as [sys1|] eqn:Hstep; [|done].
  pose proof (sys_step_stopped a sys sys1 Hstep Hst) as Hst1.
  destruct (IH sys1 Hst1 Hrun) as (new & Htr' & Hok & Hret).
  destruct (sys_step_inv a sys sys1 Hstep) as (evs & Htr & Hcase).
  exists (evs ++ new). split; [by rewrite Htr', Htr, app_assoc|].
  assert (Hquiet : Forall (fun e => is_check e = false) evs ->
                   leaves_at_once (evs ++ new)
                   /\ (forall e, e ∈ evs ++ new -> is_check e = true ->
                         forall tid, thread_of e = Some tid -> has_returned tid sys')).
  { intros Hno. split; [by apply leaves_at_once_app|].
    intros e He Hc. apply elem_of_app in He as [He|He]; [|by apply Hret].
    rewrite Forall_forall in Hno. specialize (Hno e He). congruence. }
  destruct a as [tid|f| | |me| |];
    try (apply Hquiet, no_thread_no_check; tauto).
  destruct Hcase as [[-> ->]|(wk & s1 & wk' & Hwk & Hw & ->)]; [by apply Hquiet|].
  destruct (step_check_when_stopped tid _ _ _ _ _ Hpos Hst Hw)
    as [Hno|[[site ->] Hpc]]; [by apply Hquiet|].
  assert (Hret1 : has_returned tid
            (mkSystem (append_trace [EvLeaveCheck tid site STOPPED; EvReturn tid] s1)
                      (<[tid:=wk']> (threads sys)))).
  { exists wk'. cbn. by rewrite lookup_insert_eq. }
  destruct (returned_is_silent tid sched _ sys' Hrun Hret1)
    as (Hret' & new' & Htr'' & Hsilent).
  assert (new' = new) as -> by (rewrite Htr' in Htr''; by apply app_inv_head in Htr'').
  split.
  - cbn [leaves_at_once app]. repeat split; try done.
    change (EvReturn tid :: new) with ([EvReturn tid] ++ new).
    rewrite actions_of_app, Hsilent, app_nil_r.
    apply actions_of_own. by repeat constructor.
  - intros e He Hc tid' Hth.
    apply elem_of_app in He as [He|He]; [|by eapply Hret].
    apply elem_of_cons in He as [->|He].
    + cbn in Hth. by simplify_eq.
    + apply list_elem_of_singleton in He as ->. done.
Qed.

(** C1. From the moment [destroy_threadpool] has stored [STOPPED], however
    the workers, the queue's users and the phases of [stop_thread] and
    [destroy_threadpool] are scheduled: the state stays [STOPPED]; every
    [leave_pool()] check a worker then makes reads [STOPPED]; the only thing
    that worker does afterwards is to return from [execute_thread] -- in
    particular it calls [GetTask] no more -- and a worker that has returned
    takes no further step. The code of [STOPPED] is taken to be positive, as
    [leave_pool] looks at positive states only. *)
Theorem stopped_workers_leave (me : ThreadId) sched sys sys'
    (Hpos : (0 < STOPPED)%Z)
    (Hrun : run (DestroyStore me :: sched) sys = Some sys') :
  m_pool_state (sys_pool sys') = STOPPED
  /\ (exists new, sys_trace sys' = sys_trace sys ++ new
      /\ forall pre tid site st post,
           new = pre ++ EvLeaveCheck tid site st :: post ->
           st = STOPPED
           /\ actions_of tid post = [EvReturn tid]
           /\ has_returned tid sys')
  /\ (forall tid s wk site,
        m_pool_state (the_pool s) = STOPPED -> pc wk = at_leave site ->
        execute_thread_step tid s wk
        = Some (unlock_if_owned (owns_lock wk) s,
                mkWorker returned false (within_task wk),
                [EvLeaveCheck tid site STOPPED; EvReturn tid]))
  /\ (forall tid s wk, pc wk = returned -> execute_thread_step tid s wk = None).
Proof.
  cbn [run] in Hrun.
  destruct (sys_step (DestroyStore me) sys) as [sys1|] eqn:Hstore; [|done].
  assert (Hst1 : m_pool_state (sys_pool sys1) = STOPPED).
  { cbn in Hstore. simplify_eq. unfold sys_pool, the_pool, destroy_store. cbn.
    by destruct (GetThisThreadID me (f_thread_ids (proc (shared sys)))). }
  assert (Htr1 : sys_trace sys1 = sys_trace sys).
  { cbn in Hstore. simplify_eq. unfold sys_trace, destroy_store. cbn.
    by destruct (GetThisThreadID me (f_thread_ids (proc (shared sys)))). }
  split; [by eapply run_stopped|]. split; [|split].
  - destruct (run_after_stopped sched sys1 sys' Hpos Hst1 Hrun)
      as (new & Htr & Hok & Hret).
    exists new. split; [by rewrite <- Htr1|].
    intros pre tid site st post ->.
    destruct (leaves_at_once_split _ Hok pre tid site st post eq_refl) as [-> Hact].
    split; [done|]. split; [done|].
    apply (Hret (EvLeaveCheck tid site STOPPED)); [|done|done].
    apply elem_of_app. right. apply elem_of_cons. by left.
  - intros tid s wk site. by apply step_leave_stopped.
  - intros tid s wk. apply step_returned.
Qed.

End Stopped.

Lemma shutdown_runs :
  @run spec_codes _ _ (DestroyStore 0 :: shutdown) busy_pool = Some after_shutdown.
Proof. vm_compute. reflexivity. Qed.

Lemma stopped_workers_leave_witness :
  @run spec_codes _ _ (DestroyStore 0 :: shutdown) busy_pool = Some after_shutdown
  /\ m_pool_state (sys_pool after_shutdown) = 3%Z
  /\ has_returned 1 after_shutdown
  /\ has_returned 2 after_shutdown.
Proof.
  pose proof shutdown_runs as Hrun.
  destruct (@stopped_workers_leave spec_codes _ _ 0 shutdown busy_pool
              after_shutdown eq_refl Hrun)
    as (Hstate & (new & Htrace & Hchecks) & _ & _).
  split; [exact Hrun|]. split; [exact Hstate|].
  cbn in Htrace. subst new.
  split.
  - eapply (Hchecks [_; _; _; _; _; _; _; _] 1 InWaitLoop). reflexivity.
  - eapply (Hchecks [_] 2 AfterWait). reflexivity.
Defined.

(** ** Disposal of tasks *)

Section Disposal.
Context `{StateCodes} {Q : Type} `{VUserTaskQueue.ops Q}.
Implicit Types (s : Shared Q) (wk : Worker) (sys : System Q)
  (sched : list (action Q)).

Lemma track_app (tid : ThreadId) (due : option Task) (l1 l2 : list event) :
  track tid due (l1 ++ l2)
  = match track tid due l1 with
    | Some due' => track tid due' l2
    | None => None
    end.
Proof.
  revert due. induction l1 as [|e l1 IH]; intros due; [done|].
  cbn. destruct due as [t|].
  - case_decide; [apply IH|done].
  - destruct e; try apply IH; done.
Qed.

(** One worker step keeps the rule. *)
Lemma step_track (tid : ThreadId) s wk s' wk' (evs : list event) :
  execute_thread_step tid s wk = Some (s', wk', evs) ->
  track tid (owes (pc wk)) evs = Some (owes (pc wk')).
Proof.
  intros Hstep. step_inv Hstep; cbn;
    repeat match goal with
           | b : block |- _ => destruct b
           | st : site |- _ => destruct st
           | Hg : group _ = _ |- _ => rewrite Hg
           end; cbn; rewrite ?decide_True by done; done.
Qed.

Lemma run_track (tid : ThreadId) sched sys sys' :
  run sched sys = Some sys' ->
  exists new, sys_trace sys' = sys_trace sys ++ new
    /\ track tid (pending_of tid sys) (actions_of tid new)
       = Some (pending_of tid sys').
Proof.
  revert sys. induction sched as [|a sched IH]; intros sys Hrun; cbn in Hrun.
  { simplify_eq. exists []. by rewrite app_nil_r. }
  destruct (sys_step a sys) as [sys1|] eqn:Hstep; [|done].
  destruct (IH sys1 Hrun) as (new & Htr' & Hok).
  destruct (sys_step_actions_of a tid sys sys1 Hstep) as (evs & Htr & Hcase).
  exists (evs ++ new). split; [by rewrite Htr', Htr, app_assoc|].
  rewrite actions_of_app, track_app.
  destruct Hcase as [(_ & -> & Hsame)|(-> & wk & s1 & wk' & Hwk & Hw & Hwk' & _)].
  - cbn. unfold pending_of in *. by rewrite <- Hsame.
  - rewrite (actions_of_own tid evs) by (by eapply step_events_by).
    unfold pending_of at 1. rewrite Hwk, (step_track _ _ _ _ _ _ Hw).
    unfold pending_of in Hok at 1. by rewrite Hwk' in Hok.
Qed.

(** What the rule says about an invocation and about a deletion. *)
Lemma track_invoke (tid : ThreadId) (acts pre post : list event) (t : Task)
    (due' : option Task) :
  track tid None acts = Some due' ->
  acts = pre ++ EvInvoke tid t :: post ->
  group t = None ->
  (post = [] /\ due' = Some t) \/ exists post', post = EvDelete tid t :: post'.
Proof.
  intros Hok -> Hg. rewrite track_app in Hok.
  destruct (track tid None pre) as [[t0|]|]; cbn in Hok; try done.
  rewrite Hg in Hok. destruct post as [|e post]; cbn in Hok.
  - left. by simplify_eq.
  - right. case_decide; [|done]. subst e. by exists post.
Qed.

Lemma track_due (tid : ThreadId) (due : option Task) (pre : list event) (t : Task) :
  Forall (fun e => thread_of e = Some tid) pre ->
  track tid due pre = Some (Some t) ->
  (pre = [] /\ due = Some t)
  \/ (group t = None /\ exists pre', pre = pre' ++ [EvInvoke tid t]).
Proof.
  revert due. induction pre as [|e pre IH]; intros due Hby Hok; cbn in Hok.
  { left. by simplify_eq. }
  apply Forall_cons in Hby as [He Hby]. right.
  assert (Hrest : forall due0, track tid due0 pre = Some (Some t) ->
            (pre = [] /\ due0 = Some t) \/
            (group t = None /\ exists pre', e :: pre = pre' ++ [EvInvoke tid t])).
  { intros due0 Hok0. destruct (IH due0 Hby Hok0) as [?|[Hg [pre' ->]]]; [by left|].
    right. split; [done|]. by exists (e :: pre'). }
  destruct due as [t0|].
  - case_decide; [|done].
    destruct (Hrest None Hok) as [[_ ?]|?]; done.
  - destruct e as [| | | | | | |tid' t'| | | |];
      try (destruct (Hrest None Hok) as [[_ ?]|?]; done); [|done].
    destruct (Hrest _ Hok) as [[-> Hdue]|?]; [|done].
    destruct (group t') eqn:Hg; [done|]. simplify_eq. cbn in He. simplify_eq.
    split; [done|]. by exists [].
Qed.

Lemma track_delete (tid : ThreadId) (acts pre post : list event) (t : Task)
    (due' : option Task) :
  Forall (fun e => thread_of e = Some tid) acts ->
  track tid None acts = Some due' ->
  acts = pre ++ EvDelete tid t :: post ->
  group t = None /\ exists pre', pre = pre' ++ [EvInvoke tid t].
Proof.
  intros Hby Hok ->. rewrite track_app in Hok.
  apply Forall_app in Hby as [Hby _].
  destruct (track tid None pre) as [[t0|]|] eqn:Hpre; cbn in Hok; try done.
  case_decide; [|done]. simplify_eq.
  destruct (track_due tid None pre t0 Hby Hpre) as [[_ ?]|?]; done.
Qed.

Lemma actions_of_by (tid : ThreadId) (tr : list event) :
  Forall (fun e => thread_of e = Some tid) (actions_of tid tr).
Proof.
  apply Forall_forall. intros e He.
  by apply list_elem_of_filter in He as [? _].
Qed.

(** C6. In both task-running blocks of [execute_thread] (the dummy run and
    the task loop) a dequeued task is invoked and then, exactly when its
    [group()] is null, deleted; a task with a group is left alone. For every
    run of the system, in the actions of a worker: an invocation of a task
    without a group is followed at once by the deletion of that task (or the
    worker stands right before it), every deletion comes right after the
    invocation of the same task, which has no group, and so no task with a
    group is ever deleted. *)
Theorem tasks_disposed_by_group (tid : ThreadId) sched sys sys'
    (Hstart : pending_of tid sys = None)
    (Hrun : run sched sys = Some sys') :
  (forall s wk b t, pc wk = at_call b t ->
     execute_thread_step tid s wk = Some (s, goto (at_dispose b t) wk, [EvInvoke tid t]))
  /\ (forall s wk b t, pc wk = at_dispose b t ->
        execute_thread_step tid s wk
        = Some (s, goto (after_task b) wk,
                match group t with
                | None => [EvDelete tid t]
                | Some _ => []
                end))
  /\ (forall s wk s' wk' evs t,
        execute_thread_step tid s wk = Some (s', wk', evs) -> EvGetTask tid (Some t) ∈ evs ->
        (pc wk = at_dummy_get /\ pc wk' = at_call DummyRun t)
        \/ (pc wk = at_drain_get /\ pc wk' = at_call DrainLoop t))
  /\ exists new, sys_trace sys' = sys_trace sys ++ new
      /\ (forall pre t post,
            actions_of tid new = pre ++ EvInvoke tid t :: post ->
            group t = None ->
            (post = [] /\ pending_of tid sys' = Some t)
            \/ exists post', post = EvDelete tid t :: post')
      /\ (forall pre t post,
            actions_of tid new = pre ++ EvDelete tid t :: post ->
            group t = None /\ exists pre', pre = pre' ++ [EvInvoke tid t])
      /\ (forall t, group t ≠ None -> EvDelete tid t ∉ new).
Proof.
  split; [|split; [|split]].
  - intros s wk b t Hpc. unfold execute_thread_step. by rewrite Hpc.
  - intros s wk b t Hpc. unfold execute_thread_step. by rewrite Hpc.
  - intros s wk s1 wk1 evs t Hstep Hin.
    step_inv Hstep; cbn;
      repeat (apply elem_of_cons in Hin as [Hin|Hin]; simplify_eq);
      try (by apply elem_of_nil in Hin); auto.
  - destruct (run_track tid sched sys sys' Hrun) as (new & Htr & Hok).
    rewrite Hstart in Hok.
    exists new. split; [done|]. split; [|split].
    + intros pre t post Heq Hg. by eapply track_invoke.
    + intros pre t post Heq.
      eapply track_delete; [apply actions_of_by|done|done].
    + intros t Hg Hin.
      assert (Hin' : EvDelete tid t ∈ actions_of tid new).
      { apply list_elem_of_filter. by split. }
      apply list_elem_of_split in Hin' as (pre & post & Heq).
      destruct (track_delete tid _ pre post t _ (actions_of_by tid new) Hok Heq).
      done.
Qed.

End Disposal.

Lemma tasks_disposed_by_group_witness :
  actions_of 1 (sys_trace after_shutdown)
  = [EvGetTask 1 (Some plain_task); EvInvoke 1 plain_task; EvDelete 1 plain_task;
     EvGetTask 1 (Some grouped_task); EvInvoke 1 grouped_task;
     EvLeaveCheck 1 InWaitLoop 3; EvReturn 1]
  /\ EvDelete 1 grouped_task ∉ sys_trace after_shutdown.
Proof.
  destruct (@tasks_disposed_by_group spec_codes _ _ 1 (DestroyStore 0 :: shutdown)
              busy_pool after_shutdown eq_refl shutdown_runs)
    as (_ & _ & _ & new & Htrace & _ & _ & Hgrouped).
  cbn in Htrace. subst new.
  split; [reflexivity|]. by apply Hgrouped.
Defined.

(** ** Stop requests while the pool is not in state [PARTIAL] *)

Section NoPartial.
Context `{StateCodes} {Q : Type} `{VUserTaskQueue.ops Q}.
Implicit Types (s : Shared Q) (wk : Worker) (sys : System Q)
  (sched : list (action Q)).

Lemma step_membership (tid : ThreadId) s wk s' wk' (evs : list event) :
  execute_thread_step tid s wk = Some (s', wk', evs) ->
  m_main_threads (the_pool s') = m_main_threads (the_pool s)
  /\ m_is_joined (the_pool s') = m_is_joined (the_pool s)
  /\ m_unique_threads (the_pool s') = m_unique_threads (the_pool s)
  /\ m_pool_size (the_pool s') = m_pool_size (the_pool s)
  /\ m_alive_flag (the_pool s') = m_alive_flag (the_pool s).
Proof.
  intros Hstep.
  step_inv Hstep; unfold unlock_if_owned, lock_if_not_owned in *;
    repeat case_match; simplify_eq; done.
Qed.

Lemma step_steady (tid : ThreadId) s wk s' wk' (evs : list event) :
  execute_thread_step tid s wk = Some (s', wk', evs) ->
  m_pool_state (the_pool s) ≠ PARTIAL ->
  m_pool_state (the_pool s) ≠ STOPPED ->
  (forall site, pc wk ≠ at_leave_partial site) ->
  (forall site, pc wk' ≠ at_leave_partial site)
  /\ pc wk' ≠ returned
  /\ (EvReturn tid ∉ evs)
  /\ m_is_stopped (the_pool s') = m_is_stopped (the_pool s)
  /\ m_stop_threads (the_pool s') = m_stop_threads (the_pool s).
Proof.
  intros Hstep Hnp Hns Hpc.
  destruct (step_tokens _ _ _ _ _ _ Hstep) as [[Htok Hack]|(site & Hat & _)];
    [|by destruct (Hpc site)].
  assert (Hv : leave_verdict (m_pool_state (the_pool s)) = Stay).
  { destruct (leave_verdict (m_pool_state (the_pool s))) eqn:Hv; [| |done].
    - by apply leave_verdict_Leave in Hv.
    - by apply leave_verdict_TryPartial in Hv. }
  split; [|split; [|split; [|done]]].
  - intros site Hat.
    destruct (step_into_leave_partial _ _ _ _ _ _ site Hstep Hat) as [_ Hst].
    done.
  - clear Htok Hack. unfold execute_thread_step, do_return in Hstep.
    destruct (pc wk) as [| | | | | | | | |st0|st0| | | | | | | | | | | | |] eqn:Hl;
      try rewrite Hv in Hstep; try (by destruct (Hpc st0));
      repeat case_match; simplify_eq; cbn; try done;
      repeat match goal with
             | b : block |- _ => destruct b
             | st : site |- _ => destruct st
             end; done.
  - clear Htok Hack. unfold execute_thread_step, do_return in Hstep.
    destruct (pc wk) as [| | | | | | | | |st0|st0| | | | | | | | | | | | |] eqn:Hl;
      try rewrite Hv in Hstep; try (by destruct (Hpc st0));
      repeat case_match; simplify_eq;
      rewrite ?elem_of_cons, ?elem_of_nil; intros ?; destruct_or?; done.
Qed.

Lemma sys_step_steady (a : action Q) sys :
  is_destroy a = false -> steady sys ->
  exists sys', sys_step a sys = Some sys'
    /\ steady sys'
    /\ m_main_threads (sys_pool sys') = m_main_threads (sys_pool sys)
    /\ m_is_joined (sys_pool sys') = m_is_joined (sys_pool sys)
    /\ (exists k, m_is_stopped (sys_pool sys')
                  = m_is_stopped (sys_pool sys) ++ replicate k true)
    /\ (forall tid, has_returned tid sys' -> has_returned tid sys)
    /\ (exists evs, sys_trace sys' = sys_trace sys ++ evs
                    /\ forall tid, EvReturn tid ∉ evs).
Proof.
  intros Hnd (Hnp & Hns & Hacks & Hpcs).
  assert (Hsame : exists sys', Some sys = Some sys'
    /\ steady sys'
    /\ m_main_threads (sys_pool sys') = m_main_threads (sys_pool sys)
    /\ m_is_joined (sys_pool sys') = m_is_joined (sys_pool sys)
    /\ (exists k, m_is_stopped (sys_pool sys')
                  = m_is_stopped (sys_pool sys) ++ replicate k true)
    /\ (forall tid, has_returned tid sys' -> has_returned tid sys)
    /\ (exists evs, sys_trace sys' = sys_trace sys ++ evs
                    /\ forall tid, EvReturn tid ∉ evs)).
  { exists sys. split; [done|]. split; [done|]. do 2 (split; [done|]).
    split; [|split; [done|]].
    - exists 0. by rewrite app_nil_r.
    - exists []. split; [by rewrite app_nil_r|]. intros tid. apply not_elem_of_nil. }
  destruct a as [tid|f| | |me| |]; try done; unfold sys_step.
  - destruct (threads sys !! tid) as [wk|] eqn:Hwk; [|done].
    destruct (execute_thread_step tid (shared sys) wk) as [[[s1 wk'] evs]|] eqn:Hw; [|done].
    destruct (step_steady _ _ _ _ _ _ Hw Hnp Hns (fun site => Hpcs tid wk site Hwk))
      as (Hpc' & Hnr & Hnoret & Htok & Hack).
    destruct (step_membership _ _ _ _ _ _ Hw) as (Hmain & Hj & _).
    pose proof (step_pool_state _ _ _ _ _ _ Hw) as Hst.
    eexists. split; [done|]. unfold steady, sys_pool, the_pool in *. cbn.
    split; [|split; [done|split; [done|split; [|split]]]].
    + rewrite Hst, Hack. repeat split; try done.
      intros tid' wk0 site Hlk. destruct (decide (tid = tid')) as [->|Hne].
      * rewrite lookup_insert_eq in Hlk. simplify_eq. apply Hpc'.
      * rewrite lookup_insert_ne in Hlk by done. by eapply Hpcs.
    + exists 0. by rewrite app_nil_r.
    + intros tid' (wk0 & Hlk & Hret). cbn in Hlk.
      destruct (decide (tid = tid')) as [->|Hne].
      * rewrite lookup_insert_eq in Hlk. by simplify_eq.
      * rewrite lookup_insert_ne in Hlk by done. by exists wk0.
    + exists evs. unfold sys_trace. cbn.
      rewrite (step_trace _ _ _ _ _ _ Hw). split; [done|].
      intros tid' Hin.
      pose proof (step_events_by _ _ _ _ _ _ Hw) as Hby.
      rewrite Forall_forall in Hby. specialize (Hby _ Hin). cbn in Hby.
      by simplify_eq.
  - eexists. split; [done|]. unfold steady, sys_pool, the_pool in *. cbn.
    repeat split; try done.
    + exists 0. by rewrite app_nil_r.
    + exists []. split; [by rewrite app_nil_r|]. intros tid. apply not_elem_of_nil.
  - destruct (negb (m_alive_flag (the_pool (shared sys)))
              || (m_pool_size (the_pool (shared sys)) =? 0)); [done|].
    destruct (mutex_free (shared sys)); [|done].
    eexists. split; [done|]. unfold steady, sys_pool, the_pool in *. cbn.
    repeat split; try done.
    + by exists 1.
    + exists [EvNotifyOne]. split; [done|]. intros tid Hin.
      by apply list_elem_of_singleton in Hin.
  - destruct (mutex_free (shared sys)); [|done].
    rewrite stop_thread_drain_spec.
    unfold steady, sys_pool, the_pool in *. rewrite Hacks. cbn.
    rewrite decide_True by lia.
    eexists. split; [done|]. cbn. rewrite Hacks. cbn.
    repeat split; try done.
    + by rewrite Nat.sub_0_r, take_ge.
    + exists 0. by rewrite app_nil_r.
    + exists []. split; [by rewrite app_nil_r|]. intros tid. apply not_elem_of_nil.
Qed.

(** X1. Without [PARTIAL] in [m_pool_state], no schedule of worker steps, queue
    operations and [stop_thread] calls stops a worker: the run is defined,
    every token posted stays in [m_is_stopped], no worker returns, and
    [m_main_threads] and [m_is_joined] keep their contents. *)
Theorem stop_requests_are_never_taken sched sys
    (Hsched : Forall (fun a => is_destroy a = false) sched)
    (Hsteady : steady sys) :
  exists sys', run sched sys = Some sys'
    /\ steady sys'
    /\ m_main_threads (sys_pool sys') = m_main_threads (sys_pool sys)
    /\ m_is_joined (sys_pool sys') = m_is_joined (sys_pool sys)
    /\ (exists k, m_is_stopped (sys_pool sys')
                  = m_is_stopped (sys_pool sys) ++ replicate k true)
    /\ (forall tid, has_returned tid sys' -> has_returned tid sys)
    /\ (exists new, sys_trace sys' = sys_trace sys ++ new
                    /\ forall tid, EvReturn tid ∉ new).
Proof.
  revert sys Hsteady. induction Hsched as [|a sched Ha _ IH]; intros sys Hsteady.
  { exists sys. cbn. do 4 (split; [done|]). split; [|split; [done|]].
    - exists 0. by rewrite app_nil_r.
    - exists []. split; [by rewrite app_nil_r|]. intros tid. apply not_elem_of_nil. }
  destruct (sys_step_steady a sys Ha Hsteady)
    as (sys1 & Hstep & Hst1 & Hmain1 & Hj1 & (k1 & Htok1) & Hret1 & evs & Htr1 & Hno1).
  destruct (IH sys1 Hst1)
    as (sys' & Hrun & Hst' & Hmain & Hj & (k & Htok) & Hret & new & Htr & Hno).
  exists sys'. cbn. rewrite Hstep. split; [done|]. split; [done|].
  split; [congruence|]. split; [congruence|]. split; [|split].
  - exists (k1 + k). by rewrite Htok, Htok1, replicate_add, app_assoc.
  - intros tid Hr. by apply Hret1, Hret.
  - exists (evs ++ new). split; [by rewrite Htr, Htr1, app_assoc|].
    intros tid Hin. apply elem_of_app in Hin as [Hin|Hin].
    + by eapply Hno1.
    + by eapply Hno.
Qed.

End NoPartial.

Lemma stop_requests_are_never_taken_witness :
  exists sys',
    @run spec_codes _ _
      [StopPost; Run 2; Run 2; StopDrain; StopPost; Run 2; StopDrain] started_system
    = Some sys'
    /\ m_main_threads (sys_pool sys') = [1; 2; 3]
    /\ (exists k, m_is_stopped (sys_pool sys') = [] ++ replicate k true).
Proof.
  destruct (@stop_requests_are_never_taken spec_codes _ _
              [StopPost; Run 2; Run 2; StopDrain; StopPost; Run 2; StopDrain]
              started_system)
    as (sys' & Hrun & _ & Hmain & _ & Htokens & _).
  - by repeat constructor.
  - repeat split; try done.
    intros tid wk site Hlk. cbn in Hlk.
    apply lookup_singleton_Some in Hlk as [_ <-]. done.
  - exists sys'. split; [exact Hrun|]. split; [exact Hmain|exact Htokens].
Defined.

(** ** Restarting a destroyed pool *)

Section Restart.
Context `{StateCodes}.

Lemma initialize_same_size (me : ThreadId) (spawn : nat -> option ThreadId)
    (fuel n : nat) (w : Process) :
  1 <= n -> m_alive_flag (tp w) = false -> m_pool_size (tp w) = n ->
  initialize_threadpool me spawn fuel n w
  = Return n (on_tp (set_alive_flag true) (on_tp (set_pool_state STARTED) w)).
Proof.
  intros Hn Hdead Hsize. unfold initialize_threadpool, initialize_enter.
  destruct (Nat.ltb_spec n 1); [lia|]. rewrite Hdead.
  cbn [negb on_tp with_tp tp set_alive_flag set_pool_state m_pool_state
       m_pool_size].
  rewrite Z.eqb_refl, Hsize, Nat.ltb_irrefl, Nat.eqb_refl. done.
Qed.

(** X2. [destroy_threadpool] clears the three vectors but leaves [m_pool_size]
    as it was. A following [initialize_threadpool] with that same size stores
    [STARTED], finds [m_pool_size == proposed_size] and returns it without
    creating a thread. *)
Theorem reinitialize_with_same_size_spawns_nothing
    (me : ThreadId) (spawn : nat -> option ThreadId) (fuel : nat) (w : Process)
    (Halive : m_alive_flag (tp w) = true)
    (Hsizes : ~ sizes_differ w)
    (Hpos : 1 <= m_pool_size (tp w)) :
  exists w1 w2,
    destroy_threadpool me w = Return 0 w1
    /\ m_pool_size (tp w1) = m_pool_size (tp w)
    /\ initialize_threadpool me spawn fuel (m_pool_size (tp w)) w1
       = Return (m_pool_size (tp w)) w2
    /\ m_alive_flag (tp w2) = true
    /\ m_pool_state (tp w2) = STARTED
    /\ m_main_threads (tp w2) = []
    /\ m_unique_threads (tp w2) = []
    /\ trace w2 = trace w1.
Proof.
  unfold sizes_differ in Hsizes.
  unfold destroy_threadpool, destroy_finish, destroy_notify, destroy_store.
  destruct (GetThisThreadID me (f_thread_ids w)) as [nid ids]. cbn.
  rewrite Halive. cbn. rewrite bool_decide_false by done.
  eexists _, _. split; [reflexivity|]. cbn [tp on_tp with_tp set_alive_flag
    m_pool_size]. split; [done|].
  rewrite initialize_same_size; [|done|done|done].
  split; [reflexivity|]. done.
Qed.

End Restart.

Lemma reinitialize_with_same_size_spawns_nothing_witness :
  exists w1 w2,
    @destroy_threadpool spec_codes 0 three_started = Return 0 w1
    /\ m_pool_size (tp w1) = 3
    /\ @initialize_threadpool spec_codes 0 (fun i => Some (S i)) 0 3 w1 = Return 3 w2
    /\ m_alive_flag (tp w2) = true
    /\ m_pool_state (tp w2) = 1%Z
    /\ m_main_threads (tp w2) = []
    /\ m_unique_threads (tp w2) = []
    /\ trace w2 = trace w1.
Proof.
  apply (@reinitialize_with_same_size_spawns_nothing spec_codes 0
           (fun i => Some (S i)) 0 three_started).
  - reflexivity.
  - unfold sizes_differ. cbn. intros Hne. by apply Hne.
  - cbn. lia.
Defined.

(** ** The operations and their steps agree *)

Section Coherence.
Context `{StateCodes} {Q : Type} `{VUserTaskQueue.ops Q}.
Implicit Types (s : Shared Q) (wk : Worker) (sys : System Q).

(** The steps of a worker at a [leave_pool()] call compute what the lambda
    computes: the same pool, the same verdict, and the mutex released when
    the worker returns or the lambda released it. *)
Lemma leave_pool_call_refines (tid : ThreadId) (site : site) s wk :
  pc wk = at_leave site ->
  owns_lock wk = true \/ m_task_lock s = None ->
  exists s' wk' evs,
    leave_pool_call tid s wk = Some (s', wk', evs)
    /\ the_pool s' = (leave_pool tid (owns_lock wk) (the_pool s)).2
    /\ pc wk' = (if (leave_pool tid (owns_lock wk) (the_pool s)).1.1
                 then returned else after_leave site)
    /\ owns_lock wk' = (if (leave_pool tid (owns_lock wk) (the_pool s)).1.1
                        then false
                        else (leave_pool tid (owns_lock wk) (the_pool s)).1.2).
Proof.
  intros Hpc Hmutex.
  unfold leave_pool_call, leave_pool, execute_thread_step, do_return.
  rewrite Hpc. cbn zeta.
  destruct (leave_verdict (m_pool_state (the_pool s))) eqn:Hv;
    cbn [pc goto owns_lock within_task].
  - eexists _, _, _. split; [reflexivity|]. cbn.
    by destruct (owns_lock wk).
  - unfold lock_if_not_owned.
    destruct Hmutex as [Hown|Hfree].
    + rewrite Hown. destruct (token_available (the_pool s));
        eexists _, _, _; (split; [reflexivity|]); by cbn.
    + destruct (owns_lock wk); rewrite ?Hfree;
        destruct (token_available (the_pool s));
        eexists _, _, _; (split; [reflexivity|]); by cbn.
  - destruct site; eexists _, _, _; (split; [reflexivity|]); by cbn.
Qed.

(** With the mutex free, the two actions of [stop_thread] one after the other
    are the call. *)
Lemma stop_thread_as_actions sys (n : nat) (w : Process) :
  m_task_lock (shared sys) = None ->
  m_alive_flag (sys_pool sys) = true ->
  m_pool_size (sys_pool sys) ≠ 0 ->
  stop_thread (proc (shared sys)) = Return n w ->
  run [StopPost; StopDrain] sys
  = Some (mkSystem (with_proc w (shared sys)) (threads sys)).
Proof.
  unfold sys_pool. intros Hfree Halive Hpos Hstop.
  rewrite (stop_thread_active _ Halive Hpos) in Hstop.
  cbn [run sys_step shared]. rewrite Halive.
  destruct (Nat.eqb_spec (m_pool_size (the_pool (shared sys))) 0); [done|].
  unfold mutex_free. rewrite Hfree. cbn [negb orb shared with_proc m_task_lock proc].
  rewrite Hfree, Hstop. done.
Qed.

(** With the mutex free and every worker returned, the three actions of
    [destroy_threadpool] one after the other are the call. *)
Lemma destroy_threadpool_as_actions (me : ThreadId) sys (w : Process) :
  m_task_lock (shared sys) = None ->
  all_returned sys = true ->
  final (destroy_threadpool me (proc (shared sys))) = Some w ->
  run [DestroyStore me; DestroyNotify; DestroyFinish] sys
  = Some (mkSystem (with_proc w (shared sys)) (threads sys)).
Proof.
  intros Hfree Hall Hfinal. unfold destroy_threadpool in Hfinal.
  cbn [run sys_step shared]. unfold mutex_free.
  cbn [with_proc m_task_lock proc queue]. rewrite Hfree.
  cbn [shared with_proc m_task_lock proc queue].
  match goal with
  | |- context [all_returned ?x] => assert (Hall' : all_returned x = true)
  end.
  { unfold all_returned, the_pool, destroy_notify, destroy_store in *. cbn.
    destruct (GetThisThreadID me (f_thread_ids (proc (shared sys)))). exact Hall. }
  rewrite Hall'.
  destruct (destroy_finish (destroy_notify (destroy_store me (proc (shared sys)))));
    cbn in Hfinal; by simplify_eq.
Qed.

End Coherence.

(** * Further results *)

(** ** Queries of the registry *)

Lemma GetThisThreadID_fst (tid : ThreadId) (ids : thread_id_map_t) :
  (GetThisThreadID tid ids).2 !! tid = Some (GetThisThreadID tid ids).1.
Proof.
  unfold GetThisThreadID, ids_at. cbn.
  destruct (ids !! tid) as [i|] eqn:Hin; cbn.
  - by rewrite Hin.
  - by rewrite lookup_insert_eq.
Qed.

Lemma GetThisThreadID_keeps (tid other : ThreadId) (ids : thread_id_map_t) (j : Z) :
  ids !! other = Some j -> (GetThisThreadID tid ids).2 !! other = Some j.
Proof.
  intros Hother. unfold GetThisThreadID. cbn.
  destruct (ids !! tid) as [i|] eqn:Hin; [done|].
  rewrite lookup_insert_ne; [done|]. intros ->. congruence.
Qed.

Lemma GetThisThreadID_again (tid : ThreadId) (ids : thread_id_map_t) :
  GetThisThreadID tid (GetThisThreadID tid ids).2 = GetThisThreadID tid ids.
Proof.
  pose proof (GetThisThreadID_fst tid ids) as Hfst.
  rewrite (GetThisThreadID_present _ _ _ Hfst).
  by destruct (GetThisThreadID tid ids).
Qed.

(** X3. A thread's index is stable: a second [GetThisThreadID] by the same
    thread returns the index of the first and leaves the registry as the
    first left it, and no query changes the entry of any thread already
    registered. *)
Theorem GetThisThreadID_is_stable (tid : ThreadId) (ids : thread_id_map_t) :
  GetThisThreadID tid (GetThisThreadID tid ids).2 = GetThisThreadID tid ids
  /\ (GetThisThreadID tid ids).2 !! tid = Some (GetThisThreadID tid ids).1
  /\ (forall other j, ids !! other = Some j ->
        (GetThisThreadID tid ids).2 !! other = Some j).
Proof.
  split; [|split].
  - apply GetThisThreadID_again.
  - apply GetThisThreadID_fst.
  - intros other j. apply GetThisThreadID_keeps.
Qed.

Lemma GetThisThreadID_is_stable_witness :
  GetThisThreadID 9 (GetThisThreadID 9 {[ 7 := 0%Z ]}).2
    = (1%Z, <[9 := 1%Z]> {[ 7 := 0%Z ]})
  /\ (GetThisThreadID 9 {[ 7 := 0%Z ]}).2 !! 7 = Some 0%Z.
Proof.
  destruct (GetThisThreadID_is_stable 9 {[ 7 := 0%Z ]}) as (Hagain & _ & Hkeeps).
  split; [by rewrite Hagain|]. by apply Hkeeps.
Defined.

Lemma GetThisThreadID_dense (tid : ThreadId) (ids : thread_id_map_t) :
  dense ids -> distinct_indices ids ->
  dense (GetThisThreadID tid ids).2 /\ distinct_indices (GetThisThreadID tid ids).2.
Proof.
  intros Hdense Hdist. unfold GetThisThreadID. cbn.
  destruct (ids !! tid) as [i|] eqn:Hin; [done|]. split.
  - intros t j Hj. rewrite map_size_insert_None by done.
    destruct (decide (tid = t)) as [->|Hne].
    + rewrite lookup_insert_eq in Hj. simplify_eq. lia.
    + rewrite lookup_insert_ne in Hj by done.
      specialize (Hdense t j Hj). lia.
  - intros t1 t2 j H1 H2.
    destruct (decide (tid = t1)) as [<-|Hne1], (decide (tid = t2)) as [<-|Hne2];
      try done.
    + rewrite lookup_insert_eq in H1. rewrite lookup_insert_ne in H2 by done.
      simplify_eq. specialize (Hdense t2 _ H2). lia.
    + rewrite lookup_insert_eq in H2. rewrite lookup_insert_ne in H1 by done.
      simplify_eq. specialize (Hdense t1 _ H1). lia.
    + rewrite lookup_insert_ne in H1, H2 by done. by eapply Hdist.
Qed.

Lemma foldl_query_dense (tids : list ThreadId) (ids : thread_id_map_t) :
  dense ids -> distinct_indices ids ->
  dense (foldl (fun ids tid => (GetThisThreadID tid ids).2) ids tids)
  /\ distinct_indices (foldl (fun ids tid => (GetThisThreadID tid ids).2) ids tids).
Proof.
  revert ids. induction tids as [|tid tids IH]; intros ids Hd Hi; [done|].
  cbn [foldl]. destruct (GetThisThreadID_dense tid ids Hd Hi). by apply IH.
Qed.

Lemma foldl_query_keeps (tids : list ThreadId) (ids : thread_id_map_t)
    (tid : ThreadId) (i : Z) :
  ids !! tid = Some i ->
  foldl (fun ids tid => (GetThisThreadID tid ids).2) ids tids !! tid = Some i.
Proof.
  revert ids. induction tids as [|t tids IH]; intros ids Hin; [done|].
  cbn [foldl]. by apply IH, GetThisThreadID_keeps.
Qed.

Lemma foldl_query_registers (tids : list ThreadId) (ids : thread_id_map_t)
    (tid : ThreadId) :
  tid ∈ tids ->
  is_Some (foldl (fun ids tid => (GetThisThreadID tid ids).2) ids tids !! tid).
Proof.
  revert ids. induction tids as [|t tids IH]; intros ids Hin.
  { by apply elem_of_nil in Hin. }
  cbn [foldl]. destruct (decide (tid = t)) as [->|Hne].
  - eexists. apply foldl_query_keeps, GetThisThreadID_fst.
  - apply IH. apply elem_of_cons in Hin as [?|?]; done.
Qed.

(** X4. In a process whose registry is filled by [GetThisThreadID] alone,
    however many threads query and in whatever order, every thread that
    queried is registered, no two threads share an index, and every index
    is at least 0 and below the number of registered threads. *)
Theorem queries_issue_distinct_indices (tids : list ThreadId) :
  (forall tid, tid ∈ tids -> is_Some (queried tids !! tid))
  /\ distinct_indices (queried tids)
  /\ dense (queried tids).
Proof.
  assert (Hd : dense ∅) by (intros t i Hin; by rewrite lookup_empty in Hin).
  assert (Hi : distinct_indices ∅)
    by (intros t1 t2 i Hin; by rewrite lookup_empty in Hin).
  destruct (foldl_query_dense tids ∅ Hd Hi). split; [|done].
  intros tid. apply foldl_query_registers.
Qed.

Lemma queries_issue_distinct_indices_witness :
  queried [4; 9; 4; 2] !! 4 = Some 0%Z
  /\ queried [4; 9; 4; 2] !! 9 = Some 1%Z
  /\ queried [4; 9; 4; 2] !! 2 = Some 2%Z
  /\ (queried [4; 9; 4; 2] !! 9 = Some 1%Z ->
      queried [4; 9; 4; 2] !! 2 = Some 1%Z -> 9 = 2).
Proof.
  destruct (queries_issue_distinct_indices [4; 9; 4; 2]) as (_ & Hdist & _).
  do 3 (split; [reflexivity|]). apply Hdist.
Defined.

(** ** Growing and shrinking the pool *)

Section Resizing.
Context `{StateCodes}.

Lemma created_succ (spawn : nat -> option ThreadId) (i n : nat) :
  created spawn i (S n)
  = match spawn i with
    | Some tid => tid :: created spawn (S i) n
    | None => created spawn (S i) n
    end.
Proof. unfold created. cbn. by destruct (spawn i). Qed.

Lemma created_length (spawn : nat -> option ThreadId) (i n : nat) :
  length (created spawn i n) <= n.
Proof.
  revert i. induction n as [|n IH]; intros i; [done|].
  rewrite created_succ. specialize (IH (S i)). destruct (spawn i); cbn; lia.
Qed.

Lemma created_all (spawn : nat -> option ThreadId) (i n : nat) :
  (forall k, i <= k < i + n -> is_Some (spawn k)) ->
  length (created spawn i n) = n.
Proof.
  revert i. induction n as [|n IH]; intros i Hall; [done|].
  rewrite created_succ. destruct (Hall i) as [tid ->]; [lia|].
  cbn. rewrite IH; [done|]. intros k Hk. apply Hall. lia.
Qed.

Lemma spawn_loop_spec (spawn : nat -> option ThreadId) (this_tid : Z)
    (n i : nat) (w : Process) :
  let new := created spawn i n in
  let p := tp w in
  tp (spawn_loop spawn this_tid n i w)
  = mkPool (m_alive_flag p) (m_pool_size p + length new) (m_pool_state p)
           (m_thread_awake p) (m_is_joined p ++ replicate (length new) false)
           (m_is_stopped p) (m_main_threads p ++ new) (m_stop_threads p)
           (m_unique_threads p ++ new)
  /\ f_thread_ids (spawn_loop spawn this_tid n i w) = f_thread_ids w.
Proof.
  revert i w. induction n as [|n IH]; intros i w; cbn zeta.
  { cbn. rewrite !app_nil_r, Nat.add_0_r. by destruct w as [ids [] tr]. }
  cbn [spawn_loop]. rewrite created_succ. destruct (spawn i) as [tid|].
  - match goal with |- context [spawn_loop _ _ _ _ ?w1] =>
      destruct (IH (S i) w1) as [-> ->] end.
    cbn. split; [|done]. rewrite <- !app_assoc. cbn. f_equal. lia.
  - match goal with |- context [spawn_loop _ _ _ _ ?w1] =>
      destruct (IH (S i) w1) as [-> ->] end.
    done.
Qed.

Lemma initialize_grows (me : ThreadId) (spawn : nat -> option ThreadId)
    (fuel n : nat) (w : Process) :
  reaches_spawn_loop n w = true ->
  length (m_is_joined (tp w)) = length (m_main_threads (tp w)) ->
  let new := created spawn (m_pool_size (tp w)) (n - m_pool_size (tp w)) in
  exists w',
    initialize_threadpool me spawn fuel n w
    = Return (length (m_main_threads (tp w)) + length new) w'
    /\ m_main_threads (tp w') = m_main_threads (tp w) ++ new
    /\ m_unique_threads (tp w') = m_unique_threads (tp w) ++ new
    /\ m_is_joined (tp w') = m_is_joined (tp w) ++ replicate (length new) false
    /\ m_pool_size (tp w') = m_pool_size (tp w) + length new
    /\ m_alive_flag (tp w') = true.
Proof.
  intros Hreach Hsizes new.
  rewrite (initialize_reaching me spawn fuel n w Hreach).
  unfold reaches_spawn_loop in Hreach. unfold at_initialize_check.
  destruct (initialize_enter n w) as [w2|] eqn:Henter; [|done].
  unfold initialize_enter in Henter.
  destruct (n <? 1); [done|]. injection Henter as <-.
  match goal with |- context [initialize_spawn _ _ _ ?x] => set (w2 := x) in * end.
  assert (Hw2 : m_pool_size (tp w2) = m_pool_size (tp w)
                /\ m_is_joined (tp w2) = m_is_joined (tp w)
                /\ m_main_threads (tp w2) = m_main_threads (tp w)
                /\ m_unique_threads (tp w2) = m_unique_threads (tp w)
                /\ m_alive_flag (tp w2) = true)
    by (subst w2; by destruct (negb (m_alive_flag (tp w)))).
  clearbody w2. destruct Hw2 as (Hps & Hj & Hm & Hu & Ha).
  unfold initialize_spawn.
  destruct (GetThisThreadID me _) as [this_tid ids] eqn:Hids.
  match goal with |- context [spawn_loop spawn this_tid ?k ?i ?w1] =>
    destruct (spawn_loop_spec spawn this_tid k i w1) as [Hp _];
    set (w' := spawn_loop spawn this_tid k i w1) in * end.
  cbn zeta in Hp. cbn [tp with_ids] in Hp.
  rewrite Hps, Hj, Hm, Hu, Ha in Hp. fold new in Hp.
  exists w'. unfold initialize_check. rewrite Hp.
  cbn [m_is_joined m_main_threads m_unique_threads m_pool_size m_alive_flag].
  rewrite bool_decide_false
    by (rewrite !length_app, length_replicate; lia).
  by rewrite length_app.
Qed.

(** X5. A call of [initialize_threadpool] that reaches the spawn loop on a
    pool whose two vectors agree returns the new size of [m_main_threads]:
    the threads that [new Thread] produced are appended, in the order of
    their creation, to [m_main_threads] and to [m_unique_threads], one
    [false] per thread is appended to [m_is_joined], [m_pool_size] grows by
    their number and the pool is alive. A creation that throws is skipped
    without a retry, so the call returns less than what was proposed; it
    makes the pool as large as proposed when no creation throws. *)
Theorem initialize_appends_the_created_threads (me : ThreadId)
    (spawn : nat -> option ThreadId) (fuel n : nat) (w : Process)
    (Hreach : reaches_spawn_loop n w = true)
    (Hsizes : length (m_is_joined (tp w)) = length (m_main_threads (tp w))) :
  let new := created spawn (m_pool_size (tp w)) (n - m_pool_size (tp w)) in
  exists w',
    initialize_threadpool me spawn fuel n w
    = Return (length (m_main_threads (tp w)) + length new) w'
    /\ m_main_threads (tp w') = m_main_threads (tp w) ++ new
    /\ m_unique_threads (tp w') = m_unique_threads (tp w) ++ new
    /\ m_is_joined (tp w') = m_is_joined (tp w) ++ replicate (length new) false
    /\ m_pool_size (tp w') = m_pool_size (tp w) + length new
    /\ m_alive_flag (tp w') = true
    /\ m_pool_size (tp w') <= Nat.max n (m_pool_size (tp w))
    /\ ((forall i, m_pool_size (tp w) <= i < n -> is_Some (spawn i)) ->
        m_pool_size (tp w') = Nat.max n (m_pool_size (tp w))).
Proof.
  intros new.
  destruct (initialize_grows me spawn fuel n w Hreach Hsizes)
    as (w' & Hret & Hmain & Hunique & Hjoined & Hsize & Halive).
  fold new in Hret, Hmain, Hunique, Hjoined, Hsize.
  exists w'. do 6 (split; [done|]). rewrite Hsize.
  pose proof (created_length spawn (m_pool_size (tp w)) (n - m_pool_size (tp w))).
  subst new. split; [lia|].
  intros Hall. rewrite created_all; [lia|]. intros k Hk. apply Hall. lia.
Qed.

Lemma shrink_spins (fuel n : nat) (w : Process) :
  m_alive_flag (tp w) = true ->
  m_pool_size (tp w) ≠ 0 ->
  length (m_stop_threads (tp w)) <= length (m_is_joined (tp w)) ->
  n < length (erase_all (m_stop_threads (tp w)) (m_main_threads (tp w))) ->
  shrink fuel n w = OutOfFuel.
Proof.
  revert w. induction fuel as [|fuel IH]; intros w Halive Hpos Hj Hn; [done|].
  cbn [shrink]. rewrite (stop_thread_active w Halive Hpos), stop_thread_drain_spec.
  cbn [tp stop_thread_post emit on_tp with_tp m_stop_threads m_is_joined
       m_main_threads set_is_stopped].
  rewrite decide_True by done.
  apply Nat.ltb_lt in Hn as Hn'. rewrite Hn'.
  unfold erase_all in *. apply IH; cbn; try done; lia.
Qed.

(** X6. The loop [while(stop_thread() > proposed_size) ;] of a master that
    runs alone (alive pool, [m_pool_size] not 0, enough entries in
    [m_is_joined] for the acknowledgements waiting): when the first call of
    [stop_thread] leaves at most [proposed_size] identities in
    [m_main_threads], the loop ends with that one call, which has posted one
    token, and what is returned is the number of identities left; when it
    leaves more, no number of further calls ends the loop, each of them
    finding no acknowledgement to drain. *)
Theorem shrink_ends_with_the_first_call_or_never (n : nat) (w : Process)
    (Halive : m_alive_flag (tp w) = true)
    (Hpos : m_pool_size (tp w) ≠ 0)
    (Hjoined : length (m_stop_threads (tp w)) <= length (m_is_joined (tp w))) :
  let left := erase_all (m_stop_threads (tp w)) (m_main_threads (tp w)) in
  (length left <= n ->
   forall fuel, exists w',
     shrink (S fuel) n w = Return (length left) w'
     /\ m_main_threads (tp w') = left
     /\ m_pool_size (tp w') = length left
     /\ m_is_stopped (tp w') = m_is_stopped (tp w) ++ [true]
     /\ trace w' = trace w ++ [EvNotifyOne])
  /\ (n < length left -> forall fuel, shrink fuel n w = OutOfFuel).
Proof.
  intros left. split.
  - intros Hle fuel. cbn [shrink].
    rewrite (stop_thread_active w Halive Hpos), stop_thread_drain_spec.
    cbn [tp stop_thread_post emit on_tp with_tp m_stop_threads m_is_joined
         m_main_threads set_is_stopped].
    rewrite decide_True by done. fold left.
    apply Nat.ltb_ge in Hle as ->. eexists. split; [reflexivity|]. by cbn.
  - intros Hlt fuel. by apply shrink_spins.
Qed.

Lemma shrink_ends_with_the_first_call_or_never_witness :
  (exists w', shrink 1 2 one_acknowledged = Return 2 w'
              /\ m_main_threads (tp w') = [1; 3])
  /\ shrink 1000 1 one_acknowledged = OutOfFuel.
Proof.
  assert (Hpos : m_pool_size (tp one_acknowledged) ≠ 0) by (cbn; lia).
  assert (Hjoined : length (m_stop_threads (tp one_acknowledged))
                    <= length (m_is_joined (tp one_acknowledged))) by (cbn; lia).
  destruct (shrink_ends_with_the_first_call_or_never 2 one_acknowledged
              eq_refl Hpos Hjoined) as [Hends _].
  destruct (shrink_ends_with_the_first_call_or_never 1 one_acknowledged
              eq_refl Hpos Hjoined) as [_ Hspins].
  split.
  - destruct (Hends ltac:(vm_compute; lia) 0) as (w' & Hret & Hmain & _).
    exists w'. by split.
  - apply Hspins. vm_compute. lia.
Defined.

End Resizing.

Lemma initialize_appends_the_created_threads_witness :
  exists w',
    @initialize_threadpool spec_codes 0
      (fun i => if decide (i = 4) then None else Some (S i)) 0 6 three_started
    = Return 5 w'
    /\ m_main_threads (tp w') = [1; 2; 3; 4; 6]
    /\ m_is_joined (tp w') = [false; false; false; false; false]
    /\ m_pool_size (tp w') = 5.
Proof.
  destruct (@initialize_appends_the_created_threads spec_codes 0
              (fun i => if decide (i = 4) then None else Some (S i)) 0 6
              three_started eq_refl eq_refl)
    as (w' & Hret & Hmain & _ & Hjoined & Hsize & _).
  exists w'. split; [exact Hret|]. split; [exact Hmain|].
  split; [exact Hjoined|exact Hsize].
Defined.

(** ** What [destroy_threadpool] leaves behind *)

Lemma erase_ids_lookup (tids : list ThreadId) (ids : thread_id_map_t)
    (tid : ThreadId) :
  erase_ids tids ids !! tid = if decide (tid ∈ tids) then None else ids !! tid.
Proof.
  unfold erase_ids. revert ids. induction tids as [|t tids IH]; intros ids.
  { cbn. rewrite decide_False; [done|]. apply not_elem_of_nil. }
  cbn [foldl]. rewrite IH.
  destruct (decide (tid ∈ tids)) as [Hin|Hnin].
  - rewrite decide_True; [done|]. by apply elem_of_cons; right.
  - destruct (decide (tid = t)) as [->|Hne].
    + rewrite decide_True by (apply elem_of_cons; by left).
      apply lookup_delete_eq.
    + rewrite decide_False.
      * by apply lookup_delete_ne.
      * intros [?|?]%elem_of_cons; done.
Qed.

Lemma erase_first_elem_of (x tid : ThreadId) (l : list ThreadId) :
  x ∈ erase_first tid l -> x ∈ l.
Proof.
  induction l as [|y l IH]; cbn; [done|].
  destruct (decide (y = tid)); intros Hin.
  - by apply elem_of_cons; right.
  - apply elem_of_cons in Hin as [->|Hin]; apply elem_of_cons; auto.
Qed.

Lemma erase_first_NoDup (tid : ThreadId) (l : list ThreadId) :
  NoDup l -> NoDup (erase_first tid l) /\ tid ∉ erase_first tid l.
Proof.
  induction 1 as [|y l Hy Hnd [IHnd IHnin]]; cbn.
  { split; [constructor|apply not_elem_of_nil]. }
  destruct (decide (y = tid)) as [->|Hne]; [done|]. split.
  - constructor; [|done]. intros Hin. by apply Hy, (erase_first_elem_of y tid).
  - intros [?|?]%elem_of_cons; [congruence|done].
Qed.

Lemma erase_all_elem_of (x : ThreadId) (acks main : list ThreadId) :
  x ∈ erase_all acks main -> x ∈ main.
Proof.
  unfold erase_all. revert main. induction acks as [|a acks IH]; intros main; [done|].
  cbn [foldl]. intros Hin. by apply (erase_first_elem_of x a), IH.
Qed.

Lemma erase_all_removes (tid : ThreadId) (acks main : list ThreadId) :
  NoDup main -> tid ∈ acks -> tid ∉ erase_all acks main.
Proof.
  unfold erase_all. revert main.
  induction acks as [|a acks IH]; intros main Hnd Hin.
  { by apply elem_of_nil in Hin. }
  cbn [foldl]. destruct (erase_first_NoDup a main Hnd) as [Hnd' Hnin].
  destruct (decide (tid = a)) as [->|Hne].
  - intros Hin'. by apply Hnin, (erase_all_elem_of a acks).
  - apply IH; [done|]. apply elem_of_cons in Hin as [?|?]; done.
Qed.

Section Destroying.
Context `{StateCodes}.

Lemma destroy_threadpool_alive (me : ThreadId) (w : Process) :
  m_alive_flag (tp w) = true ->
  length (m_is_joined (tp w)) = length (m_main_threads (tp w)) ->
  destroy_threadpool me w
  = Return 0
      (mkProcess
         (erase_ids (m_main_threads (tp w)) (GetThisThreadID me (f_thread_ids w)).2)
         (mkPool false (m_pool_size (tp w)) STOPPED (m_thread_awake (tp w)) []
                 (m_is_stopped (tp w)) [] (m_stop_threads (tp w)) [])
         (trace w ++ [EvNotifyAll; EvNotifyAll]
                 ++ (EvJoin <$> m_unique_threads (tp w)))).
Proof.
  intros Halive Hsizes.
  unfold destroy_threadpool, destroy_finish, destroy_notify, destroy_store.
  destruct (GetThisThreadID me (f_thread_ids w)) as [nid ids]. cbn.
  rewrite Halive. cbn. rewrite bool_decide_false by (intros Hne; by apply Hne).
  unfold emit, on_tp, with_tp, with_ids. cbn. by rewrite <- app_assoc.
Qed.

(** X7. [destroy_threadpool] on an alive pool whose two vectors agree
    returns 0 after two broadcasts and one [join] for every handle in
    [m_unique_threads], in the order of their creation; it leaves the pool
    not alive, in state [STOPPED], with [m_main_threads], [m_is_joined] and
    [m_unique_threads] empty, and it keeps the stop tokens and the
    acknowledgements that nobody consumed. From the registry it erases the
    identities in [m_main_threads] and nothing else: every other thread,
    the caller included, keeps the index it had or was just given. *)
Theorem destroy_joins_clears_and_unregisters (me : ThreadId) (w : Process)
    (Halive : m_alive_flag (tp w) = true)
    (Hsizes : length (m_is_joined (tp w)) = length (m_main_threads (tp w))) :
  exists w',
    destroy_threadpool me w = Return 0 w'
    /\ trace w' = trace w ++ [EvNotifyAll; EvNotifyAll]
                          ++ (EvJoin <$> m_unique_threads (tp w))
    /\ m_alive_flag (tp w') = false
    /\ m_pool_state (tp w') = STOPPED
    /\ m_main_threads (tp w') = []
    /\ m_is_joined (tp w') = []
    /\ m_unique_threads (tp w') = []
    /\ m_is_stopped (tp w') = m_is_stopped (tp w)
    /\ m_stop_threads (tp w') = m_stop_threads (tp w)
    /\ (forall tid, tid ∈ m_main_threads (tp w) -> f_thread_ids w' !! tid = None)
    /\ (forall tid, tid ∉ m_main_threads (tp w) ->
          f_thread_ids w' !! tid = (GetThisThreadID me (f_thread_ids w)).2 !! tid)
    /\ (me ∉ m_main_threads (tp w) ->
          f_thread_ids w' !! me = Some (GetThisThreadID me (f_thread_ids w)).1).
Proof.
  eexists. split; [by apply destroy_threadpool_alive|].
  cbn [f_thread_ids tp trace m_alive_flag m_pool_state m_main_threads
       m_is_joined m_unique_threads m_is_stopped m_stop_threads].
  do 8 (split; [done|]). split; [|split].
  - intros tid Hin. rewrite erase_ids_lookup. by rewrite decide_True.
  - intros tid Hnin. rewrite erase_ids_lookup. by rewrite decide_False.
  - intros Hnin. rewrite erase_ids_lookup, decide_False by done.
    apply GetThisThreadID_fst.
Qed.

(** X8. A worker that [stop_thread] removed from the pool is forgotten only
    in part. On an alive pool whose vectors agree, with distinct
    identities in [m_main_threads] and the acknowledgements among them,
    [stop_thread] takes an acknowledged worker out of [m_main_threads]
    but leaves its handle in [m_unique_threads]; a [destroy_threadpool]
    that follows therefore still joins it, together with every other
    handle, but no longer erases it from the registry, where it keeps its
    index. *)
Theorem stopped_worker_is_joined_but_stays_registered (me tid : ThreadId)
    (i : Z) (w : Process)
    (Halive : m_alive_flag (tp w) = true)
    (Hpos : m_pool_size (tp w) ≠ 0)
    (Hsizes : length (m_is_joined (tp w)) = length (m_main_threads (tp w)))
    (Hmain : NoDup (m_main_threads (tp w)))
    (Hnd : NoDup (m_stop_threads (tp w)))
    (Hsub : m_stop_threads (tp w) ⊆ m_main_threads (tp w))
    (Hack : tid ∈ m_stop_threads (tp w))
    (Hreg : f_thread_ids w !! tid = Some i) :
  exists n w1 w2,
    stop_thread w = Return n w1
    /\ (tid ∉ m_main_threads (tp w1))
    /\ m_unique_threads (tp w1) = m_unique_threads (tp w)
    /\ destroy_threadpool me w1 = Return 0 w2
    /\ trace w2 = trace w ++ [EvNotifyOne; EvNotifyAll; EvNotifyAll]
                          ++ (EvJoin <$> m_unique_threads (tp w))
    /\ f_thread_ids w2 !! tid = Some i.
Proof.
  pose proof (erase_all_length_exact _ _ Hnd Hsub) as Hlen.
  pose proof (erase_all_removes tid _ _ Hmain Hack) as Hgone.
  rewrite (stop_thread_active w Halive Hpos), stop_thread_drain_spec.
  cbn [tp stop_thread_post emit on_tp with_tp m_stop_threads m_is_joined
       m_main_threads set_is_stopped].
  rewrite decide_True by lia.
  set (w1 := with_tp _ _).
  assert (Hsizes1 : length (m_is_joined (tp w1)) = length (m_main_threads (tp w1))).
  { subst w1. cbn. rewrite length_take. unfold erase_all in *. lia. }
  eexists _, w1, _. split; [reflexivity|]. split; [exact Hgone|].
  split; [done|].
  split; [by apply destroy_threadpool_alive|].
  cbn [f_thread_ids tp trace]. split.
  - subst w1. cbn. by rewrite <- app_assoc.
  - rewrite erase_ids_lookup, decide_False by exact Hgone.
    by apply GetThisThreadID_keeps.
Qed.

End Destroying.

Lemma destroy_joins_clears_and_unregisters_witness :
  exists w',
    @destroy_threadpool spec_codes 0 three_started = Return 0 w'
    /\ trace w' = [EvSpawn 1 1; EvSpawn 2 2; EvSpawn 3 3; EvNotifyAll;
                   EvNotifyAll; EvJoin 1; EvJoin 2; EvJoin 3]
    /\ m_alive_flag (tp w') = false
    /\ f_thread_ids w' !! 0 = Some 0%Z.
Proof.
  destruct (@destroy_joins_clears_and_unregisters spec_codes 0 three_started
              eq_refl eq_refl)
    as (w' & Hret & Htrace & Halive & _ & _ & _ & _ & _ & _ & _ & _ & Hme).
  exists w'. split; [exact Hret|]. split; [exact Htrace|]. split; [exact Halive|].
  apply Hme. cbn. rewrite !not_elem_of_cons.
  repeat split; try discriminate. apply not_elem_of_nil.
Defined.

Lemma stopped_worker_is_joined_but_stays_registered_witness :
  exists n w1 w2,
    stop_thread all_registered = Return n w1
    /\ (2 ∉ m_main_threads (tp w1))
    /\ @destroy_threadpool spec_codes 0 w1 = Return 0 w2
    /\ f_thread_ids w2 !! 2 = Some 2%Z.
Proof.
  assert (Hpos : m_pool_size (tp all_registered) ≠ 0) by discriminate.
  assert (Hmain : NoDup (m_main_threads (tp all_registered))) by list_facts.
  assert (Hnd : NoDup (m_stop_threads (tp all_registered))) by list_facts.
  assert (Hsub : m_stop_threads (tp all_registered)
                 ⊆ m_main_threads (tp all_registered)).
  { intros x [->|Hx]%elem_of_cons; [list_facts|by apply elem_of_nil in Hx]. }
  assert (Hack : 2 ∈ m_stop_threads (tp all_registered)) by list_facts.
  destruct (@stopped_worker_is_joined_but_stays_registered spec_codes 0 2 2%Z
              all_registered eq_refl Hpos eq_refl Hmain Hnd Hsub Hack eq_refl)
    as (n & w1 & w2 & Hstop & Hgone & _ & Hdestroy & _ & Hreg).
  by exists n, w1, w2.
Defined.

(** ** The pool state over the life of a pool *)

Section Initialized.
Context `{StateCodes} {Q : Type} `{VUserTaskQueue.ops Q}.

Lemma shrink_pool_state (fuel n : nat) (w w' : Process) :
  final (shrink fuel n w) = Some w' -> m_pool_state (tp w') = m_pool_state (tp w).
Proof.
  revert w. induction fuel as [|fuel IH]; intros w; cbn [shrink]; [done|].
  destruct (stop_thread w) as [k w1|e w1| |] eqn:Hstop; try done.
  - apply stop_thread_pool_state in Hstop. rewrite <- Hstop.
    destruct (n <? k); [apply IH|]. cbn. by intros [= ->].
  - pose proof (stop_thread_no_throw w) as Hno. by rewrite Hstop in Hno.
Qed.

Lemma initialize_pool_state (me : ThreadId) (spawn : nat -> option ThreadId)
    (fuel n : nat) (w w' : Process) :
  final (initialize_threadpool me spawn fuel n w) = Some w' ->
  m_pool_state (tp w')
  = if m_alive_flag (tp w) || (n <? 1) then m_pool_state (tp w) else STARTED.
Proof.
  unfold initialize_threadpool, initialize_enter.
  destruct (n <? 1).
  { rewrite orb_true_r. cbn. by intros [= ->]. }
  rewrite orb_false_r.
  match goal with |- context [on_tp (set_alive_flag true) ?x] =>
    set (w2 := on_tp (set_alive_flag true) x) end.
  assert (Hw2 : m_pool_state (tp w2)
                = if m_alive_flag (tp w) then m_pool_state (tp w) else STARTED)
    by (subst w2; by destruct (m_alive_flag (tp w))).
  clearbody w2. rewrite <- Hw2. clear Hw2.
  destruct (_ && _); [apply shrink_pool_state|].
  destruct (_ && _); [cbn; by intros [= ->]|].
  unfold initialize_spawn.
  destruct (GetThisThreadID me (f_thread_ids w2)) as [this_tid ids].
  match goal with |- context [spawn_loop spawn this_tid ?k ?i ?w1] =>
    destruct (spawn_loop_spec spawn this_tid k i w1) as [Hp _] end.
  unfold initialize_check. case_bool_decide; cbn; intros [= <-]; by rewrite Hp.
Qed.

Lemma destroy_pool_state (me : ThreadId) (w w' : Process) :
  final (destroy_threadpool me w) = Some w' -> m_pool_state (tp w') = STOPPED.
Proof.
  unfold destroy_threadpool, destroy_finish, destroy_notify, destroy_store.
  destruct (GetThisThreadID me (f_thread_ids w)) as [nid ids]. cbn.
  destruct (m_alive_flag (tp w)); cbn; [case_bool_decide|]; cbn;
    by intros [= <-].
Qed.

Lemma sys_step_pool_state (a : action Q) sys sys' :
  sys_step a sys = Some sys' ->
  m_pool_state (sys_pool sys') = m_pool_state (sys_pool sys)
  \/ m_pool_state (sys_pool sys') = STOPPED.
Proof.
  unfold sys_step, sys_pool. destruct a as [tid|f| | |me| |]; intros Hstep.
  - left. repeat case_match; simplify_eq; try done.
    cbn. unfold the_pool in *. cbn.
    match goal with Hw : execute_thread_step _ _ _ = Some _ |- _ =>
      apply step_pool_state in Hw; unfold the_pool in Hw; by rewrite Hw end.
  - left. by simplify_eq.
  - left. repeat case_match; by simplify_eq.
  - left. destruct (mutex_free (shared sys)); [|by simplify_eq].
    rewrite stop_thread_drain_spec in Hstep. case_decide; by simplify_eq.
  - right. simplify_eq. unfold the_pool, destroy_store. cbn.
    by destruct (GetThisThreadID me (f_thread_ids (proc (shared sys)))).
  - left. case_match; by simplify_eq.
  - left. destruct (all_returned sys); [|by simplify_eq].
    unfold destroy_finish in Hstep.
    destruct (m_alive_flag (tp (proc (shared sys)))); cbn in Hstep;
      [case_bool_decide|]; by simplify_eq.
Qed.

Lemma is_initialized_spec (p : ThreadPool) :
  is_initialized p = true <-> m_pool_state p ≠ NONINIT.
Proof.
  unfold is_initialized. rewrite negb_true_iff, Z.eqb_neq. done.
Qed.

Lemma run_is_initialized sched sys sys' :
  STOPPED ≠ NONINIT ->
  run sched sys = Some sys' ->
  is_initialized (sys_pool sys) = true -> is_initialized (sys_pool sys') = true.
Proof.
  intros Hstopped. revert sys.
  induction sched as [|a sched IH]; intros sys Hrun Hinit; cbn in Hrun.
  - by simplify_eq.
  - destruct (sys_step a sys) as [sys1|] eqn:Hstep; [|done].
    apply (IH sys1 Hrun). apply is_initialized_spec.
    apply is_initialized_spec in Hinit.
    destruct (sys_step_pool_state a sys sys1 Hstep) as [-> | ->]; done.
Qed.

(** X9. [is_initialized()] is never undone. A pool is not initialized
    when its constructor has set its members; a call of
    [initialize_threadpool] on a pool that is not alive initializes it
    exactly when the proposed size is at least 1, and no call of
    [initialize_threadpool], no [destroy_threadpool] and no interleaving
    of worker statements, queue operations and the phases of
    [stop_thread] and [destroy_threadpool] takes an initialized pool back:
    after [destroy_threadpool] the pool counts as initialized, also one
    that had never been started. *)
Theorem is_initialized_is_never_undone
    (Hstarted : STARTED ≠ NONINIT) (Hstopped : STOPPED ≠ NONINIT) :
  is_initialized fresh_pool = false
  /\ (forall me spawn fuel n w w',
        final (initialize_threadpool me spawn fuel n w) = Some w' ->
        (is_initialized (tp w) = true -> is_initialized (tp w') = true)
        /\ (m_alive_flag (tp w) = false ->
            is_initialized (tp w') = is_initialized (tp w) || (1 <=? n)))
  /\ (forall me w w',
        final (destroy_threadpool me w) = Some w' ->
        is_initialized (tp w') = true)
  /\ (forall sched sys sys',
        run sched sys = Some sys' ->
        is_initialized (sys_pool sys) = true ->
        is_initialized (sys_pool sys') = true).
Proof.
  split; [|split; [|split]].
  - unfold is_initialized, fresh_pool. cbn. by rewrite Z.eqb_refl.
  - intros me spawn fuel n w w' Hfinal.
    apply initialize_pool_state in Hfinal. split.
    + rewrite !is_initialized_spec, Hfinal. by destruct (_ || _).
    + intros Hdead. unfold is_initialized. rewrite Hfinal, Hdead. cbn.
      destruct n as [|n]; cbn; [by rewrite orb_false_r|].
      rewrite orb_true_r. by apply negb_true_iff, Z.eqb_neq.
  - intros me w w' Hfinal. apply is_initialized_spec.
    by rewrite (destroy_pool_state me w w' Hfinal).
  - intros sched sys sys'. by apply run_is_initialized.
Qed.

(** ** Constructor and destructor *)

Lemma spawn_loop_trace (spawn : nat -> option ThreadId) (this_tid : Z)
    (n i : nat) (w : Process) :
  trace (spawn_loop spawn this_tid n i w)
  = trace w ++ spawn_events spawn this_tid i n.
Proof.
  unfold spawn_events. revert i w.
  induction n as [|n IH]; intros i w; cbn [spawn_loop seq fmap list_fmap].
  { by rewrite app_nil_r. }
  rewrite IH. destruct (spawn i); cbn; by rewrite <- app_assoc.
Qed.

Lemma ThreadPool_ctor_spec (me : ThreadId) (spawn : nat -> option ThreadId)
    (fuel n : nat) (ids : thread_id_map_t) :
  1 <= n ->
  let new := created spawn 0 n in
  let master := GetThisThreadID me ids in
  ThreadPool_ctor me spawn fuel n ids
  = Return (length new)
      (mkProcess master.2
         (mkPool true (length new) STARTED 0 (replicate (length new) false) []
                 new [] new)
         (spawn_events spawn master.1 0 n)).
Proof.
  intros Hn new master. unfold ThreadPool_ctor. subst master.
  destruct (GetThisThreadID me ids) as [master_id ids'] eqn:Hmaster.
  cbn [fst snd].
  unfold initialize_threadpool, initialize_enter.
  destruct (Nat.ltb_spec n 1) as [|_]; [lia|].
  cbn [m_alive_flag tp fresh_pool negb on_tp with_tp set_pool_state
       set_alive_flag m_pool_state m_pool_size].
  rewrite Z.eqb_refl. cbn [andb Nat.ltb Nat.leb].
  destruct (Nat.eqb_spec 0 n) as [|_]; [lia|].
  unfold initialize_spawn.
  cbn [f_thread_ids on_tp with_tp tp set_alive_flag set_pool_state m_pool_size
       fresh_pool].
  assert (Hagain : GetThisThreadID me ids' = (master_id, ids')).
  { pose proof (GetThisThreadID_again me ids) as Haux.
    by rewrite Hmaster in Haux. }
  rewrite Hagain. cbn [tp m_pool_size]. rewrite Nat.sub_0_r.
  match goal with |- context [spawn_loop spawn master_id n 0 ?w1] =>
    destruct (spawn_loop_spec spawn master_id n 0 w1) as [Hp Hids];
    pose proof (spawn_loop_trace spawn master_id n 0 w1) as Htr;
    set (w' := spawn_loop spawn master_id n 0 w1) in * end.
  cbn in Hp, Hids, Htr. fold new in Hp.
  unfold initialize_check. rewrite Hp. cbn.
  rewrite bool_decide_false by (rewrite length_replicate; lia).
  f_equal. destruct w' as [ids1 p1 tr1]. cbn in *. by subst.
Qed.

(** X10. A pool and its destructor. The constructor called with size 0
    creates nothing and leaves the pool not alive, and the destructor of
    such a pool does nothing at all: the state stays [NONINIT] and no
    waiter is notified. The constructor called with a size of at least 1
    passes to the thread of iteration [i] the index of the constructing
    thread plus [i + 1], and returns the number of threads that could be
    created; the destructor then broadcasts twice and joins each of them
    once, in the order of their creation, leaves the pool in state
    [STOPPED] and not alive, and gives every thread outside the pool the
    registry entry it had when the constructor had looked up its own. *)
Theorem destructor_joins_what_the_constructor_created (me : ThreadId)
    (spawn : nat -> option ThreadId) (fuel : nat) (ids : thread_id_map_t) :
  (exists w0,
     ThreadPool_ctor me spawn fuel 0 ids = Return 0 w0
     /\ tp w0 = fresh_pool
     /\ ThreadPool_dtor me w0 = Returns w0)
  /\ (forall n, 1 <= n ->
      let new := created spawn 0 n in
      let master := GetThisThreadID me ids in
      exists w1 w2,
        ThreadPool_ctor me spawn fuel n ids = Return (length new) w1
        /\ trace w1 = spawn_events spawn master.1 0 n
        /\ m_main_threads (tp w1) = new
        /\ ThreadPool_dtor me w1 = Returns w2
        /\ trace w2 = spawn_events spawn master.1 0 n
                      ++ [EvNotifyAll; EvNotifyAll] ++ (EvJoin <$> new)
        /\ m_alive_flag (tp w2) = false
        /\ m_pool_state (tp w2) = STOPPED
        /\ (forall tid, tid ∉ new -> f_thread_ids w2 !! tid = master.2 !! tid)).
Proof.
  split.
  - unfold ThreadPool_ctor.
    destruct (GetThisThreadID me ids) as [master_id ids']. by eexists.
  - intros n Hn new master.
    pose proof (ThreadPool_ctor_spec me spawn fuel n ids Hn) as Hctor.
    cbn zeta in Hctor. fold new master in Hctor.
    eexists _, _. split; [exact Hctor|]. split; [done|]. split; [done|].
    unfold ThreadPool_dtor. cbn [tp m_alive_flag].
    rewrite destroy_threadpool_alive
      by (cbn; by rewrite ?length_replicate).
    split; [reflexivity|]. cbn [trace tp m_alive_flag m_pool_state
      m_unique_threads m_main_threads f_thread_ids].
    do 3 (split; [done|]).
    intros tid Hnin. rewrite erase_ids_lookup, decide_False by done.
    subst master. by rewrite GetThisThreadID_again.
Qed.

End Initialized.

Lemma is_initialized_is_never_undone_witness :
  @is_initialized spec_codes (@fresh_pool spec_codes) = false
  /\ (exists w',
        final (@destroy_threadpool spec_codes 0 never_started) = Some w'
        /\ @is_initialized spec_codes (tp w') = true).
Proof.
  destruct (@is_initialized_is_never_undone spec_codes (list Task) fifo_queue
              ltac:(done) ltac:(done)) as (Hfresh & _ & Hdestroy & _).
  split; [exact Hfresh|]. eexists. split; [reflexivity|].
  by apply (Hdestroy 0 never_started).
Defined.

Lemma destructor_joins_what_the_constructor_created_witness :
  exists w1 w2,
    @ThreadPool_ctor spec_codes 0 (fun i => Some (S i)) 0 3 ∅ = Return 3 w1
    /\ trace w1 = [EvSpawn 1 1; EvSpawn 2 2; EvSpawn 3 3]
    /\ @ThreadPool_dtor spec_codes 0 w1 = Returns w2
    /\ trace w2 = [EvSpawn 1 1; EvSpawn 2 2; EvSpawn 3 3; EvNotifyAll;
                   EvNotifyAll; EvJoin 1; EvJoin 2; EvJoin 3]
    /\ f_thread_ids w2 !! 0 = Some 0%Z.
Proof.
  destruct (@destructor_joins_what_the_constructor_created spec_codes 0
              (fun i => Some (S i)) 0 ∅) as [_ Hpool].
  destruct (Hpool 3 ltac:(lia))
    as (w1 & w2 & Hctor & Htr1 & _ & Hdtor & Htr2 & _ & _ & Hreg).
  exists w1, w2. split; [exact Hctor|]. split; [exact Htr1|].
  split; [exact Hdtor|]. split; [exact Htr2|].
  rewrite Hreg; [reflexivity|]. list_facts.
Defined.

(** ** The mutex and the [within_task] flag over a run *)

Section Invariants.
Context `{StateCodes} {Q : Type} `{VUserTaskQueue.ops Q}.

Lemma step_lock (tid : ThreadId) (s : Shared Q) wk s' wk' (evs : list event) :
  execute_thread_step tid s wk = Some (s', wk', evs) ->
  (owns_lock wk = true -> m_task_lock s = Some tid /\ may_hold (pc wk) = true) ->
  (pc wk = at_wait -> owns_lock wk = true) ->
  (m_task_lock s = Some tid -> owns_lock wk = true) ->
  (owns_lock wk' = true -> m_task_lock s' = Some tid /\ may_hold (pc wk') = true)
  /\ (pc wk' = at_wait -> owns_lock wk' = true)
  /\ (m_task_lock s' = Some tid -> owns_lock wk' = true)
  /\ (forall other, other ≠ tid ->
        m_task_lock s' = Some other <-> m_task_lock s = Some other).
Proof.
  intros Hstep Hown Hwait Hlock.
  destruct (owns_lock wk) eqn:Ho.
  - destruct Hown as [Hs Hmay]; [done|].
    destruct wk as [l o g]. cbn in *. subst o.
    destruct l as [| | | | | | | | |[]|[]| | | | | | | | | | | | |]; try done;
      step_inv Hstep; unfold lock_if_not_owned, unlock_if_owned in *;
      cbn in *; simplify_eq; cbn;
      (split; [|split; [|split]]); try done; try (intros [? ?]; done);
      try (intros other Hne; rewrite Hs; split; intros; simplify_eq); try done.
  - clear Hown.
    assert (Hfree : m_task_lock s ≠ Some tid) by (intros Hs; by apply Hlock in Hs).
    destruct wk as [l o g]. cbn in *. subst o.
    destruct l as [| | | | | | | | |[]|[]| | | | | | | | | | | | |];
      try (by specialize (Hwait eq_refl));
      step_inv Hstep; unfold lock_if_not_owned, unlock_if_owned in *;
      cbn in *; repeat case_match; simplify_eq; cbn in *;
      (split; [|split; [|split]]); try done;
      try (intros other Hne; split; intros; simplify_eq; done);
      repeat match goal with b : block |- _ => destruct b end; done.
Qed.

Lemma sys_step_well_locked (a : action Q) sys sys' :
  sys_step a sys = Some sys' -> well_locked sys -> well_locked sys'.
Proof.
  intros Hstep [Hwk Hlk].
  assert (Hsame : forall sh : Shared Q, m_task_lock sh = m_task_lock (shared sys) ->
            well_locked (mkSystem sh (threads sys))).
  { intros sh Hsh. split; cbn; intros tid; rewrite ?Hsh; [apply Hwk|apply Hlk]. }
  unfold sys_step in Hstep. destruct a as [tid|f| | |me| |].
  - destruct (threads sys !! tid) as [wk|] eqn:Hw; [|by simplify_eq].
    destruct (execute_thread_step tid (shared sys) wk) as [[[s1 wk1] evs]|] eqn:Hs;
      [|by simplify_eq].
    simplify_eq. destruct (Hwk tid wk Hw) as [Hown Hwait].
    destruct (step_lock tid (shared sys) wk s1 wk1 evs Hs Hown Hwait)
      as (Hown' & Hwait' & Hlock' & Hother).
    { intros Hl. destruct (Hlk tid Hl) as (wk0 & Hw0 & Ho). by simplify_eq. }
    split; cbn.
    + intros t wk0 Ht. destruct (decide (t = tid)) as [->|Hne].
      * rewrite lookup_insert_eq in Ht. by simplify_eq.
      * rewrite lookup_insert_ne in Ht by done.
        destruct (Hwk t wk0 Ht) as [Ho0 Hw0]. split; [|done].
        intros Ho. destruct (Ho0 Ho) as [Hl Hm]. split; [|done].
        by apply Hother.
    + intros t Hl. destruct (decide (t = tid)) as [->|Hne].
      * exists wk1. rewrite lookup_insert_eq. split; [done|]. by apply Hlock'.
      * rewrite lookup_insert_ne by done. apply Hlk. by apply Hother.
  - simplify_eq. by apply Hsame.
  - repeat case_match; simplify_eq; try done; by apply Hsame.
  - repeat case_match; simplify_eq; try done; by apply Hsame.
  - simplify_eq. by apply Hsame.
  - repeat case_match; simplify_eq; try done; by apply Hsame.
  - repeat case_match; simplify_eq; try done; by apply Hsame.
Qed.

Lemma run_well_locked sched sys sys' :
  run sched sys = Some sys' -> well_locked sys -> well_locked sys'.
Proof.
  revert sys. induction sched as [|a sched IH]; intros sys Hrun Hinv; cbn in Hrun.
  - by simplify_eq.
  - destruct (sys_step a sys) as [sys1|] eqn:Hstep; [|done].
    apply (IH sys1 Hrun). by eapply sys_step_well_locked.
Qed.

(** X11. The mutex discipline of [execute_thread] holds in every run:
    from a system in which the owner of [m_task_lock] and the lock
    objects of the workers agree, every interleaving of worker
    statements, queue operations and the phases of [stop_thread] and
    [destroy_threadpool] leads to one in which they agree again. So at
    most one worker holds the mutex; from one statement to the next a
    worker holds it only between [m_task_cond.wait] and the unlock of
    lines 584-585 (the [PARTIAL] branch of [leave_pool()] takes and
    releases it within the statement); tasks are taken from the queue,
    invoked and deleted without the mutex; and a worker that sleeps in
    the wait or has returned does not hold it. *)
Theorem mutex_is_held_only_around_the_wait sched sys sys'
    (Hrun : run sched sys = Some sys')
    (Hinv : well_locked sys) :
  well_locked sys'
  /\ (forall t1 t2 wk1 wk2,
        threads sys' !! t1 = Some wk1 -> threads sys' !! t2 = Some wk2 ->
        owns_lock wk1 = true -> owns_lock wk2 = true -> t1 = t2)
  /\ (forall tid wk,
        threads sys' !! tid = Some wk ->
        may_hold (pc wk) = false ->
        owns_lock wk = false /\ m_task_lock (shared sys') ≠ Some tid).
Proof.
  pose proof (run_well_locked sched sys sys' Hrun Hinv) as [Hwk Hlk].
  split; [by split|]. split.
  - intros t1 t2 wk1 wk2 H1 H2 Ho1 Ho2.
    destruct (Hwk t1 wk1 H1) as [Hl1 _]. destruct (Hwk t2 wk2 H2) as [Hl2 _].
    destruct (Hl1 Ho1) as [Hs1 _]. destruct (Hl2 Ho2) as [Hs2 _]. congruence.
  - intros tid wk Hw Hmay. destruct (Hwk tid wk Hw) as [Hown _].
    assert (Ho : owns_lock wk = false).
    { destruct (owns_lock wk); [|done]. destruct Hown as [_ Hm]; [done|].
      congruence. }
    split; [done|]. intros Hl. destruct (Hlk tid Hl) as (wk0 & Hw0 & Ho0).
    simplify_eq. congruence.
Qed.

Lemma step_guard (tid : ThreadId) (s : Shared Q) wk s' wk' (evs : list event) :
  execute_thread_step tid s wk = Some (s', wk', evs) ->
  (is_start (pc wk) = false -> within_task wk = in_task (pc wk)) ->
  is_start (pc wk') = false /\ within_task wk' = in_task (pc wk').
Proof.
  intros Hstep Hg. destruct wk as [l o g]. cbn in *.
  destruct l as [| | | | | | | | |[]|[]| | | | | | | | | | | | |];
    try specialize (Hg eq_refl); cbn in Hg; subst;
    step_inv Hstep; cbn; try done;
    repeat match goal with
           | b : block |- _ => destruct b
           | st : site |- _ => destruct st
           end; done.
Qed.

Lemma sys_step_well_guarded (a : action Q) sys sys' :
  sys_step a sys = Some sys' -> well_guarded sys -> well_guarded sys'.
Proof.
  intros Hstep Hg. unfold sys_step in Hstep. destruct a as [tid|f| | |me| |];
    try (repeat case_match; by simplify_eq).
  destruct (threads sys !! tid) as [wk|] eqn:Hw; [|by simplify_eq].
  destruct (execute_thread_step tid (shared sys) wk) as [[[s1 wk1] evs]|] eqn:Hs;
    [|by simplify_eq].
  simplify_eq. intros t wk0 Ht. cbn in Ht.
  destruct (decide (t = tid)) as [->|Hne].
  - rewrite lookup_insert_eq in Ht. simplify_eq.
    intros _.
    by destruct (step_guard tid (shared sys) wk s1 wk0 evs Hs (Hg tid wk Hw)).
  - rewrite lookup_insert_ne in Ht by done. exact (Hg t wk0 Ht).
Qed.

(** X12. The guard against recursive deadlock is set exactly around the
    task blocks, in every run: from a system in which each worker (past
    the construction of its [ThreadData]) has [within_task] set exactly
    at the points between a store of [true] and the next store of
    [false], every interleaving of worker statements, queue operations
    and the phases of [stop_thread] and [destroy_threadpool] leads to such
    a system. So a task is invoked and deleted with [within_task] set, and
    a worker that tests the wait loop, evaluates [leave_pool()], waits
    or has returned has it cleared. *)
Theorem within_task_is_set_around_the_task_blocks sched sys sys'
    (Hrun : run sched sys = Some sys')
    (Hinv : well_guarded sys) :
  well_guarded sys'
  /\ (forall tid wk b t,
        threads sys' !! tid = Some wk ->
        pc wk = at_call b t \/ pc wk = at_dispose b t ->
        within_task wk = true)
  /\ (forall tid wk site,
        threads sys' !! tid = Some wk ->
        pc wk = at_wait_test \/ pc wk = at_leave site \/ pc wk = at_wait
        \/ pc wk = blocked \/ pc wk = returned ->
        within_task wk = false).
Proof.
  assert (Hinv' : well_guarded sys').
  { revert sys Hrun Hinv.
    induction sched as [|a sched IH]; intros sys Hrun Hinv; cbn in Hrun.
    - by simplify_eq.
    - destruct (sys_step a sys) as [sys1|] eqn:Hstep; [|done].
      apply (IH sys1 Hrun). by eapply sys_step_well_guarded. }
  split; [done|]. split.
  - intros tid wk b t Hw Hpc. specialize (Hinv' tid wk Hw).
    destruct Hpc as [Hpc|Hpc]; rewrite Hpc in Hinv'; by apply Hinv'.
  - intros tid wk site Hw Hpc. specialize (Hinv' tid wk Hw).
    destruct Hpc as [Hpc|[Hpc|[Hpc|[Hpc|Hpc]]]]; rewrite Hpc in Hinv';
      by apply Hinv'.
Qed.

End Invariants.

Lemma busy_pool_well_locked : well_locked busy_pool.
Proof.
  split; [|done]. intros tid wk Hw. cbn in Hw.
  apply lookup_insert_Some in Hw as [[<- <-]|[Hne Hw]]; [done|].
  apply lookup_singleton_Some in Hw as [<- <-]. done.
Qed.

Lemma busy_pool_well_guarded : well_guarded busy_pool.
Proof.
  intros tid wk Hw. cbn in Hw.
  apply lookup_insert_Some in Hw as [[<- <-]|[Hne Hw]]; [done|].
  apply lookup_singleton_Some in Hw as [<- <-]. done.
Qed.

Lemma mutex_is_held_only_around_the_wait_witness :
  @run spec_codes _ _ (DestroyStore 0 :: shutdown) busy_pool = Some after_shutdown
  /\ well_locked after_shutdown.
Proof.
  pose proof shutdown_runs as Hrun.
  destruct (@mutex_is_held_only_around_the_wait spec_codes _ _
              (DestroyStore 0 :: shutdown) busy_pool after_shutdown Hrun
              busy_pool_well_locked) as [Hinv _].
  by split.
Defined.

Lemma within_task_is_set_around_the_task_blocks_witness :
  @run spec_codes _ _ (DestroyStore 0 :: shutdown) busy_pool = Some after_shutdown
  /\ well_guarded after_shutdown.
Proof.
  pose proof shutdown_runs as Hrun.
  destruct (@within_task_is_set_around_the_task_blocks spec_codes _ _
              (DestroyStore 0 :: shutdown) busy_pool after_shutdown Hrun
              busy_pool_well_guarded) as [Hinv _].
  by split.
Defined.

(** ** Stop tokens over a run *)

Section Tokens.
Context `{StateCodes} {Q : Type} `{VUserTaskQueue.ops Q}.

Lemma returns_app (l1 l2 : list event) : returns (l1 ++ l2) = returns l1 + returns l2.
Proof. induction l1 as [|[] l1 IH]; cbn; by rewrite ?IH. Qed.

Lemma returns_none (evs : list event) :
  Forall (fun e => thread_of e = None) evs -> returns evs = 0.
Proof.
  induction 1 as [|e evs He _ IH]; [done|]. by destruct e.
Qed.

Lemma step_token_count (tid : ThreadId) (s : Shared Q) wk s' wk'
    (evs : list event) :
  execute_thread_step tid s wk = Some (s', wk', evs) ->
  m_pool_state (the_pool s) ≠ STOPPED ->
  length (m_is_stopped (the_pool s')) + returns evs
  = length (m_is_stopped (the_pool s))
  /\ (Forall (eq true) (m_is_stopped (the_pool s)) ->
      Forall (eq true) (m_is_stopped (the_pool s'))).
Proof.
  intros Hstep Hst.
  destruct (token_available (the_pool s)) eqn:Htok.
  - apply token_available_spec in Htok as [l Hl].
    pose proof (fun t => acknowledge_spec t (the_pool s) l Hl) as Hack.
    step_inv Hstep;
      try match goal with Hv : leave_verdict _ = Leave |- _ =>
            by apply leave_verdict_Leave in Hv end;
      unfold lock_if_not_owned, unlock_if_owned, the_pool in *;
      repeat case_match; simplify_eq; cbn;
      rewrite ?Hl, ?removelast_last, ?length_app; cbn;
      repeat case_match; cbn; (split; [lia|]);
      try done; by intros [? _]%Forall_app.
  - step_inv Hstep;
      try match goal with Hv : leave_verdict _ = Leave |- _ =>
            by apply leave_verdict_Leave in Hv end;
      unfold lock_if_not_owned, unlock_if_owned, the_pool in *;
      repeat case_match; simplify_eq; cbn;
      repeat case_match; cbn; (split; [lia|]); done.
Qed.

Lemma sys_step_token_count (a : action Q) sys sys' :
  is_store a = false ->
  sys_step a sys = Some sys' ->
  m_pool_state (sys_pool sys) ≠ STOPPED ->
  m_pool_state (sys_pool sys') = m_pool_state (sys_pool sys)
  /\ exists evs posted,
       sys_trace sys' = sys_trace sys ++ evs
       /\ posted <= length (filter is_post [a])
       /\ length (m_is_stopped (sys_pool sys')) + returns evs
          = length (m_is_stopped (sys_pool sys)) + posted
       /\ (Forall (eq true) (m_is_stopped (sys_pool sys)) ->
           Forall (eq true) (m_is_stopped (sys_pool sys'))).
Proof.
  intros Ha Hstep Hst.
  destruct (sys_step_inv a sys sys' Hstep) as (evs & Htr & Hinv).
  unfold sys_pool in *.
  assert (Hsame : returns evs = 0 ->
            tp (proc (shared sys')) = tp (proc (shared sys)) ->
            m_pool_state (the_pool (shared sys'))
            = m_pool_state (the_pool (shared sys))
            /\ exists evs0 posted,
                 sys_trace sys' = sys_trace sys ++ evs0
                 /\ posted <= length (filter is_post [a])
                 /\ length (m_is_stopped (the_pool (shared sys'))) + returns evs0
                    = length (m_is_stopped (the_pool (shared sys))) + posted
                 /\ (Forall (eq true) (m_is_stopped (the_pool (shared sys))) ->
                     Forall (eq true) (m_is_stopped (the_pool (shared sys'))))).
  { intros Hnone Htp. unfold the_pool. rewrite Htp. split; [done|].
    exists evs, 0. rewrite Hnone. repeat split; try done; lia. }
  destruct a as [tid|f| | |me| |]; try done.
  - destruct Hinv as [[-> ->]|(wk & s1 & wk' & Hw & Hs & ->)]; [by apply Hsame|].
    destruct (step_token_count tid (shared sys) wk s1 wk' evs Hs Hst)
      as [Hcount Htrue].
    split; [by apply step_pool_state in Hs|].
    exists evs, 0. split; [done|]. split; [cbn; lia|]. split; [|done].
    unfold the_pool in *. cbn. lia.
  - destruct Hinv as [_ Hnone]. apply returns_none in Hnone.
    unfold sys_step in Hstep. simplify_eq. by apply Hsame.
  - destruct Hinv as [_ Hnone]. apply returns_none in Hnone.
    unfold sys_step in Hstep.
    repeat case_match; simplify_eq; try (by apply Hsame).
    split; [done|]. exists evs, 1. rewrite Hnone.
    unfold the_pool. cbn. rewrite length_app. cbn.
    split; [done|]. split; [done|]. split; [lia|].
    intros Hall. apply Forall_app. split; [done|]. by constructor.
  - destruct Hinv as [_ Hnone]. apply returns_none in Hnone.
    unfold sys_step in Hstep.
    destruct (mutex_free (shared sys)); [|simplify_eq; by apply Hsame].
    rewrite stop_thread_drain_spec in Hstep. case_decide; simplify_eq.
    split; [done|]. exists evs, 0. rewrite Hnone. repeat split; try done; lia.
  - destruct Hinv as [_ Hnone]. apply returns_none in Hnone.
    unfold sys_step in Hstep.
    repeat case_match; simplify_eq; by apply Hsame.
  - destruct Hinv as [_ Hnone]. apply returns_none in Hnone.
    unfold sys_step in Hstep.
    destruct (all_returned sys); [|simplify_eq; by apply Hsame].
    unfold destroy_finish in Hstep.
    destruct (m_alive_flag (tp (proc (shared sys)))) eqn:Halive; cbn in Hstep;
      [case_bool_decide|]; simplify_eq; try (by apply Hsame).
    split; [done|]. exists evs, 0. rewrite Hnone. repeat split; try done; lia.
Qed.

(** X13. One stop token stops at most one worker. While the pool state
    is not [STOPPED] (no [STOPPED] store in the schedule), in every
    interleaving of worker statements, queue operations, the phases of
    [stop_thread] and the other phases of [destroy_threadpool], the
    number of tokens in [m_is_stopped] and the number of workers that
    have returned add up to the number of tokens there were and the
    number of tokens the [stop_thread] calls have posted since; a
    [stop_thread] call posts at most one, and every token is [true]
    (the test of [m_is_stopped.back()] never finds [false]). *)
Theorem one_token_stops_at_most_one_worker sched sys sys'
    (Hstate : m_pool_state (sys_pool sys) ≠ STOPPED)
    (Hsched : Forall (fun a => is_store a = false) sched)
    (Hrun : run sched sys = Some sys') :
  exists new posted,
    sys_trace sys' = sys_trace sys ++ new
    /\ posted <= length (filter is_post sched)
    /\ length (m_is_stopped (sys_pool sys')) + returns new
       = length (m_is_stopped (sys_pool sys)) + posted
    /\ (Forall (eq true) (m_is_stopped (sys_pool sys)) ->
        Forall (eq true) (m_is_stopped (sys_pool sys'))).
Proof.
  revert sys Hstate Hrun.
  induction Hsched as [|a sched Ha _ IH]; intros sys Hstate Hrun; cbn in Hrun.
  { simplify_eq. exists [], 0. rewrite app_nil_r. cbn. by repeat split. }
  destruct (sys_step a sys) as [sys1|] eqn:Hstep; [|done].
  destruct (sys_step_token_count a sys sys1 Ha Hstep Hstate)
    as (Hst1 & evs & p1 & Htr1 & Hp1 & Hcount1 & Htrue1).
  destruct (IH sys1) as (new & p & Htr & Hp & Hcount & Htrue);
    [by rewrite Hst1|done|].
  exists (evs ++ new), (p1 + p). split; [|split; [|split]].
  - by rewrite Htr, Htr1, app_assoc.
  - change (a :: sched) with ([a] ++ sched).
    rewrite filter_app, length_app. lia.
  - rewrite returns_app. lia.
  - auto.
Qed.

End Tokens.

Lemma one_token_stops_at_most_one_worker_witness :
  exists sys' new posted,
    @run spec_codes _ _ [StopPost; Run 2; Run 2] worker_about_to_check = Some sys'
    /\ sys_trace sys' = sys_trace worker_about_to_check ++ new
    /\ posted <= 1
    /\ length (m_is_stopped (sys_pool sys')) + returns new = 0 + posted.
Proof.
  destruct (@run spec_codes _ _ [StopPost; Run 2; Run 2] worker_about_to_check)
    as [sys'|] eqn:Hrun; [|by vm_compute in Hrun].
  destruct (@one_token_stops_at_most_one_worker spec_codes _ _
              [StopPost; Run 2; Run 2] worker_about_to_check sys')
    as (new & posted & Htr & Hposted & Hcount & _).
  - done.
  - by repeat constructor.
  - exact Hrun.
  - by exists sys', new, posted.
Defined.

(** ** Shrinking a started pool *)

Section Shrinking.
Context `{StateCodes} {Q : Type} `{VUserTaskQueue.ops Q}.

Lemma sys_step_pool_size (a : action Q) sys sys' :
  is_destroy a = false ->
  sys_step a sys = Some sys' ->
  m_alive_flag (sys_pool sys') = m_alive_flag (sys_pool sys)
  /\ (m_pool_size (sys_pool sys') = m_pool_size (sys_pool sys)
      \/ m_pool_size (sys_pool sys') = length (m_main_threads (sys_pool sys'))).
Proof.
  unfold sys_step, sys_pool. destruct a as [tid|f| | |me| |]; intros Ha Hstep;
    try done.
  - repeat case_match; simplify_eq; try (split; [done|by left]).
    match goal with Hw : execute_thread_step _ _ _ = Some _ |- _ =>
      destruct (step_membership _ _ _ _ _ _ Hw) as (_ & _ & _ & Hps & Hal) end.
    unfold the_pool in *. cbn. split; [done|by left].
  - simplify_eq. split; [done|by left].
  - repeat case_match; simplify_eq; split; try done; by left.
  - destruct (mutex_free (shared sys)); [|simplify_eq; split; [done|by left]].
    rewrite stop_thread_drain_spec in Hstep. case_decide; simplify_eq.
    split; [done|by right].
Qed.

Lemma run_started sched sys :
  Forall (fun a => is_destroy a = false) sched ->
  steady sys ->
  m_pool_size (sys_pool sys) = length (m_main_threads (sys_pool sys)) ->
  exists sys', run sched sys = Some sys'
    /\ steady sys'
    /\ m_pool_state (sys_pool sys') = m_pool_state (sys_pool sys)
    /\ m_alive_flag (sys_pool sys') = m_alive_flag (sys_pool sys)
    /\ m_main_threads (sys_pool sys') = m_main_threads (sys_pool sys)
    /\ m_pool_size (sys_pool sys') = m_pool_size (sys_pool sys).
Proof.
  intros Hsched. revert sys.
  induction Hsched as [|a sched Ha _ IH]; intros sys Hsteady Hsize.
  { by exists sys. }
  destruct (sys_step_steady a sys Ha Hsteady)
    as (sys1 & Hstep & Hst1 & Hmain1 & _).
  destruct (sys_step_pool_size a sys sys1 Ha Hstep) as [Hal1 Hps1].
  assert (Hsize1 : m_pool_size (sys_pool sys1) = m_pool_size (sys_pool sys))
    by (destruct Hps1; congruence).
  assert (Hstate1 : m_pool_state (sys_pool sys1) = m_pool_state (sys_pool sys)).
  { destruct (sys_step_pool_state a sys sys1 Hstep) as [|Hstopped]; [done|].
    by destruct Hst1 as (_ & Hns & _). }
  destruct (IH sys1 Hst1) as (sys' & Hrun & Hst & Hstate & Hal & Hmain & Hps);
    [congruence|].
  exists sys'. cbn. rewrite Hstep. split; [done|]. split; [done|].
  repeat split; congruence.
Qed.

(** X14. [initialize_threadpool] cannot make a started pool smaller. On
    an alive pool in state [STARTED] (a code other than [PARTIAL] and
    [STOPPED]) with [m_pool_size] workers in [m_main_threads] and no
    acknowledgement waiting, let the workers, the queue and any number
    of [stop_thread] calls run in any interleaving: the pool stays as
    large as it was, and a call of [initialize_threadpool] with a
    proposed size from 1 to below [m_pool_size] does not return from
    [while(stop_thread() > proposed_size)], however many iterations the
    loop is given: no worker takes a token while the state is
    [STARTED], and nothing in the loop stores [PARTIAL]. *)
Theorem initialize_never_shrinks_a_started_pool (me : ThreadId)
    (spawn : nat -> option ThreadId) (fuel n : nat) sched sys
    (Hpartial : STARTED ≠ PARTIAL)
    (Hstopped : STARTED ≠ STOPPED)
    (Hsched : Forall (fun a => is_destroy a = false) sched)
    (Hstate : m_pool_state (sys_pool sys) = STARTED)
    (Halive : m_alive_flag (sys_pool sys) = true)
    (Hsize : m_pool_size (sys_pool sys) = length (m_main_threads (sys_pool sys)))
    (Hacks : m_stop_threads (sys_pool sys) = [])
    (Hworkers : forall tid wk site,
        threads sys !! tid = Some wk -> pc wk ≠ at_leave_partial site)
    (Hn : 1 <= n < m_pool_size (sys_pool sys)) :
  exists sys',
    run sched sys = Some sys'
    /\ m_main_threads (sys_pool sys') = m_main_threads (sys_pool sys)
    /\ m_pool_size (sys_pool sys') = m_pool_size (sys_pool sys)
    /\ initialize_threadpool me spawn fuel n (proc (shared sys')) = OutOfFuel.
Proof.
  assert (Hsteady : steady sys).
  { split; [by rewrite Hstate|]. split; [by rewrite Hstate|]. by split. }
  destruct (run_started sched sys Hsched Hsteady Hsize)
    as (sys' & Hrun & Hst & Hstate' & Halive' & Hmain & Hps).
  exists sys'. split; [done|]. split; [done|]. split; [done|].
  destruct Hst as (_ & _ & Hacks' & _).
  unfold sys_pool, the_pool in *.
  unfold initialize_threadpool, initialize_enter.
  destruct (Nat.ltb_spec n 1) as [|_]; [lia|].
  rewrite Halive', Halive. cbn [negb].
  cbn [tp on_tp with_tp set_alive_flag m_pool_state m_pool_size].
  rewrite Hstate', Hstate, Z.eqb_refl, Hps. cbn [andb].
  destruct (Nat.ltb_spec n (m_pool_size (tp (proc (shared sys))))) as [_|]; [|lia].
  apply shrink_spins; cbn.
  - done.
  - lia.
  - rewrite Hacks'. cbn. lia.
  - rewrite Hacks'. cbn. rewrite Hmain. lia.
Qed.

End Shrinking.

Lemma initialize_never_shrinks_a_started_pool_witness :
  exists sys',
    @run spec_codes _ _
      [StopPost; Run 2; Run 2; StopDrain; StopPost; Run 2; StopDrain]
      started_system = Some sys'
    /\ m_main_threads (sys_pool sys') = [1; 2; 3]
    /\ @initialize_threadpool spec_codes 0 (fun _ => None) 1000 2
         (proc (shared sys')) = OutOfFuel.
Proof.
  destruct (@initialize_never_shrinks_a_started_pool spec_codes _ _ 0
              (fun _ => None) 1000 2
              [StopPost; Run 2; Run 2; StopDrain; StopPost; Run 2; StopDrain]
              started_system)
    as (sys' & Hrun & Hmain & _ & Hinit); try done.
  - by repeat constructor.
  - intros tid wk site Hlk. cbn in Hlk.
    apply lookup_singleton_Some in Hlk as [_ <-]. done.
  - cbn. lia.
  - by exists sys'.
Defined.

(** ** The indices of the workers of a pool *)

Lemma start_thread_register_hint (tid : ThreadId) (idx : Z) (ids : thread_id_map_t) :
  (0 <= idx < 2 ^ 63)%Z -> start_thread_register tid idx ids = <[tid := idx]> ids.
Proof.
  intros Hidx. unfold start_thread_register.
  destruct (Z.ltb_spec idx 0) as [|_]; [lia|].
  unfold to_uintmax. by rewrite Z.mod_small by lia.
Qed.

Lemma started_snoc (l : list (ThreadId * Z)) (x : ThreadId * Z)
    (ids : thread_id_map_t) :
  started (l ++ [x]) ids = start_thread_register x.1 x.2 (started l ids).
Proof. unfold started. by rewrite foldl_app. Qed.

Lemma started_lookup (l : list (ThreadId * Z)) (ids : thread_id_map_t)
    (tid : ThreadId) (v : Z) :
  (forall x, x ∈ l -> (0 <= x.2 < 2 ^ 63)%Z) ->
  (forall t v1 v2, (t, v1) ∈ l -> (t, v2) ∈ l -> v1 = v2) ->
  started l ids !! tid = Some v
  <-> (tid, v) ∈ l \/ ((tid ∉ l.*1) /\ ids !! tid = Some v).
Proof.
  induction l as [|[t i] l IH] using rev_ind; intros Hidx Hfun.
  { cbn. split; [intros ?; right; split; [apply not_elem_of_nil|done]|].
    intros [Hin|[_ ?]]; [by apply elem_of_nil in Hin|done]. }
  rewrite started_snoc. cbn [fst snd].
  rewrite start_thread_register_hint
    by (apply (Hidx (t, i)), elem_of_app; right; by apply list_elem_of_singleton).
  assert (IH' : started l ids !! tid = Some v
                <-> (tid, v) ∈ l \/ ((tid ∉ l.*1) /\ ids !! tid = Some v)).
  { apply IH.
    - intros x Hx. apply Hidx, elem_of_app. by left.
    - intros t0 v1 v2 H1 H2. apply (Hfun t0); apply elem_of_app; by left. }
  rewrite fmap_app, elem_of_app, not_elem_of_app. cbn.
  rewrite list_elem_of_singleton, not_elem_of_cons.
  destruct (decide (tid = t)) as [->|Hne].
  - rewrite lookup_insert_eq. split.
    + intros [= ->]. left. by right.
    + intros [[Hin|[= ->]]|[[_ [Ht _]] _]]; [|done|done].
      f_equal. apply (Hfun t); apply elem_of_app; [right|left; done].
      by apply list_elem_of_singleton.
  - rewrite lookup_insert_ne by done. rewrite IH'. split.
    + intros [Hin|[Hnin Hids]]; [left; by left|].
      right. split; [|done]. split; [done|]. split; [done|apply not_elem_of_nil].
    + intros [[Hin|[= -> _]]|[[Hnin _] Hids]]; [by left|done|by right].
Qed.

Lemma started_size (l : list (ThreadId * Z)) (ids : thread_id_map_t) :
  (forall x, x ∈ l -> (0 <= x.2 < 2 ^ 63)%Z /\ ids !! x.1 = None) ->
  NoDup l.*1 ->
  size (started l ids) = size ids + length l.
Proof.
  induction l as [|[t i] l IH] using rev_ind; intros Hl Hnd.
  { cbn. lia. }
  rewrite fmap_app in Hnd. apply NoDup_app in Hnd as (Hnd & Hnew & _).
  destruct (Hl (t, i)) as [Hidx Hfresh].
  { apply elem_of_app. right. by apply list_elem_of_singleton. }
  rewrite started_snoc. cbn [fst snd] in *.
  rewrite start_thread_register_hint by done.
  rewrite length_app. cbn. rewrite map_size_insert_None.
  - rewrite IH; [lia| |done]. intros x Hx. apply Hl, elem_of_app. by left.
  - destruct (started l ids !! t) as [v|] eqn:Hlk; [|done]. exfalso.
    apply started_lookup in Hlk as [Hin|[_ Hids]].
    + apply (Hnew t); [|by apply list_elem_of_singleton].
      apply list_elem_of_fmap. by exists (t, v).
    + congruence.
    + intros x Hx. apply Hl, elem_of_app. by left.
    + intros t0 v1 v2 H1 H2.
      apply list_elem_of_lookup in H1 as [j1 H1].
      apply list_elem_of_lookup in H2 as [j2 H2].
      assert (j1 = j2) as ->; [|congruence].
      apply (NoDup_lookup l.*1 j1 j2 t0); [done| |];
        by rewrite list_lookup_fmap, ?H1, ?H2.
Qed.

Lemma spawn_requests_events (spawn : nat -> option ThreadId) (this_tid : Z)
    (i n : nat) :
  spawn_requests (spawn_events spawn this_tid i n)
  = omap (fun k => (fun tid =>
                      (tid, to_intmax (to_uintmax (this_tid + Z.of_nat k + 1))))
                   <$> spawn k) (seq i n).
Proof.
  unfold spawn_requests, spawn_events.
  induction (seq i n) as [|k ks IH]; [done|].
  cbn. rewrite IH. by destruct (spawn k).
Qed.

Lemma index_roundtrip (z : Z) :
  (0 <= z < 2 ^ 63)%Z -> to_intmax (to_uintmax z) = z.
Proof.
  intros Hz. unfold to_uintmax, to_intmax.
  rewrite (Z.mod_small z) by lia. rewrite Z.mod_small; lia.
Qed.

Section WorkerIndices.
Context `{StateCodes}.

(** X15. The workers of a pool are numbered after their master. Let a
    thread whose index is the newest (the number of entries minus 1) of a
    registry in which every index is below the number of entries and no
    two threads share one (as the first thread of a process is, and as
    any thread that was absent is) construct a pool of at least one
    worker, with workers that are new to the registry, and let the
    workers run the registry block of [start_thread] in any order. Then
    the master keeps its index, the worker created in iteration [i] has
    the master's index plus [i + 1], no two threads of the registry share
    an index, and when no creation failed every index is again below the
    number of entries. *)
Theorem workers_are_numbered_after_their_master (me : ThreadId)
    (spawn : nat -> option ThreadId) (fuel n : nat) (ids : thread_id_map_t)
    (order : list (ThreadId * Z)) (k : nat) (w1 : Process)
    (Hn : 1 <= n)
    (Hdense : dense ids)
    (Hdistinct : distinct_indices ids)
    (Hlast : ((GetThisThreadID me ids).1 + 1
              = Z.of_nat (size (GetThisThreadID me ids).2))%Z)
    (Hsmall : (Z.of_nat (size ids) + Z.of_nat n + 1 < 2 ^ 63)%Z)
    (Hfresh : forall i tid,
        spawn i = Some tid -> (GetThisThreadID me ids).2 !! tid = None)
    (Hinj : forall i j tid, spawn i = Some tid -> spawn j = Some tid -> i = j)
    (Hctor : ThreadPool_ctor me spawn fuel n ids = Return k w1)
    (Horder : order ≡ₚ spawn_requests (trace w1)) :
  let master := (GetThisThreadID me ids).1 in
  let registry := started order (f_thread_ids w1) in
  registry !! me = Some master
  /\ (forall i tid, i < n -> spawn i = Some tid ->
        registry !! tid = Some (master + Z.of_nat i + 1)%Z)
  /\ distinct_indices registry
  /\ ((forall i, i < n -> is_Some (spawn i)) -> dense registry).
Proof.
  intros master registry.
  assert (Htr : trace w1 = spawn_events spawn master 0 n
                /\ f_thread_ids w1 = (GetThisThreadID me ids).2).
  { rewrite (ThreadPool_ctor_spec me spawn fuel n ids Hn) in Hctor.
    by injection Hctor as _ <-. }
  destruct Htr as [Htr Hids]. subst registry. rewrite Htr in Horder.
  rewrite Hids. clear Hctor Htr Hids.
  set (registry := started order (GetThisThreadID me ids).2).
  fold master in Hlast.
  destruct (GetThisThreadID_dense me ids Hdense Hdistinct) as [Hdense1 Hdist1].
  pose proof (GetThisThreadID_fst me ids) as Hme. fold master in Hme.
  set (ids1 := (GetThisThreadID me ids).2) in *.
  assert (Hsize1 : size ids1 <= S (size ids)).
  { subst ids1. unfold GetThisThreadID. cbn. destruct (ids !! me) eqn:Hin; [lia|].
    rewrite map_size_insert_None by done. lia. }
  assert (Hm : (0 <= master)%Z) by (destruct (Hdense1 me master Hme); lia).
  clearbody master ids1.
  rewrite spawn_requests_events in Horder.
  assert (Hin : forall tid v, (tid, v) ∈ order
            <-> exists i, i < n /\ spawn i = Some tid
                          /\ v = (master + Z.of_nat i + 1)%Z).
  { intros tid v. rewrite Horder, list_elem_of_omap. split.
    - intros (i & [_ Hi]%elem_of_seq & Hsp).
      destruct (spawn i) as [t|] eqn:Hspawn; [|done]. cbn in Hsp.
      injection Hsp as <- <-. exists i. split; [lia|]. split; [done|].
      apply index_roundtrip. lia.
    - intros (i & Hi & Hsp & ->). exists i. split; [apply elem_of_seq; lia|].
      rewrite Hsp. by rewrite index_roundtrip by lia. }
  assert (Hidx : forall x, x ∈ order -> (0 <= x.2 < 2 ^ 63)%Z).
  { intros [t v] (i & Hi & _ & ->)%Hin. cbn. lia. }
  assert (Hfun : forall t v1 v2, (t, v1) ∈ order -> (t, v2) ∈ order -> v1 = v2).
  { intros t v1 v2 (i & _ & Hs1 & ->)%Hin (j & _ & Hs2 & ->)%Hin.
    by rewrite (Hinj i j t Hs1 Hs2). }
  assert (Hkeys : forall tid, tid ∈ order.*1 -> ids1 !! tid = None).
  { intros tid ([t v] & -> & (i & _ & Hsp & _)%Hin)%list_elem_of_fmap.
    by apply (Hfresh i). }
  assert (Hlk : forall tid v, registry !! tid = Some v
            <-> (tid, v) ∈ order \/ ids1 !! tid = Some v).
  { intros tid v. subst registry. rewrite (started_lookup order ids1 tid v Hidx Hfun).
    split; intros [?|Hold]; auto; [by right; apply Hold|].
    right. split; [|done]. intros Hk. apply Hkeys in Hk. congruence. }
  split; [|split; [|split]].
  - apply Hlk. by right.
  - intros i tid Hi Hsp. apply Hlk. left. apply Hin. by exists i.
  - intros t1 t2 v [(i & _ & Hs1 & ->)%Hin|Hold1]%Hlk
      [(j & Hj & Hs2 & Hv)%Hin|Hold2]%Hlk.
    + assert (i = j) as -> by lia. congruence.
    + destruct (Hdense1 t2 _ Hold2). lia.
    + destruct (Hdense1 t1 _ Hold1). lia.
    + by apply (Hdist1 t1 t2 v).
  - intros Hall.
    assert (Hnd : NoDup order.*1).
    { rewrite Horder. clear -Hinj.
      assert (Hgen : forall ks : list nat, NoDup ks ->
        NoDup (omap (fun k => (fun tid =>
                 (tid, to_intmax (to_uintmax (master + Z.of_nat k + 1))))
                 <$> spawn k) ks).*1).
      { induction 1 as [|k ks Hk Hks IH]; [constructor|].
        cbn. destruct (spawn k) as [t|] eqn:Hsp; [|done]. cbn.
        constructor; [|done].
        intros ([t' v] & Heq & (j & Hj & Hsj)%list_elem_of_omap)%list_elem_of_fmap.
        cbn in Heq. subst t'. destruct (spawn j) as [t'|] eqn:Hsp'; [|done].
        cbn in Hsj. injection Hsj as -> _.
        by rewrite (Hinj k j t Hsp Hsp') in Hk. }
      apply Hgen, NoDup_seq. }
    assert (Hlen : length order = n).
    { rewrite Horder. clear -Hall.
      assert (Hgen : forall i m, (forall j, i <= j < i + m -> is_Some (spawn j)) ->
        length (omap (fun k => (fun tid =>
                 (tid, to_intmax (to_uintmax (master + Z.of_nat k + 1))))
                 <$> spawn k) (seq i m)) = m).
      { intros i m. revert i. induction m as [|m IH]; intros i Hsome; [done|].
        cbn. destruct (Hsome i) as [t ->]; [lia|]. cbn.
        rewrite IH; [done|]. intros j Hj. apply Hsome. lia. }
      apply Hgen. intros j Hj. apply Hall. lia. }
    assert (Hsize : size registry = size ids1 + n).
    { subst registry. rewrite started_size, Hlen; [done| |done].
      intros x Hx. split; [by apply Hidx|].
      apply Hkeys, list_elem_of_fmap. by exists x. }
    intros tid v [(i & Hi & _ & ->)%Hin|Hold]%Hlk; rewrite Hsize.
    + lia.
    + destruct (Hdense1 tid v Hold). lia.
Qed.

End WorkerIndices.

Lemma workers_are_numbered_after_their_master_witness :
  exists w1,
    @ThreadPool_ctor spec_codes 0 (fun i => Some (S i)) 0 3 ∅ = Return 3 w1
    /\ started [(2, 2%Z); (1, 1%Z); (3, 3%Z)] (f_thread_ids w1) !! 0 = Some 0%Z
    /\ started [(2, 2%Z); (1, 1%Z); (3, 3%Z)] (f_thread_ids w1) !! 3 = Some 3%Z.
Proof.
  pose proof (@ThreadPool_ctor_spec spec_codes 0 (fun i => Some (S i)) 0 3 ∅
                ltac:(lia)) as Hctor.
  cbn zeta in Hctor.
  match type of Hctor with _ = Return ?k ?w =>
    destruct (@workers_are_numbered_after_their_master spec_codes 0
                (fun i => Some (S i)) 0 3 ∅ [(2, 2%Z); (1, 1%Z); (3, 3%Z)] k w)
      as (Hme & Hworker & _); [..|exists w]
  end.
  - lia.
  - intros tid i Hlk. by rewrite lookup_empty in Hlk.
  - intros t1 t2 i Hlk. by rewrite lookup_empty in Hlk.
  - reflexivity.
  - vm_compute. reflexivity.
  - intros i tid [= <-].
    rewrite (GetThisThreadID_absent 0 ∅) by apply lookup_empty. cbn [snd].
    rewrite lookup_insert_ne by done. apply lookup_empty.
  - intros i j tid [= <-] [= ->]. reflexivity.
  - exact Hctor.
  - vm_compute. apply perm_swap.
  - split; [exact Hctor|].
    split; (etrans; [|by vm_compute]).
    + exact Hme.
    + exact (Hworker 2 3 ltac:(lia) eq_refl).
Defined.

(** ** Acknowledgements that [stop_thread] cannot match *)

Lemma erase_all_foreign (acks main : list ThreadId) :
  (forall tid, tid ∈ acks -> tid ∉ main) -> erase_all acks main = main.
Proof.
  unfold erase_all. induction acks as [|a acks IH]; intros Hforeign; [done|].
  cbn [foldl]. rewrite erase_first_length_notin.
  - apply IH. intros tid Hin. apply Hforeign. by apply elem_of_cons; right.
  - apply Hforeign. by apply elem_of_cons; left.
Qed.

Section Unmatched.
Context `{StateCodes}.

(** X16. [stop_thread] pops [m_is_joined] once for every acknowledgement,
    whether or not it finds the acknowledged identity in
    [m_main_threads]. On an alive pool whose vectors agree, an
    acknowledgement of a thread that is not in [m_main_threads] (one that
    an earlier [destroy_threadpool] left in [m_stop_threads], say) makes
    [stop_thread] return the unchanged number of workers and leave
    [m_is_joined] shorter than [m_main_threads]; from then on
    [destroy_threadpool] throws, and so does every
    [initialize_threadpool] that reaches its size check. *)
Theorem unmatched_acknowledgement_breaks_the_pool (me : ThreadId) (w : Process)
    (Halive : m_alive_flag (tp w) = true)
    (Hpos : m_pool_size (tp w) ≠ 0)
    (Hsizes : length (m_is_joined (tp w)) = length (m_main_threads (tp w)))
    (Hsome : m_stop_threads (tp w) ≠ [])
    (Hforeign : forall tid,
        tid ∈ m_stop_threads (tp w) -> tid ∉ m_main_threads (tp w))
    (Hjoined : length (m_stop_threads (tp w)) <= length (m_is_joined (tp w))) :
  exists w1,
    stop_thread w = Return (length (m_main_threads (tp w))) w1
    /\ m_main_threads (tp w1) = m_main_threads (tp w)
    /\ length (m_is_joined (tp w1)) + length (m_stop_threads (tp w))
       = length (m_main_threads (tp w))
    /\ raises (destroy_threadpool me w1)
    /\ (forall spawn fuel n,
          reaches_spawn_loop n w1 = true ->
          raises (initialize_threadpool me spawn fuel n w1)).
Proof.
  pose proof (erase_all_foreign _ _ Hforeign) as Hsame.
  rewrite (stop_thread_active w Halive Hpos), stop_thread_drain_spec.
  cbn [tp stop_thread_post emit on_tp with_tp m_stop_threads m_is_joined
       m_main_threads set_is_stopped].
  rewrite decide_True by done. rewrite Hsame.
  set (w1 := with_tp _ _).
  assert (Hmain1 : m_main_threads (tp w1) = m_main_threads (tp w))
    by (subst w1; cbn -[erase_all]; by rewrite Hsame).
  assert (Hlen1 : length (m_is_joined (tp w1)) + length (m_stop_threads (tp w))
                  = length (m_main_threads (tp w)))
    by (subst w1; cbn -[erase_all]; rewrite length_take; lia).
  assert (Hdiffer : sizes_differ w1).
  { unfold sizes_differ. rewrite Hmain1.
    assert (length (m_stop_threads (tp w)) ≠ 0)
      by (by destruct (m_stop_threads (tp w))).
    lia. }
  exists w1. split; [done|]. split; [done|]. split; [done|]. split.
  - destruct (destroy_alive me w1) as (_ & Hthrow & _); [done|].
    by rewrite (Hthrow Hdiffer).
  - intros spawn fuel n Hreach.
    rewrite (initialize_reaching me spawn fuel n w1 Hreach).
    unfold reaches_spawn_loop in Hreach. unfold at_initialize_check.
    destruct (initialize_enter n w1) as [w2|] eqn:Henter; [|done].
    destruct (initialize_check_raises (initialize_spawn me spawn n w2))
      as [Hthrow _].
    rewrite Hthrow; [done|].
    apply initialize_spawn_sizes. by apply (initialize_enter_sizes n w1 w2).
Qed.

(** X17. [stop_thread] has undefined behaviour exactly when it gets past
    its guard (the pool is alive and [m_pool_size] is not 0) and more
    acknowledgements are waiting than [m_is_joined] has entries: the drain
    loop then calls [pop_back] on an empty vector. In every other case it
    returns. *)
Theorem stop_thread_is_undefined_when_joined_runs_out (w : Process) :
  (stop_thread w = Undefined
   <-> m_alive_flag (tp w) = true
       /\ m_pool_size (tp w) ≠ 0
       /\ length (m_is_joined (tp w)) < length (m_stop_threads (tp w)))
  /\ (stop_thread w ≠ Undefined -> exists n w', stop_thread w = Return n w').
Proof.
  assert (Hcases :
    (m_alive_flag (tp w) = false \/ m_pool_size (tp w) = 0)
    \/ (m_alive_flag (tp w) = true /\ m_pool_size (tp w) ≠ 0)).
  { destruct (m_alive_flag (tp w)); [|by left; left].
    destruct (decide (m_pool_size (tp w) = 0)); [left; by right|by right]. }
  destruct Hcases as [Hidle|[Halive Hpos]].
  - rewrite (stop_thread_idle w Hidle). split; [split; [done|]|by eexists _, _].
    intros (Halive & Hpos & _). destruct Hidle; congruence.
  - rewrite (stop_thread_active w Halive Hpos), stop_thread_drain_spec.
    cbn [tp stop_thread_post emit on_tp with_tp m_stop_threads m_is_joined
         m_main_threads set_is_stopped].
    case_decide; (split; [split|]); try done.
    + intros (_ & _ & ?). lia.
    + by eexists _, _.
    + intros _. repeat split; try done. lia.
Qed.

End Unmatched.

Lemma stop_thread_is_undefined_when_joined_runs_out_witness :
  stop_thread (on_tp (set_is_joined []) one_acknowledged) = Undefined
  /\ exists n w', stop_thread one_acknowledged = Return n w'.
Proof.
  destruct (stop_thread_is_undefined_when_joined_runs_out
              (on_tp (set_is_joined []) one_acknowledged)) as [[_ Hub] _].
  destruct (stop_thread_is_undefined_when_joined_runs_out one_acknowledged)
    as [_ Hret].
  split.
  - apply Hub. cbn. repeat split; [done|lia].
  - apply Hret. by vm_compute.
Defined.

Lemma unmatched_acknowledgement_breaks_the_pool_witness :
  exists w1,
    stop_thread stale_acknowledgement = Return 3 w1
    /\ m_main_threads (tp w1) = [1; 2; 3]
    /\ length (m_is_joined (tp w1)) + 1 = 3
    /\ raises (@destroy_threadpool spec_codes 0 w1).
Proof.
  destruct (@unmatched_acknowledgement_breaks_the_pool spec_codes 0
              stale_acknowledgement)
    as (w1 & Hstop & Hmain & Hlen & Hdestroy & _); try done.
  - intros tid Hin. apply list_elem_of_singleton in Hin as ->. list_facts.
  - cbn. lia.
  - by exists w1.
Defined.

(** ** Initializing a destroyed pool again *)

Section RestartSizes.
Context `{StateCodes}.

(** X18. [destroy_threadpool] leaves [m_pool_size] at its old value [k],
    and the next [initialize_threadpool] counts from it. On a destroyed
    pool (not alive, [m_main_threads] and [m_is_joined] empty, no
    acknowledgement waiting) a call with a proposed size [n >= 1], every
    creation succeeding, creates [n - k] threads only: for [n < k] none
    at all, the call returning 0 after one [stop_thread] that set
    [m_pool_size] to 0; for [n = k] none, the call returning [k]; for
    [n > k] the [n - k] threads of the iterations [k] to [n - 1], the call
    returning [n - k] with [m_pool_size] at [n]. *)
Theorem reinitialize_counts_from_the_old_size (me : ThreadId)
    (spawn : nat -> option ThreadId) (fuel n : nat) (w : Process)
    (Hn : 1 <= n)
    (Hdead : m_alive_flag (tp w) = false)
    (Hmain : m_main_threads (tp w) = [])
    (Hjoined : m_is_joined (tp w) = [])
    (Hacks : m_stop_threads (tp w) = [])
    (Hall : forall i, is_Some (spawn i)) :
  exists r w',
    initialize_threadpool me spawn (S fuel) n w = Return r w'
    /\ m_main_threads (tp w') = created spawn (m_pool_size (tp w))
                                        (n - m_pool_size (tp w))
    /\ length (m_main_threads (tp w')) = n - m_pool_size (tp w)
    /\ r = (if n =? m_pool_size (tp w) then n else n - m_pool_size (tp w))
    /\ m_pool_size (tp w') = (if n <? m_pool_size (tp w) then 0 else n)
    /\ m_alive_flag (tp w') = true.
Proof.
  assert (Hlen : length (created spawn (m_pool_size (tp w))
                                 (n - m_pool_size (tp w)))
                 = n - m_pool_size (tp w))
    by (apply created_all; intros; apply Hall).
  destruct (lt_eq_lt_dec n (m_pool_size (tp w))) as [[Hlt|Heq]|Hgt].
  - replace (n - m_pool_size (tp w)) with 0 in * by lia.
    destruct (Nat.eqb_spec n (m_pool_size (tp w))) as [|_]; [lia|].
    destruct (Nat.ltb_spec n (m_pool_size (tp w))) as [_|]; [|lia].
    unfold initialize_threadpool, initialize_enter.
    destruct (Nat.ltb_spec n 1) as [|_]; [lia|].
    rewrite Hdead.
    cbn [negb tp on_tp with_tp set_alive_flag set_pool_state m_pool_state
         m_pool_size].
    rewrite Z.eqb_refl. cbn [andb].
    destruct (Nat.ltb_spec n (m_pool_size (tp w))) as [_|]; [|lia].
    cbn [shrink]. rewrite stop_thread_active by (cbn; done || lia).
    rewrite stop_thread_drain_spec.
    cbn [tp stop_thread_post emit on_tp with_tp m_stop_threads m_is_joined
         m_main_threads set_is_stopped set_alive_flag set_pool_state].
    rewrite Hacks, Hmain, Hjoined. cbn. rewrite decide_True by lia.
    eexists _, _. split; [reflexivity|]. cbn. by rewrite Hacks, Hmain.
  - rewrite (initialize_same_size me spawn (S fuel) n w Hn Hdead (eq_sym Heq)).
    rewrite <- Heq, Nat.sub_diag, Nat.eqb_refl, Nat.ltb_irrefl.
    eexists _, _. split; [reflexivity|]. cbn. by rewrite Hmain, <- Heq.
  - destruct (Nat.eqb_spec n (m_pool_size (tp w))) as [|_]; [lia|].
    destruct (Nat.ltb_spec n (m_pool_size (tp w))) as [|_]; [lia|].
    destruct (initialize_grows me spawn (S fuel) n w)
      as (w' & Hret & Hmain' & _ & _ & Hsize & Halive).
    { unfold reaches_spawn_loop, initialize_enter.
      destruct (Nat.ltb_spec n 1) as [|_]; [lia|]. rewrite Hdead.
      cbn [negb tp on_tp with_tp set_alive_flag set_pool_state m_pool_state
           m_pool_size].
      destruct (Nat.leb_spec n (m_pool_size (tp w))) as [|_]; [lia|].
      by rewrite andb_false_r. }
    { by rewrite Hmain, Hjoined. }
    rewrite Hmain in Hret, Hmain'. cbn in Hret, Hmain'.
    exists (n - m_pool_size (tp w)), w'. rewrite Hret, Hmain', Hsize, Hlen.
    repeat split; try done. lia.
Qed.

End RestartSizes.

Lemma reinitialize_counts_from_the_old_size_witness :
  exists w',
    @initialize_threadpool spec_codes 0 (fun i => Some (S i)) 1 5 destroyed_once
    = Return 2 w'
    /\ m_main_threads (tp w') = [4; 5]
    /\ m_pool_size (tp w') = 5.
Proof.
  destruct (@reinitialize_counts_from_the_old_size spec_codes 0
              (fun i => Some (S i)) 0 5 destroyed_once)
    as (r & w' & Hret & Hmain & _ & Hr & Hsize & _); try done.
  - cbn. lia.
  - exists w'. rewrite Hret, Hr. by split.
Defined.

(** ** A worker that runs alone *)

Section RunningAlone.
Context `{StateCodes} {Q : Type} `{VUserTaskQueue.ops Q}.

Lemma run_alone (n : nat) (tid : ThreadId) (s : Shared Q) (wk : Worker)
    (ths : gmap ThreadId Worker) :
  run (replicate n (Run tid)) (mkSystem s (<[tid := wk]> ths))
  = Some (mkSystem (execute_thread_steps n tid s wk).1
                   (<[tid := (execute_thread_steps n tid s wk).2]> ths)).
Proof.
  revert s wk. induction n as [|n IH]; intros s wk; [done|].
  cbn [replicate run sys_step execute_thread_steps shared threads].
  rewrite lookup_insert_eq.
  destruct (execute_thread_step tid s wk) as [[[s' wk'] evs]|] eqn:Hstep.
  - rewrite insert_insert_eq. apply IH.
  - rewrite IH. clear IH.
    assert (Hstuck : forall m, execute_thread_steps m tid s wk = (s, wk)).
    { intros [|m]; [done|]. cbn. by rewrite Hstep. }
    by rewrite Hstuck.
Qed.

Lemma run_alone_from (n : nat) (tid : ThreadId) sys (wk : Worker) :
  threads sys !! tid = Some wk ->
  run (replicate n (Run tid)) sys
  = Some (mkSystem (execute_thread_steps n tid (shared sys) wk).1
            (<[tid := (execute_thread_steps n tid (shared sys) wk).2]>
               (threads sys))).
Proof.
  intros Hw. destruct sys as [s ths]. cbn in *.
  rewrite <- (insert_id ths tid wk Hw) at 1. rewrite run_alone.
  done.
Qed.

Lemma execute_thread_steps_add (n m : nat) (tid : ThreadId) (s : Shared Q)
    (wk : Worker) :
  execute_thread_steps (n + m) tid s wk
  = execute_thread_steps m tid (execute_thread_steps n tid s wk).1
                               (execute_thread_steps n tid s wk).2.
Proof.
  revert s wk. induction n as [|n IH]; intros s wk; [done|].
  cbn [Nat.add execute_thread_steps].
  destruct (execute_thread_step tid s wk) as [[[s' wk'] evs]|] eqn:Hstep;
    [apply IH|].
  cbn [fst snd]. clear IH. induction m as [|m IHm]; [done|].
  cbn. by rewrite Hstep.
Qed.

Lemma concat_replicate_snoc {A} (k : nat) (l : list A) :
  concat (replicate k l) ++ l = l ++ concat (replicate k l).
Proof.
  induction k as [|k IH]; cbn; [by rewrite app_nil_r|].
  by rewrite <- app_assoc, IH.
Qed.

Lemma execute_thread_steps_step (n : nat) (tid : ThreadId) (s : Shared Q)
    wk s' wk' (evs : list event) :
  execute_thread_step tid s wk = Some (s', wk', evs) ->
  execute_thread_steps (S n) tid s wk
  = execute_thread_steps n tid (append_trace evs s') wk'.
Proof. intros Hstep. cbn [execute_thread_steps]. by rewrite Hstep. Qed.

Lemma spin_once (tid : ThreadId) (s : Shared Q) :
  leave_verdict (m_pool_state (the_pool s)) = Stay ->
  VUserTaskQueue.empty (queue s) = true ->
  VUserTaskQueue.true_size (queue s) ≠ 0 ->
  execute_thread_steps 9 tid s (mkWorker at_wait_test false false)
  = (append_trace [EvLeaveCheck tid InWaitLoop (m_pool_state (the_pool s));
                   EvLeaveCheck tid BeforeDrain (m_pool_state (the_pool s))] s,
     mkWorker at_wait_test false false).
Proof.
  intros Hstay Hempty Hsize. apply Nat.eqb_neq in Hsize.
  destruct s as [[ids p tr] lk q]. unfold the_pool in *. cbn [proc tp queue] in *.
  do 9 (erewrite execute_thread_steps_step;
        [|unfold execute_thread_step;
          cbn [pc the_pool proc tp append_trace with_proc emit trace
               f_thread_ids m_task_lock queue goto owns_lock within_task
               after_leave unlock_if_owned];
          rewrite ?Hempty, ?Hstay, ?Hsize; reflexivity];
        unfold append_trace, with_proc, emit, goto, unlock_if_owned;
        cbn [proc tp trace f_thread_ids m_task_lock queue owns_lock
             within_task after_leave pc]; rewrite ?app_nil_r).
  cbn [execute_thread_steps]. by rewrite <- ?app_assoc.
Qed.

(** X19. A worker spins when the queue's [empty()] and [true_size()]
    disagree. While [leave_pool()] has no reason to stop the worker, a
    worker at the test of its wait loop that finds [empty()] true and
    [true_size()] not 0 goes around the whole outer loop in nine
    statements and is back at the test with nothing changed: it has
    evaluated [leave_pool()] twice, has not called [GetTask()], has not
    taken the mutex and has not waited on the condition variable. Left
    alone it does so any number of times. *)
Theorem worker_spins_while_the_queue_disagrees (tid : ThreadId) (k : nat) sys wk
    (Hw : threads sys !! tid = Some wk)
    (Hpc : pc wk = at_wait_test)
    (Hown : owns_lock wk = false)
    (Hguard : within_task wk = false)
    (Hstay : leave_verdict (m_pool_state (sys_pool sys)) = Stay)
    (Hempty : VUserTaskQueue.empty (queue (shared sys)) = true)
    (Hsize : VUserTaskQueue.true_size (queue (shared sys)) ≠ 0) :
  run (replicate (9 * k) (Run tid)) sys
  = Some (mkSystem
            (append_trace
               (concat (replicate k
                  [EvLeaveCheck tid InWaitLoop (m_pool_state (sys_pool sys));
                   EvLeaveCheck tid BeforeDrain (m_pool_state (sys_pool sys))]))
               (shared sys))
            (threads sys)).
Proof.
  rewrite (run_alone_from (9 * k) tid sys wk Hw).
  destruct wk as [l o g]. cbn in Hpc, Hown, Hguard. subst l o g.
  unfold sys_pool in *. set (s := shared sys) in *.
  assert (Hsteps : execute_thread_steps (9 * k) tid s
                     (mkWorker at_wait_test false false)
    = (append_trace
         (concat (replicate k
            [EvLeaveCheck tid InWaitLoop (m_pool_state (the_pool s));
             EvLeaveCheck tid BeforeDrain (m_pool_state (the_pool s))])) s,
       mkWorker at_wait_test false false)).
  { clearbody s. clear Hw. induction k as [|k IH].
    - cbn. destruct s as [[ids p tr] lk q]. unfold append_trace, with_proc, emit.
      cbn. by rewrite app_nil_r.
    - replace (9 * S k) with (9 * k + 9) by lia.
      rewrite execute_thread_steps_add, IH. cbn [fst snd].
      rewrite spin_once; [|done..].
      f_equal. destruct s as [[ids p tr] lk q].
      unfold append_trace, with_proc, emit, the_pool. cbn.
      do 2 f_equal. rewrite <- app_assoc. f_equal.
      apply (concat_replicate_snoc k [_; _]). }
  rewrite Hsteps. cbn [fst snd]. by rewrite (insert_id _ _ _ Hw).
Qed.

End RunningAlone.

Lemma worker_spins_while_the_queue_disagrees_witness :
  @run spec_codes _ binned_queue (replicate 18 (Run 1)) other_bin_busy
  = Some (mkSystem
            (append_trace
               [EvLeaveCheck 1 InWaitLoop 1; EvLeaveCheck 1 BeforeDrain 1;
                EvLeaveCheck 1 InWaitLoop 1; EvLeaveCheck 1 BeforeDrain 1]
               (shared other_bin_busy))
            (threads other_bin_busy)).
Proof.
  apply (@worker_spins_while_the_queue_disagrees spec_codes _ binned_queue 1 2
           other_bin_busy (mkWorker at_wait_test false false));
    try done.
Defined.

Section DummyRun.
Context `{StateCodes} {Q : Type} `{VUserTaskQueue.ops Q}.

(** X20. A new worker runs a task before it reads the pool state. The
    block of lines 501-511 comes before the first [leave_pool()]: a
    worker that starts when the pool is already [STOPPED] and finds a
    task in the queue enters itself in the registry, takes that one
    task, invokes it, deletes it when it has no group, and only then
    evaluates
    [leave_pool()] (at the top of the wait loop when the queue is now
    empty, before the task loop otherwise) and returns. It takes no
    second task and never takes the mutex. *)
Theorem new_worker_runs_a_task_before_it_reads_the_state (tid : ThreadId)
    (idx : Z) sys wk (t : Task) (q' : Q)
    (Hw : threads sys !! tid = Some wk)
    (Hpc : pc wk = at_start idx)
    (Hpos : (0 < STOPPED)%Z)
    (Hstopped : m_pool_state (sys_pool sys) = STOPPED)
    (Hget : VUserTaskQueue.GetTask (queue (shared sys)) = (Some t, q')) :
  exists sys',
    run (replicate 11 (Run tid)) sys = Some sys'
    /\ has_returned tid sys'
    /\ f_thread_ids (proc (shared sys'))
       = start_thread_register tid idx (f_thread_ids (proc (shared sys)))
    /\ queue (shared sys') = q'
    /\ m_task_lock (shared sys') = m_task_lock (shared sys)
    /\ sys_trace sys'
       = sys_trace sys
         ++ [EvInit tid; EvGetTask tid (Some t); EvInvoke tid t]
         ++ match group t with None => [EvDelete tid t] | Some _ => [] end
         ++ [EvLeaveCheck tid
               (if VUserTaskQueue.empty q' then InWaitLoop else BeforeDrain)
               STOPPED;
             EvReturn tid].
Proof.
  rewrite (run_alone_from 11 tid sys wk Hw). eexists. split; [reflexivity|].
  destruct wk as [l o g]. cbn in Hpc. subst l.
  unfold has_returned, sys_pool, sys_trace in *. cbn [threads shared].
  rewrite lookup_insert_eq. clear Hw.
  destruct (shared sys) as [[ids p tr] lk q]. unfold the_pool in *.
  cbn [proc tp queue trace m_task_lock] in *.
  pose proof (leave_verdict_stopped Hpos) as Hleave. rewrite <- Hstopped in Hleave.
  cbn [execute_thread_steps].
  destruct (VUserTaskQueue.empty q') eqn:Hempty; destruct (group t) eqn:Hgroup;
    repeat (unfold execute_thread_step at 1;
            cbn [pc the_pool proc tp append_trace with_proc with_ids emit trace
                 f_thread_ids m_task_lock queue goto owns_lock within_task
                 after_leave after_task unlock_if_owned on_pool on_tp with_tp
                 with_queue do_return set_thread_awake m_pool_state];
            rewrite ?Hget, ?Hempty, ?Hgroup, ?Hleave);
    cbn; rewrite <- ?app_assoc, ?Hstopped; cbn; eauto 10.
Qed.

End DummyRun.

Lemma new_worker_runs_a_task_before_it_reads_the_state_witness :
  exists sys',
    @run spec_codes _ _ (replicate 11 (Run 1)) late_worker = Some sys'
    /\ has_returned 1 sys'
    /\ queue (shared sys') = [grouped_task]
    /\ sys_trace sys'
       = [EvSpawn 1 1; EvNotifyAll; EvInit 1; EvGetTask 1 (Some plain_task);
          EvInvoke 1 plain_task; EvDelete 1 plain_task;
          EvLeaveCheck 1 BeforeDrain 3; EvReturn 1].
Proof.
  destruct (@new_worker_runs_a_task_before_it_reads_the_state spec_codes _ _
              1 1%Z late_worker (mkWorker (at_start 1) false false)
              plain_task [grouped_task])
    as (sys' & Hrun & Hret & _ & Hq & _ & Htr); try done.
  by exists sys'.
Defined.

(** ** The destructor of a pool whose vectors disagree *)

Section Destructor.
Context `{StateCodes}.

(** X21. How the destructor ends. On a pool that is not alive it returns
    at once and changes nothing. On an alive pool whose two vectors agree
    it returns with the pool destroyed. On an alive pool whose vectors
    disagree the [std::runtime_error] of [destroy_threadpool] leaves the
    body of the destructor, so the process ends in [std::terminate]: by
    then [STOPPED] is stored and the waiters are notified once, but no
    thread is joined, the handles are still in [m_unique_threads] and the
    pool is still alive. *)
Theorem destructor_ends_the_process_on_a_size_mismatch (me : ThreadId)
    (w : Process) :
  (m_alive_flag (tp w) = false -> ThreadPool_dtor me w = Returns w)
  /\ (m_alive_flag (tp w) = true ->
      length (m_is_joined (tp w)) = length (m_main_threads (tp w)) ->
      exists w', ThreadPool_dtor me w = Returns w'
                 /\ m_alive_flag (tp w') = false
                 /\ m_pool_state (tp w') = STOPPED
                 /\ m_unique_threads (tp w') = [])
  /\ (m_alive_flag (tp w) = true ->
      length (m_is_joined (tp w)) ≠ length (m_main_threads (tp w)) ->
      exists w', ThreadPool_dtor me w
                 = Terminates (SizeMismatch In_destroy_threadpool
                                 (length (m_is_joined (tp w)))
                                 (length (m_main_threads (tp w)))) w'
                 /\ m_pool_state (tp w') = STOPPED
                 /\ m_alive_flag (tp w') = true
                 /\ m_unique_threads (tp w') = m_unique_threads (tp w)
                 /\ trace w' = trace w ++ [EvNotifyAll])
  /\ ThreadPool_dtor me w ≠ Unfinished.
Proof.
  unfold ThreadPool_dtor. split; [|split; [|split]].
  - by intros ->.
  - intros Halive Hsizes. rewrite Halive.
    rewrite (destroy_threadpool_alive me w Halive Hsizes). by eexists.
  - intros Halive Hsizes. rewrite Halive.
    destruct (destroy_alive me w Halive) as (_ & Hthrow & _).
    rewrite (Hthrow Hsizes). eexists. split; [reflexivity|].
    unfold destroy_notify, destroy_store.
    destruct (GetThisThreadID me (f_thread_ids w)) as [nid ids]. by cbn.
  - destruct (m_alive_flag (tp w)) eqn:Halive; [|done].
    destruct (decide (length (m_is_joined (tp w))
                      = length (m_main_threads (tp w)))) as [Hsizes|Hsizes].
    + by rewrite (destroy_threadpool_alive me w Halive Hsizes).
    + destruct (destroy_alive me w Halive) as (_ & Hthrow & _).
      by rewrite (Hthrow Hsizes).
Qed.

End Destructor.

Lemma destructor_ends_the_process_on_a_size_mismatch_witness :
  exists w',
    @ThreadPool_dtor spec_codes 0 mismatched
    = Terminates (SizeMismatch In_destroy_threadpool 0 1) w'
    /\ m_pool_state (tp w') = 3%Z
    /\ m_unique_threads (tp w') = [5]
    /\ trace w' = [EvNotifyAll].
Proof.
  destruct (@destructor_ends_the_process_on_a_size_mismatch spec_codes 0
              mismatched) as (_ & _ & Hends & _).
  destruct (Hends eq_refl ltac:(discriminate))
    as (w' & Hdtor & Hstate & _ & Hunique & Htrace).
  by exists w'.
Defined.

(** ** [stop_thread] on a pool whose workers run *)

Section LiveWorkers.
Context `{StateCodes} {Q : Type} `{VUserTaskQueue.ops Q}.

Lemma run_steady_returns (sched : list (action Q)) sys sys' :
  Forall (fun a => is_destroy a = false) sched ->
  steady sys ->
  run sched sys = Some sys' ->
  forall tid, has_returned tid sys' -> has_returned tid sys.
Proof.
  intros Hsched. revert sys.
  induction Hsched as [|a sched Ha _ IH]; intros sys Hsteady Hrun; cbn in Hrun.
  { by simplify_eq. }
  destruct (sys_step_steady a sys Ha Hsteady)
    as (sys1 & Hstep & Hst1 & _ & _ & _ & Hret1 & _).
  rewrite Hstep in Hrun. intros tid Hret.
  by apply Hret1, (IH sys1 Hst1 Hrun).
Qed.

End LiveWorkers.

Lemma just_constructed_steady : @steady spec_codes _ just_constructed.
Proof.
  split; [done|]. split; [done|]. split; [done|].
  intros tid wk site Hw. cbn in Hw.
  apply lookup_insert_Some in Hw as [[<- <-]|[_ Hw]]; [done|].
  apply lookup_insert_Some in Hw as [[<- <-]|[_ Hw]]; [done|].
  apply lookup_singleton_Some in Hw as [<- <-]. done.
Qed.

(** C2 fails on the code. After [ThreadPool(3, ...)] was constructed, let
    the three workers, the queue and any number of [stop_thread] calls run
    in any interleaving: [m_pool_size] stays 3, no worker returns, no
    acknowledgement arrives, and one more [stop_thread] returns 3 again.
    [stop_thread] posts its token while the state is [STARTED]; a worker
    looks for a token only after it has read [PARTIAL]; nothing stores
    [PARTIAL]. *)
Theorem stop_thread_does_not_shrink_a_running_pool
    (sched : list (action (list Task)))
    (Hsched : Forall (fun a => is_destroy a = false) sched) :
  @ThreadPool_ctor spec_codes 0 (fun i => Some (S i)) 0 3 ∅ = Return 3 three_started
  /\ exists sys',
       @run spec_codes _ _ sched just_constructed = Some sys'
       /\ m_pool_size (sys_pool sys') = 3
       /\ m_main_threads (sys_pool sys') = [1; 2; 3]
       /\ m_stop_threads (sys_pool sys') = []
       /\ (forall tid, ~ has_returned tid sys')
       /\ exists w', stop_thread (proc (shared sys')) = Return 3 w'
                     /\ m_pool_size (tp w') = 3.
Proof.
  split; [reflexivity|].
  destruct (@run_started spec_codes _ _ sched just_constructed Hsched
              just_constructed_steady eq_refl)
    as (sys' & Hrun & Hst & _ & Halive & Hmain & Hsize).
  exists sys'. split; [exact Hrun|]. split; [exact Hsize|].
  split; [exact Hmain|]. destruct Hst as (_ & _ & Hacks & _).
  split; [exact Hacks|]. split.
  - intros tid Hret.
    apply (@run_steady_returns spec_codes _ _ sched just_constructed sys' Hsched
             just_constructed_steady Hrun) in Hret as (wk & Hw & Hpc).
    cbn in Hw.
    apply lookup_insert_Some in Hw as [[<- <-]|[_ Hw]]; [done|].
    apply lookup_insert_Some in Hw as [[<- <-]|[_ Hw]]; [done|].
    apply lookup_singleton_Some in Hw as [<- <-]. done.
  - unfold sys_pool, the_pool in *.
    rewrite stop_thread_active by (rewrite ?Halive, ?Hsize; done).
    rewrite stop_thread_drain_spec.
    cbn [tp stop_thread_post emit on_tp with_tp m_stop_threads m_is_joined
         m_main_threads set_is_stopped].
    rewrite Hacks, Hmain. cbn [length]. rewrite decide_True by lia.
    eexists. split; [reflexivity|]. cbn. by rewrite Hacks, Hmain.
Qed.

Lemma stop_thread_does_not_shrink_a_running_pool_witness :
  exists sys',
    @run spec_codes _ _
      [Run 1; Run 2; Run 3; StopPost; Run 1; StopDrain; Run 2; Run 3; Run 1;
       StopPost; StopDrain; Run 2; Run 3; Run 1; Run 2; Run 3]
      just_constructed = Some sys'
    /\ m_pool_size (sys_pool sys') = 3
    /\ m_main_threads (sys_pool sys') = [1; 2; 3]
    /\ (forall tid, ~ has_returned tid sys').
Proof.
  destruct (stop_thread_does_not_shrink_a_running_pool
              [Run 1; Run 2; Run 3; StopPost; Run 1; StopDrain; Run 2; Run 3;
               Run 1; StopPost; StopDrain; Run 2; Run 3; Run 1; Run 2; Run 3])
    as (_ & sys' & Hrun & Hsize & Hmain & _ & Hret & _).
  - by repeat constructor.
  - exists sys'. split; [exact Hrun|]. split; [exact Hsize|].
    split; [exact Hmain|exact Hret].
Defined.
